(** * Panel2EPUB: the page-layout engine of [convert_to_epub.py]

    A shallow embedding of the functions that decide the layout of the
    generated book:

    - [sanitize_name] (the local helper of [generate_xhtml_pages] and of
      [generate_content_opf]),
    - the double-page splitter, [generate_xhtml_pages],
    - the spine and manifest builder, [generate_content_opf],
    - the archive writer, [create_epub_from_temp],

    and of the functions around them: [copy_images_to_temp_images],
    [parse_resolution], [generate_toc_ncx], [generate_nav_xhtml] and
    [sanitize_filename].

    Python values are modelled as follows.  A [str] is a list of Unicode
    code points ([list N]); an [int] is a [Z]; a [float] is a binary64
    [float] of the kernel; a directory is a finite map from entry names to
    entries; [print] appends a message to a log. *)

From Stdlib Require Import ZArith List Floats Uint63 String Ascii DecimalString.
From Stdlib Require DecimalZ.
From stdpp Require Import base decidable option list gmap sorting.

#[local] Open Scope Z_scope.

(** ** Python strings *)

Abbreviation pystr := (list N).

(** A literal of the source, as code points. *)
Definition py (s : string) : pystr := map N_of_ascii (list_ascii_of_string s).
Arguments py s%_string : simpl never.

(** [str(n)] for an [int]. *)
Definition str_of_int (n : Z) : pystr := py (NilZero.string_of_int (Z.to_int n)).

Definition is_ascii (c : N) : bool := (c <? 128)%N.

(** [c.isalnum()] on the ASCII range: digits and the two letter cases. *)
Definition ascii_isalnum (c : N) : bool :=
  ((48 <=? c) && (c <=? 57) || (65 <=? c) && (c <=? 90) || (97 <=? c) && (c <=? 122))%N.

(** [c.lower()] on the ASCII range. *)
Definition ascii_lower (c : N) : N :=
  if ((65 <=? c) && (c <=? 90))%N then (c + 32)%N else c.

(** [s.endswith(suffix)], [s[:-2]] and [s[-1]] (the latter only where the
    source has checked that [s] is not empty). *)
Definition endswith (s suffix : pystr) : bool :=
  bool_decide (length suffix ≤ length s)%nat
  && bool_decide (drop (length s - length suffix) s = suffix).

Definition drop_last2 (s : pystr) : pystr := take (length s - 2) s.

Definition last_char (s : pystr) : pystr := drop (length s - 1) s.

(** Index of the last occurrence of [c], as [str.rfind] ([None] for -1). *)
Fixpoint rfind (c : N) (s : pystr) : option nat :=
  match s with
  | [] => None
  | x :: s' =>
      match rfind c s' with
      | Some k => Some (S k)
      | None => if (x =? c)%N then Some 0%nat else None
      end
  end.

Definition dot : N := 46.
Definition slash : N := 47.

(** [os.path.splitext] of [posixpath]: the extension starts at the last dot
    of the last path component, unless that component has only dots before
    it. *)
Definition splitext (p : pystr) : pystr * pystr :=
  let filename_index := match rfind slash p with Some k => S k | None => 0%nat end in
  match rfind dot p with
  | Some dot_index =>
      if bool_decide (filename_index ≤ dot_index)%nat
         && negb (forallb (N.eqb dot) (take (dot_index - filename_index) (drop filename_index p)))
      then (take dot_index p, drop dot_index p)
      else (p, [])
  | None => (p, [])
  end.

(** Code point order on strings, the order of [sorted] on [str]. *)
Fixpoint str_leb (a b : pystr) : bool :=
  match a, b with
  | [], _ => true
  | _ :: _, [] => false
  | x :: a', y :: b' =>
      if (x <? y)%N then true else if (x =? y)%N then str_leb a' b' else false
  end.

Definition str_le (a b : pystr) : Prop := str_leb a b = true.

#[global] Instance str_le_dec a b : Decision (str_le a b).
Proof. unfold str_le. apply _. Defined.

Definition sorted (l : list pystr) : list pystr := merge_sort str_le l.

(** ** Images *)

(** A decoded raster image: its size and its pixels.  [crop] is PIL's
    [Image.crop((left, upper, right, lower))]. *)
Record Image := mkImage {
  width : Z;
  height : Z;
  pixel : Z -> Z -> N
}.

(** A crop box [(left, upper, right, lower)]. *)
Definition box : Type := Z * Z * Z * Z.

Definition crop (img : Image) (b : box) : Image :=
  let '(x0, y0, x1, y1) := b in
  {| width := x1 - x0;
     height := y1 - y0;
     pixel := fun x y => pixel img (x + x0) (y + y0) |}.

(** ** Shared vocabulary of the two generators *)

Inductive side := Left | Right | Center.

#[global] Instance side_eq_dec : EqDecision side.
Proof. solve_decision. Defined.

(** A generated page document: the interpolated fields of the XHTML
    template. *)
Record PageDoc := mkPageDoc {
  doc_title : pystr;
  viewport_w : Z;
  viewport_h : Z;
  body_class : pystr;
  img_src : option pystr
}.

(** An entry of the [Images] directory: a sub-directory, or a file that PIL
    decodes to an image or fails to decode. *)
Inductive entry :=
| Subdir
| File (content : option Image).

Definition isfile (d : gmap pystr entry) (name : pystr) : bool :=
  match d !! name with Some (File _) => true | _ => false end.

Definition listdir {A} (d : gmap pystr A) : list pystr := (map_to_list d).*1.

(** The messages printed by the functions below. *)
Inductive log_msg :=
| SkippingNonRaster (filename : pystr)
| WarnCannotReadSize (filename : pystr)
| UsingFallbackSize (w h : Z)
| CreatedSplitPage (part_side : side) (xhtml : pystr) (w h : Z)
| ErrorSplitting (filename : pystr)
| RemovedOriginal (filename : pystr)
| WarnCouldNotRemove (filename : pystr)
| CreatedPage (xhtml : pystr) (w h : Z)
| WarnXhtmlNotFound (img_name xhtml : pystr)
| InsertedBlank (root_name : pystr) (last_s : option side) (next_s : side).

(** ** The archive writer: [create_epub_from_temp] *)

(** A path is the list of its components; the paths below are absolute and
    normalized, so [os.path.abspath] leaves them as they are and
    [os.path.join(root, name)] adds one component. *)
Abbreviation path := (list pystr).

(** The working tree: a regular file, or a directory with its entries in the
    order in which the operating system lists them. *)
#[warnings="-register-all"]
Inductive node :=
| RegFile
| Directory (children : list (pystr * node)).

Definition is_dir (n : node) : bool :=
  match n with Directory _ => true | RegFile => false end.

Definition dir_names (children : list (pystr * node)) : list pystr :=
  (List.filter (fun c => is_dir c.2) children).*1.

Definition file_names (children : list (pystr * node)) : list pystr :=
  (List.filter (fun c => negb (is_dir c.2)) children).*1.

(** [os.walk(top)], top-down: one triple [(root, dirs, files)] for [top],
    then the triples of each sub-directory.  A regular file yields nothing, so
    the recursion may visit every child. *)
Fixpoint walk (root : path) (n : node) : list (path * list pystr * list pystr) :=
  match n with
  | RegFile => []
  | Directory children =>
      (root, dir_names children, file_names children)
      :: flat_map (fun c => walk (root ++ [c.1]) c.2) children
  end.

(** [os.path.relpath(p, start)]: drop the common prefix and climb out of
    what is left of [start]. *)
Fixpoint common_prefix_length (a b : path) : nat :=
  match a, b with
  | x :: a', y :: b' => if bool_decide (x = y) then S (common_prefix_length a' b') else 0%nat
  | _, _ => 0%nat
  end.

Definition relpath (p start : path) : path :=
  let i := common_prefix_length start p in
  replicate (length start - i) (py "..") ++ drop i p.

Inductive compression := ZIP_STORED | ZIP_DEFLATED.

(** One [zf.write(filename, arcname=.., compress_type=..)]. *)
Record zip_entry := mkEntry {
  source : path;
  arcname : path;
  compress_type : compression
}.

(** The inner loop [for filename in files] for one triple of the walk. *)
Definition add_files (temp_dir mimetype_path : path) (zf : list zip_entry)
    (item : path * list pystr * list pystr) : list zip_entry :=
  let '(root, _, files) := item in
  fold_left
    (fun zf filename =>
       let full_path := root ++ [filename] in
       if bool_decide (full_path = mimetype_path) then zf
       else zf ++ [ {| source := full_path;
                       arcname := relpath full_path temp_dir;
                       compress_type := ZIP_DEFLATED |} ])
    files zf.

(** [os.path.isfile] for an entry of a directory. *)
Definition has_file (children : list (pystr * node)) (name : pystr) : bool :=
  match list_find (fun c => c.1 = name) children with
  | Some (_, (_, RegFile)) => true
  | _ => false
  end.

(** [create_epub_from_temp]: [temp] is what is found at [base_path/temp];
    the result is [None] when [FileNotFoundError] is raised, and else the
    entries of the archive in the order in which they were written.  The
    name of the archive and the removal of the working tree afterwards are
    left out. *)
Definition create_epub_from_temp (base_path : path) (temp : option node)
    : option (list zip_entry) :=
  let temp_dir := base_path ++ [py "temp"] in
  match temp with
  | Some (Directory children) =>
      let mimetype_path := temp_dir ++ [py "mimetype"] in
      if negb (has_file children (py "mimetype")) then None
      else
        let zf := [ {| source := mimetype_path;
                       arcname := [py "mimetype"];
                       compress_type := ZIP_STORED |} ] in
        Some (fold_left (add_files temp_dir mimetype_path)
                (walk temp_dir (Directory children)) zf)
  | _ => None
  end.

(** The regular files of a tree, by their paths relative to its root. *)
Inductive file_at : node -> path -> Prop :=
| file_here : file_at RegFile []
| file_below children name child p :
    (name, child) ∈ children -> file_at child p ->
    file_at (Directory children) (name :: p).

Section Unicode.

(** The Unicode character tables are data of the Python runtime: outside the
    ASCII range, [str.isalnum] and [str.lower] are taken as given. *)
Variable unicode_isalnum : N -> bool.
Variable unicode_lower : pystr -> pystr.

Definition isalnum (c : N) : bool :=
  if is_ascii c then ascii_isalnum c else unicode_isalnum c.

Definition lower (s : pystr) : pystr :=
  if forallb is_ascii s then map ascii_lower s else unicode_lower s.

Definition underscore : N := 95.
Definition hyphen : N := 45.

(** [sanitize_name]: both generators define the same local helper. *)
Definition sanitize_char (c : N) : N :=
  if isalnum c || (c =? underscore)%N || (c =? hyphen)%N then c else underscore.

Definition sanitize_name (name : pystr) : pystr := map sanitize_char name.

(** ** The double-page splitter: [generate_xhtml_pages] *)

(** The environment decides which file operations fail, by the name of the
    file: [save_ok] for [cropped.save(part_img_path)] (crop and save of one
    half), [write_ok] for writing one page document, [remove_ok] for
    [os.remove].  An operation that fails leaves the directory as it was. *)
Record Faults := mkFaults {
  save_ok : pystr -> bool;
  write_ok : pystr -> bool;
  remove_ok : pystr -> bool
}.

(** The part of the file system the generators work on: [temp/OEBPS/Images],
    [temp/OEBPS/Text], and what has been printed so far. *)
Record fs_state := mkFs {
  images_dir : gmap pystr entry;
  text_dir : gmap pystr PageDoc;
  log : list log_msg
}.

Definition print (m : log_msg) (st : fs_state) : fs_state :=
  {| images_dir := images_dir st; text_dir := text_dir st; log := log st ++ [m] |}.

Definition save_image (name : pystr) (img : Image) (st : fs_state) : fs_state :=
  {| images_dir := <[name := File (Some img)]> (images_dir st);
     text_dir := text_dir st; log := log st |}.

Definition write_page (name : pystr) (doc : PageDoc) (st : fs_state) : fs_state :=
  {| images_dir := images_dir st;
     text_dir := <[name := doc]> (text_dir st); log := log st |}.

Definition remove_image (name : pystr) (st : fs_state) : fs_state :=
  {| images_dir := delete name (images_dir st);
     text_dir := text_dir st; log := log st |}.

(** [Image.open(src_path)]: the decoded image, or [None] when PIL raises. *)
Definition open_image (st : fs_state) (filename : pystr) : option Image :=
  match images_dir st !! filename with
  | Some (File (Some img)) => Some img
  | _ => None
  end.

(** An [int] as an operand of the division: the integer itself, whatever
    its size. *)
Definition spec_of_int (z : Z) : spec_float :=
  match z with
  | Z0 => S754_zero false
  | Zpos p => S754_finite false p 0
  | Zneg p => S754_finite true p 0
  end.

(** [a / b] on two [int]s: the quotient of the integers themselves, rounded
    once to the nearest binary64, ties to even.  [None] is the exception
    that Python raises: [ZeroDivisionError] for [b = 0], and
    [OverflowError] when the rounded quotient is beyond the largest
    float. *)
Definition int_true_divide (a b : Z) : option float :=
  if b =? 0 then None
  else
    match SFdiv prec emax (spec_of_int a) (spec_of_int b) with
    | S754_infinity _ => None
    | q => Some (SF2Prim q)
    end.

(** [ratio = img_width / img_height if img_height > 0 else 0.0] *)
Definition ratio (img_width img_height : Z) : option float :=
  if img_height >? 0 then int_true_divide img_width img_height else Some 0%float.

Definition xhtml_image_extensions : list pystr :=
  [py ".jpg"; py ".jpeg"; py ".png"; py ".gif"; py ".bmp"; py ".webp"].

(** [reading_direction.lower()], with anything but "rtl" and "ltr" read as
    "rtl". *)
Definition normalize_direction (reading_direction : pystr) : pystr :=
  let rd := lower reading_direction in
  if bool_decide (rd = py "rtl") || bool_decide (rd = py "ltr") then rd else py "rtl".

Definition page_xhtml_filename (safe_name : pystr) : pystr :=
  py "page_" ++ safe_name ++ py "_F.xhtml".

Definition page_title (safe_name : pystr) : pystr :=
  py "page_" ++ safe_name ++ py "_F".

Section Splitter.

Variable faults : Faults.
Variables fallback_width fallback_height : Z.
Variable double_page_ratio : float.
(** The reading direction after [normalize_direction]. *)
Variable reading_direction : pystr.

Definition box_left (half_width img_height : Z) : box := (0, 0, half_width, img_height).
Definition box_right (half_width img_width img_height : Z) : box :=
  (half_width, 0, img_width, img_height).

(** The list [parts]: suffix letter, side and crop box of each half. *)
Definition split_parts (img_width img_height : Z) : list (pystr * side * box) :=
  let half_width := img_width / 2 in
  if bool_decide (reading_direction = py "ltr")
  then [(py "a", Left, box_left half_width img_height);
        (py "b", Right, box_right half_width img_width img_height)]
  else [(py "a", Right, box_right half_width img_width img_height);
        (py "b", Left, box_left half_width img_height)].

Definition part_base (safe_base suffix_letter : pystr) : pystr :=
  safe_base ++ py "_" ++ suffix_letter.

(** The names [part_img_name] and [xhtml_filename] of one half. *)
Definition half_image_name (safe_base suffix_letter ext : pystr) : pystr :=
  part_base safe_base suffix_letter ++ ext.

Definition half_xhtml_name (safe_base suffix_letter : pystr) : pystr :=
  page_xhtml_filename (part_base safe_base suffix_letter).

Definition half_page_doc (part_base part_img_name : pystr) (half_width img_height : Z) : PageDoc :=
  {| doc_title := page_title part_base;
     viewport_w := half_width;
     viewport_h := img_height;
     body_class := py "single-page";
     img_src := Some (py "../Images/" ++ part_img_name) |}.

(** The body of [for suffix_letter, side, box in parts].  The result is
    [(true, st)] when every half was written, and [(false, st)] when an
    operation raised, with [st] the file system at that moment. *)
Fixpoint write_parts (img : Image) (safe_base ext : pystr) (half_width img_height : Z)
    (parts : list (pystr * side * box)) (st : fs_state) : bool * fs_state :=
  match parts with
  | [] => (true, st)
  | (suffix_letter, part_side, b) :: parts' =>
      let pb := part_base safe_base suffix_letter in
      let part_img_name := pb ++ ext in
      if save_ok faults part_img_name then
        let st1 := save_image part_img_name (crop img b) st in
        let xhtml_filename := page_xhtml_filename pb in
        if write_ok faults xhtml_filename then
          let st2 := write_page xhtml_filename
                       (half_page_doc pb part_img_name half_width img_height) st1 in
          let st3 := print (CreatedSplitPage part_side xhtml_filename half_width img_height) st2 in
          write_parts img safe_base ext half_width img_height parts' st3
        else (false, st1)
      else (false, st)
  end.

(** The [try] block of the double page case. *)
Definition try_split (filename safe_base ext : pystr) (img_width img_height : Z)
    (st : fs_state) : bool * fs_state :=
  match open_image st filename with
  | Some img =>
      write_parts img safe_base ext (img_width / 2) img_height
        (split_parts img_width img_height) st
  | None => (false, st)
  end.

Definition single_page_doc (safe_name filename : pystr) (img_width img_height : Z) : PageDoc :=
  {| doc_title := page_title safe_name;
     viewport_w := img_width;
     viewport_h := img_height;
     body_class := py "single-page";
     img_src := Some (py "../Images/" ++ filename) |}.

(** The single page case; [None] when writing the page document raises,
    which nothing catches. *)
Definition single_page (filename safe_base : pystr) (img_width img_height : Z)
    (st : fs_state) : option fs_state :=
  let xhtml_filename := page_xhtml_filename safe_base in
  if write_ok faults xhtml_filename then
    Some (print (CreatedPage xhtml_filename img_width img_height)
            (write_page xhtml_filename
               (single_page_doc safe_base filename img_width img_height) st))
  else None.

(** Reading the image size, with the fallback. *)
Definition probe_size (filename : pystr) (st : fs_state) : Z * Z * fs_state :=
  match open_image st filename with
  | Some img => (width img, height img, st)
  | None =>
      (fallback_width, fallback_height,
       print (UsingFallbackSize fallback_width fallback_height)
         (print (WarnCannotReadSize filename) st))
  end.

(** [is_double = ratio >= double_page_ratio], for a size whose ratio is
    a float. *)
Definition is_double_page (img_width img_height : Z) : bool :=
  match ratio img_width img_height with
  | Some r => PrimFloat.leb double_page_ratio r
  | None => false
  end.

(** One iteration of [for filename in filenames].  The division of the
    ratio is outside every [try]: when it raises, so does the function. *)
Definition process_image (filename : pystr) (st : fs_state) : option fs_state :=
  if negb (isfile (images_dir st) filename) then Some st
  else
    let '(name, ext) := splitext filename in
    if negb (bool_decide (lower ext ∈ xhtml_image_extensions))
    then Some (print (SkippingNonRaster filename) st)
    else
      let '(img_width, img_height, st) := probe_size filename st in
      match ratio img_width img_height with
      | None => None
      | Some r =>
          let is_double := PrimFloat.leb double_page_ratio r in
          let safe_base := sanitize_name name in
          if is_double && (img_width >? 1) then
            match try_split filename safe_base ext img_width img_height st with
            | (true, st) =>
                if remove_ok faults filename
                then Some (print (RemovedOriginal filename) (remove_image filename st))
                else Some (print (WarnCouldNotRemove filename) st)
            | (false, st) =>
                single_page filename safe_base img_width img_height
                  (print (ErrorSplitting filename) st)
            end
          else single_page filename safe_base img_width img_height st
      end.

Fixpoint process_images (filenames : list pystr) (st : fs_state) : option fs_state :=
  match filenames with
  | [] => Some st
  | filename :: filenames' =>
      match process_image filename st with
      | Some st' => process_images filenames' st'
      | None => None
      end
  end.

End Splitter.

(** [generate_xhtml_pages]: the list of files is frozen before the loop. *)
Definition generate_xhtml_pages (faults : Faults) (fallback_width fallback_height : Z)
    (double_page_ratio : float) (reading_direction : pystr) (st : fs_state)
    : option fs_state :=
  let filenames := sorted (listdir (images_dir st)) in
  let reading_direction := normalize_direction reading_direction in
  process_images faults fallback_width fallback_height double_page_ratio
    reading_direction filenames st.

(** ** The spine and manifest builder: [generate_content_opf] *)

(** A manifest line [<item id=.. href=.. media-type=.. (properties=..)/>]
    and a spine line [<itemref idref=.. linear="yes"
    properties="page-spread-<side>"/>], by their interpolated fields. *)
Record manifest_item := mkItem {
  item_id : pystr;
  item_href : pystr;
  item_media_type : pystr;
  item_properties : option pystr
}.

Record itemref := mkItemref {
  idref : pystr;
  page_spread : side
}.

(** The variables of [generate_content_opf] that the loop and its local
    functions update, with the [Text] directory and the printed messages. *)
Record opf_state := mkOpf {
  manifest_items : list manifest_item;
  spine_items : list itemref;
  cover_image_id : option pystr;
  blank_counter : Z;
  last_side : option side;
  next_side : side;
  opf_text_dir : gmap pystr PageDoc;
  opf_log : list log_msg
}.

Definition opf_image_extensions : list pystr :=
  [py ".jpg"; py ".jpeg"; py ".png"; py ".gif"; py ".bmp"; py ".webp"; py ".svg"].

(** The list [image_files]: the image files of [Images], sorted by name. *)
Definition list_image_files (images : gmap pystr entry) : list pystr :=
  List.filter
    (fun filename =>
       isfile images filename
       && bool_decide (lower (splitext filename).2 ∈ opf_image_extensions))
    (sorted (listdir images)).

Definition image_media_type (ext_lower : pystr) : pystr :=
  if bool_decide (ext_lower = py ".jpg") || bool_decide (ext_lower = py ".jpeg")
  then py "image/jpeg"
  else if bool_decide (ext_lower = py ".png") then py "image/png"
  else if bool_decide (ext_lower = py ".gif") then py "image/gif"
  else if bool_decide (ext_lower = py ".svg") then py "image/svg+xml"
  else py "image/jpeg".

Definition xhtml_media_type : pystr := py "application/xhtml+xml".

Definition manifest_append (it : manifest_item) (st : opf_state) : opf_state :=
  {| manifest_items := manifest_items st ++ [it];
     spine_items := spine_items st;
     cover_image_id := cover_image_id st;
     blank_counter := blank_counter st;
     last_side := last_side st;
     next_side := next_side st;
     opf_text_dir := opf_text_dir st;
     opf_log := opf_log st |}.

Definition spine_append (ir : itemref) (st : opf_state) : opf_state :=
  {| manifest_items := manifest_items st;
     spine_items := spine_items st ++ [ir];
     cover_image_id := cover_image_id st;
     blank_counter := blank_counter st;
     last_side := last_side st;
     next_side := next_side st;
     opf_text_dir := opf_text_dir st;
     opf_log := opf_log st |}.

Definition opf_print (m : log_msg) (st : opf_state) : opf_state :=
  {| manifest_items := manifest_items st;
     spine_items := spine_items st;
     cover_image_id := cover_image_id st;
     blank_counter := blank_counter st;
     last_side := last_side st;
     next_side := next_side st;
     opf_text_dir := opf_text_dir st;
     opf_log := opf_log st ++ [m] |}.

(** [add_spine_page(page_id, side)] *)
Definition add_spine_page (page_id : pystr) (s : side) (st : opf_state) : opf_state :=
  let st := spine_append {| idref := page_id; page_spread := s |} st in
  {| manifest_items := manifest_items st;
     spine_items := spine_items st;
     cover_image_id := cover_image_id st;
     blank_counter := blank_counter st;
     last_side := Some s;
     next_side := if bool_decide (s = Right) then Left else Right;
     opf_text_dir := opf_text_dir st;
     opf_log := opf_log st |}.

Definition page_id_of (safe_name : pystr) : pystr :=
  py "page_Images_" ++ safe_name ++ py "_F".

Definition image_id_of (safe_name : pystr) : pystr :=
  py "img_Images_" ++ safe_name.

Definition page_item (safe_name xhtml_filename : pystr) : manifest_item :=
  {| item_id := page_id_of safe_name;
     item_href := py "Text/" ++ xhtml_filename;
     item_media_type := xhtml_media_type;
     item_properties := None |}.

Definition image_item (safe_name img_name media_type : pystr) : manifest_item :=
  {| item_id := image_id_of safe_name;
     item_href := py "Images/" ++ img_name;
     item_media_type := media_type;
     item_properties := None |}.

(** The three fixed items: navigation document, table of contents and
    stylesheet. *)
Definition fixed_items : list manifest_item :=
  [ {| item_id := py "nav"; item_href := py "nav.xhtml";
       item_media_type := xhtml_media_type; item_properties := Some (py "nav") |};
    {| item_id := py "ncx"; item_href := py "toc.ncx";
       item_media_type := py "application/x-dtbncx+xml"; item_properties := None |};
    {| item_id := py "css"; item_href := py "Text/style.css";
       item_media_type := py "text/css"; item_properties := None |} ].

Definition initial_state (text : gmap pystr PageDoc) (printed : list log_msg) : opf_state :=
  {| manifest_items := fixed_items;
     spine_items := [];
     cover_image_id := None;
     blank_counter := 0;
     last_side := None;
     next_side := Right;
     opf_text_dir := text;
     opf_log := printed |}.

Section SpineBuilder.

Variable has_cover : bool.
(** The reading direction [rd], after [normalize_direction]. *)
Variable rd : pystr.
(** The parsed [original_resolution], the viewport of blank pages. *)
Variables blank_w blank_h : Z.
Variable image_files : list pystr.

Definition blank_page_doc : PageDoc :=
  {| doc_title := py "blank";
     viewport_w := blank_w;
     viewport_h := blank_h;
     body_class := py "blank-page";
     img_src := None |}.

(** [add_blank_page(side)] *)
Definition add_blank_page (s : side) (st : opf_state) : opf_state :=
  let n := blank_counter st + 1 in
  let blank_id := py "page_blank_" ++ str_of_int n in
  let blank_xhtml_filename := py "page_blank_" ++ str_of_int n ++ py ".xhtml" in
  let st :=
    {| manifest_items := manifest_items st;
       spine_items := spine_items st;
       cover_image_id := cover_image_id st;
       blank_counter := n;
       last_side := last_side st;
       next_side := next_side st;
       opf_text_dir := <[blank_xhtml_filename := blank_page_doc]> (opf_text_dir st);
       opf_log := opf_log st |} in
  let st :=
    manifest_append
      {| item_id := blank_id; item_href := py "Text/" ++ blank_xhtml_filename;
         item_media_type := xhtml_media_type; item_properties := None |} st in
  add_spine_page blank_id s st.

(** [os.path.exists(xhtml_path)] for a file of [Text]. *)
Definition page_exists (st : opf_state) (xhtml_filename : pystr) : bool :=
  bool_decide (is_Some (opf_text_dir st !! xhtml_filename)).

(** [root_name] and [part_letter] of a sanitized name. *)
Definition split_part (safe_name : pystr) : pystr * option pystr :=
  if endswith safe_name (py "_a") || endswith safe_name (py "_b")
  then (drop_last2 safe_name, Some (last_char safe_name))
  else (safe_name, None).

(** [is_double_group_start]: the image at [i] is an [_a] half and the next
    file is its [_b] half. *)
Definition is_double_group_start (i : nat) (safe_name ext_lower : pystr) : bool :=
  let '(root_name, part_letter) := split_part safe_name in
  if bool_decide (part_letter = Some (py "a")) then
    match image_files !! (i + 1)%nat with
    | Some img_name_next =>
        let '(base_next, ext_next) := splitext img_name_next in
        let safe_name_next := sanitize_name base_next in
        bool_decide (safe_name_next = root_name ++ py "_b")
        && bool_decide (lower ext_next = ext_lower)
    | None => false
    end
  else false.

Definition desired_side_a : side :=
  if bool_decide (rd = py "rtl") then Right else Left.

(** The cover case: the page is centered and the sides are left alone. *)
Definition cover_case (img_name safe_name ext_lower xhtml_filename : pystr)
    (st : opf_state) : opf_state :=
  let st := manifest_append (page_item safe_name xhtml_filename) st in
  let st :=
    {| manifest_items := manifest_items st;
       spine_items := spine_items st;
       cover_image_id := Some (py "cover");
       blank_counter := blank_counter st;
       last_side := last_side st;
       next_side := next_side st;
       opf_text_dir := opf_text_dir st;
       opf_log := opf_log st |} in
  let st :=
    manifest_append
      {| item_id := py "cover"; item_href := py "Images/" ++ img_name;
         item_media_type := image_media_type ext_lower;
         item_properties := Some (py "cover-image") |} st in
  spine_append {| idref := page_id_of safe_name; page_spread := Center |} st.

(** The blank page before a double spread, when the next side is wrong. *)
Definition blank_before_spread (safe_name : pystr) (st : opf_state) : opf_state :=
  if bool_decide (last_side st ≠ None) && bool_decide (next_side st ≠ desired_side_a)
  then
    let st := add_blank_page (next_side st) st in
    opf_print (InsertedBlank (split_part safe_name).1 (last_side st) (next_side st)) st
  else st.

Definition half_a (img_name safe_name media_type xhtml_filename : pystr)
    (st : opf_state) : opf_state :=
  let st := manifest_append (page_item safe_name xhtml_filename) st in
  let st := manifest_append (image_item safe_name img_name media_type) st in
  add_spine_page (page_id_of safe_name) (next_side st) st.

Definition half_b (i : nat) (st : opf_state) : opf_state :=
  let img_name_b := default [] (image_files !! (i + 1)%nat) in
  let '(base_b, ext_b) := splitext img_name_b in
  let safe_name_b := sanitize_name base_b in
  let xhtml_filename_b := page_xhtml_filename safe_name_b in
  if negb (page_exists st xhtml_filename_b) then
    opf_print (WarnXhtmlNotFound img_name_b xhtml_filename_b) st
  else
    let st := manifest_append (page_item safe_name_b xhtml_filename_b) st in
    let st :=
      manifest_append (image_item safe_name_b img_name_b (image_media_type (lower ext_b))) st in
    add_spine_page (page_id_of safe_name_b) (next_side st) st.

Definition double_spread (i : nat) (img_name safe_name media_type xhtml_filename : pystr)
    (st : opf_state) : opf_state :=
  half_b i (half_a img_name safe_name media_type xhtml_filename
              (blank_before_spread safe_name st)).

Definition simple_page (img_name safe_name media_type xhtml_filename : pystr)
    (st : opf_state) : opf_state :=
  let st := manifest_append (page_item safe_name xhtml_filename) st in
  let st := manifest_append (image_item safe_name img_name media_type) st in
  add_spine_page (page_id_of safe_name) (next_side st) st.

(** The body of [while i < len(image_files)] at [img_name =
    image_files[i]]: the next index and the next state. *)
Definition step (i : nat) (img_name : pystr) (st : opf_state) : nat * opf_state :=
  let '(base, ext) := splitext img_name in
  let safe_name := sanitize_name base in
  let ext_lower := lower ext in
  let xhtml_filename := page_xhtml_filename safe_name in
  if negb (page_exists st xhtml_filename) then
    ((i + 1)%nat, opf_print (WarnXhtmlNotFound img_name xhtml_filename) st)
  else
    let is_first := bool_decide (i = 0%nat) in
    let is_cover := has_cover && is_first in
    if is_cover then
      ((i + 1)%nat, cover_case img_name safe_name ext_lower xhtml_filename st)
    else
      let media_type := image_media_type ext_lower in
      if is_double_group_start i safe_name ext_lower then
        ((i + 2)%nat, double_spread i img_name safe_name media_type xhtml_filename st)
      else
        ((i + 1)%nat, simple_page img_name safe_name media_type xhtml_filename st).

(** The loop.  It ends when [i] is no index of [image_files]; [None] means
    that the fuel ran out before that. *)
Fixpoint traverse (fuel : nat) (i : nat) (st : opf_state) : option opf_state :=
  match image_files !! i with
  | None => Some st
  | Some img_name =>
      match fuel with
      | O => None
      | S fuel' =>
          let '(i', st') := step i img_name st in
          traverse fuel' i' st'
      end
  end.

(** The line [<meta name="cover" content="cover"/>] of the metadata. *)
Definition cover_meta_line (st : opf_state) : option pystr :=
  match cover_image_id st with
  | Some id =>
      if has_cover
      then Some (py "    <meta name=" ++ [34%N] ++ py "cover" ++ [34%N] ++ py " content="
                   ++ [34%N] ++ id ++ [34%N] ++ py "/>")
      else None
  | None => None
  end.

End SpineBuilder.

(** What [generate_content_opf] writes: the final state of the loop and the
    optional cover line. *)
Record opf_result := mkResult {
  final : opf_state;
  cover_meta : option pystr;
  page_progression_direction : pystr
}.

(** [generate_content_opf], from the directories [Images] and [Text].  Each
    iteration moves forward by one or two files, so as many iterations as
    there are files are enough. *)
Definition generate_content_opf (has_cover : bool) (reading_direction : pystr)
    (blank_w blank_h : Z) (st : fs_state) : option opf_result :=
  let rd := normalize_direction reading_direction in
  let image_files := list_image_files (images_dir st) in
  match traverse has_cover rd blank_w blank_h image_files (length image_files) 0
          (initial_state (text_dir st) (log st)) with
  | Some s =>
      Some {| final := s; cover_meta := cover_meta_line has_cover s;
              page_progression_direction := rd |}
  | None => None
  end.

(** [s.startswith(prefix)] *)
Definition startswith (s prefix : pystr) : bool :=
  bool_decide (take (length prefix) s = prefix).


(** ** Parsing the resolution: [parse_resolution] *)

(** [str.isspace] and [int] beyond ASCII are data of the Python runtime, as
    is the limit on the number of digits that [int] accepts ([0] for no
    limit). *)
Section PythonRuntime.

Variable unicode_isspace : N -> bool.
Variable unicode_int : pystr -> option Z.
Variable int_max_str_digits : nat.

Definition ascii_isspace (c : N) : bool :=
  ((9 <=? c) && (c <=? 13) || (28 <=? c) && (c <=? 31) || (c =? 32))%N.

Definition isspace (c : N) : bool :=
  if is_ascii c then ascii_isspace c else unicode_isspace c.

(** [s.strip()] *)
Fixpoint lstrip (s : pystr) : pystr :=
  match s with
  | [] => []
  | c :: s' => if isspace c then lstrip s' else s
  end.

Definition rstrip (s : pystr) : pystr := rev (lstrip (rev s)).

Definition strip (s : pystr) : pystr := rstrip (lstrip s).

(** [s.split(sep)] for a separator of one character. *)
Fixpoint split_on (sep : N) (s : pystr) : list pystr :=
  match s with
  | [] => [[]]
  | c :: s' =>
      if (c =? sep)%N then [] :: split_on sep s'
      else match split_on sep s' with
           | part :: parts => (c :: part) :: parts
           | [] => [[c]]
           end
  end.

Definition digit (c : N) : option (Decimal.uint -> Decimal.uint) :=
  match c with
  | 48%N => Some Decimal.D0 | 49%N => Some Decimal.D1 | 50%N => Some Decimal.D2
  | 51%N => Some Decimal.D3 | 52%N => Some Decimal.D4 | 53%N => Some Decimal.D5
  | 54%N => Some Decimal.D6 | 55%N => Some Decimal.D7 | 56%N => Some Decimal.D8
  | 57%N => Some Decimal.D9
  | _ => None
  end.

(** The digits of a decimal literal: digits, with single underscores
    allowed between two of them. *)
Fixpoint uint_of_digits (s : pystr) : option Decimal.uint :=
  match s with
  | [] => None
  | c :: s' =>
      match digit c with
      | None => None
      | Some d =>
          match s' with
          | [] => Some (d Decimal.Nil)
          | c' :: s'' =>
              if (c' =? underscore)%N then d <$> uint_of_digits s''
              else d <$> uint_of_digits s'
          end
      end
  end.

Definition count_digits (s : pystr) : nat :=
  length (List.filter (fun c => bool_decide (is_Some (digit c))) s).

(** [int(s)] in base 10: [None] for [ValueError]. *)
Definition py_int (s : pystr) : option Z :=
  if forallb is_ascii s then
    let s := strip s in
    if bool_decide (int_max_str_digits = 0%nat)
       || bool_decide (count_digits s <= int_max_str_digits)%nat
    then
      match s with
      | [] => None
      | c :: digits =>
          if (c =? hyphen)%N then (fun u => - Z.of_uint u) <$> uint_of_digits digits
          else if (c =? 43)%N then Z.of_uint <$> uint_of_digits digits
          else Z.of_uint <$> uint_of_digits (c :: digits)
      end
    else None
  else unicode_int s.

(** [parse_resolution], the local function of [generate_content_opf] and the
    function of the same name and body of the graphical front end. *)
Definition parse_resolution (res_str : pystr) (default : Z * Z) : Z * Z :=
  match split_on 120 (lower res_str) with
  | [part0; part1] =>
      match py_int (strip part0) with
      | Some w =>
          match py_int (strip part1) with
          | Some h => (w, h)
          | None => default
          end
      | None => default
      end
  | _ => default
  end.

Definition default_resolution : Z * Z := (1072, 1448).

(** [generate_content_opf] with its parameter [original_resolution]. *)
Definition generate_content_opf_at (has_cover : bool) (reading_direction : pystr)
    (original_resolution : pystr) (st : fs_state) : option opf_result :=
  let '(blank_w, blank_h) := parse_resolution original_resolution default_resolution in
  generate_content_opf has_cover reading_direction blank_w blank_h st.

(** ** The name of the archive: [sanitize_filename] *)

Definition sanitize_filename_char (c : N) : N :=
  if isalnum c || (c =? 32)%N || (c =? hyphen)%N || (c =? underscore)%N then c
  else underscore.

Definition sanitize_filename (name : pystr) : pystr :=
  match strip (map sanitize_filename_char name) with
  | [] => py "book"
  | s => s
  end.

(** [os.path.join(a, b)] of [posixpath], on strings. *)
Definition posix_join (a b : pystr) : pystr :=
  if startswith b (py "/") then b
  else if bool_decide (a = []) || endswith a (py "/") then a ++ b
  else a ++ py "/" ++ b.

(** The path of the archive that [create_epub_from_temp] writes. *)
Definition epub_path (base_path title : pystr) : pystr :=
  posix_join base_path (sanitize_filename title ++ py ".epub").

End PythonRuntime.


(** ** The tables of contents: [generate_toc_ncx] and [generate_nav_xhtml] *)

(** [html.escape(s)], with [quote=True]. *)
Definition escape_char (c : N) : pystr :=
  match c with
  | 38%N => py "&amp;"
  | 60%N => py "&lt;"
  | 62%N => py "&gt;"
  | 34%N => py "&quot;"
  | 39%N => py "&#x27;"
  | _ => [c]
  end.

Definition escape (s : pystr) : pystr := flat_map escape_char s.

(** The list [xhtml_files] of both functions: the page documents of
    [Text], sorted by name. *)
Definition list_xhtml_files (text : gmap pystr PageDoc) : list pystr :=
  List.filter (fun f => endswith (lower f) (py ".xhtml")) (sorted (listdir text)).

(** A [<navPoint id=.. playOrder=..>] with its label and its
    [<content src=..>], by the interpolated fields. *)
Record nav_point := mkNavPoint {
  nav_id : pystr;
  play_order : pystr;
  nav_label : pystr;
  content_src : pystr
}.

Record toc_ncx := mkToc {
  dtb_uid : pystr;
  ncx_title : pystr;
  nav_map : list nav_point
}.

(** The body of [for i, xhtml in enumerate(xhtml_files, start=1)]. *)
Definition nav_point_of (i : Z) (xhtml : pystr) : nav_point :=
  {| nav_id := py "navPoint-" ++ str_of_int i;
     play_order := str_of_int i;
     nav_label := escape (py "Page " ++ str_of_int i);
     content_src := py "Text/" ++ xhtml |}.

Fixpoint enumerate {A} (start : Z) (l : list A) : list (Z * A) :=
  match l with
  | [] => []
  | x :: l' => (start, x) :: enumerate (start + 1) l'
  end.

(** [generate_toc_ncx]: the document written to [toc.ncx] and the returned
    [book_id]; [fresh_uuid] is what [uuid.uuid4()] gives when [book_id] is
    [None]. *)
Definition generate_toc_ncx (fresh_uuid : pystr) (book_id : option pystr) (title : pystr)
    (text : gmap pystr PageDoc) : toc_ncx * pystr :=
  let book_id := match book_id with
                 | Some b => b
                 | None => py "urn:uuid:" ++ fresh_uuid
                 end in
  let xhtml_files := list_xhtml_files text in
  ({| dtb_uid := escape book_id;
      ncx_title := escape title;
      nav_map := map (fun '(i, xhtml) => nav_point_of i xhtml) (enumerate 1 xhtml_files) |},
   book_id).

(** The interpolated fields of [nav.xhtml]: the title and the link of the
    [toc] list and of the [page-list] list. *)
Record nav_xhtml := mkNav {
  nav_title : pystr;
  toc_href : pystr;
  toc_text : pystr;
  page_list_href : pystr;
  page_list_text : pystr
}.

(** [generate_nav_xhtml]: [None] when the function returns without writing
    the file. *)
Definition generate_nav_xhtml (title : pystr) (text : gmap pystr PageDoc) : option nav_xhtml :=
  match list_xhtml_files text with
  | [] => None
  | first_page :: _ =>
      let first_href := py "Text/" ++ first_page in
      Some {| nav_title := escape title;
              toc_href := escape first_href;
              toc_text := escape title;
              page_list_href := escape first_href;
              page_list_text := escape title |}
  end.


(** ** Bringing the images in: [copy_images_to_temp_images] *)

Section CopyImages.

(** [shutil.copy2] succeeds or raises, by the name of the destination. *)
Variable copy_ok : pystr -> bool.
(** [os.listdir(source_folder)], in the order of the operating system, and
    the folder itself, which is not the folder [Images]. *)
Variable source_listing : list pystr.
Variable source_folder : gmap pystr entry.

Definition source_image_files : list pystr :=
  List.filter
    (fun filename =>
       isfile source_folder filename
       && bool_decide (lower (splitext filename).2 ∈ opf_image_extensions))
    source_listing.

Definition is_cover_file (filename : pystr) : bool :=
  bool_decide (lower (splitext filename).1 = py "cover").

Definition cover_files : list pystr := List.filter is_cover_file source_image_files.

Definition other_files : list pystr :=
  List.filter (fun filename => negb (is_cover_file filename)) source_image_files.

(** [shutil.copy2(src_path, dest_path)]: a regular file at the destination
    is replaced; a directory there receives the copy inside, which leaves
    the listing of [Images] as it is.  [None] when the copy raises. *)
Definition copy2 (filename dest_name : pystr) (dest : gmap pystr entry)
    : option (gmap pystr entry) :=
  match source_folder !! filename with
  | Some (File content) =>
      if copy_ok dest_name then
        Some (match dest !! dest_name with
              | Some Subdir => dest
              | _ => <[dest_name := File content]> dest
              end)
      else None
  | _ => None
  end.

(** [for filename in sorted(other_files)] *)
Fixpoint copy_others (filenames : list pystr) (dest : gmap pystr entry)
    : option (gmap pystr entry) :=
  match filenames with
  | [] => Some dest
  | filename :: filenames' =>
      match copy2 filename filename dest with
      | Some dest' => copy_others filenames' dest'
      | None => None
      end
  end.

Definition cover_base_name (idx : nat) : pystr :=
  if bool_decide (idx = 0%nat) then py "0" else py "0_" ++ str_of_int (Z.of_nat idx).

(** [while os.path.exists(dest_path)], with [fuel] iterations at most. *)
Fixpoint unique_name (fuel : nat) (base_name ext_lower : pystr) (dest : gmap pystr entry)
    (dest_name : pystr) (suffix : Z) : option pystr :=
  match fuel with
  | O => None
  | S fuel' =>
      if bool_decide (is_Some (dest !! dest_name))
      then unique_name fuel' base_name ext_lower dest
             (base_name ++ py "_" ++ str_of_int suffix ++ ext_lower) (suffix + 1)
      else Some dest_name
  end.

(** [for idx, filename in enumerate(cover_files)]; the search for a free
    name is given one iteration more than [Images] has entries. *)
Fixpoint copy_covers (idx : nat) (filenames : list pystr) (dest : gmap pystr entry)
    : option (gmap pystr entry) :=
  match filenames with
  | [] => Some dest
  | filename :: filenames' =>
      let ext_lower := lower (splitext filename).2 in
      let base_name := cover_base_name idx in
      match unique_name (S (size dest)) base_name ext_lower dest (base_name ++ ext_lower) 1 with
      | Some dest_name =>
          match copy2 filename dest_name dest with
          | Some dest' => copy_covers (S idx) filenames' dest'
          | None => None
          end
      | None => None
      end
  end.

(** [copy_images_to_temp_images]: the folder [Images] after the copy, or
    [None] when a copy raises.  What is printed is left out. *)
Definition copy_images_to_temp_images (dest_images : gmap pystr entry)
    : option (gmap pystr entry) :=
  match copy_others (sorted other_files) dest_images with
  | Some dest' => copy_covers 0 cover_files dest'
  | None => None
  end.

End CopyImages.


(** ** Vocabulary of the properties *)

(** Facing pages: one on the left and one on the right. *)
Definition facing (a b : side) : bool :=
  match a, b with
  | Left, Right | Right, Left => true
  | _, _ => false
  end.

(** Every two consecutive sides of the list face each other. *)
Fixpoint alternates (l : list side) : bool :=
  match l with
  | [] => true
  | a :: l' =>
      match l' with
      | [] => true
      | b :: _ => facing a b && alternates l'
      end
  end.

Definition starts_right (l : list side) : bool :=
  match l with
  | [] => true
  | s :: _ => bool_decide (s = Right)
  end.

Definition sides (spine : list itemref) : list side := page_spread <$> spine.

Definition non_center (l : list side) : list side :=
  List.filter (fun s => negb (bool_decide (s = Center))) l.

(** The spine line of the [n]-th blank page. *)
Definition blank_itemref (n : Z) (s : side) : itemref :=
  {| idref := py "page_blank_" ++ str_of_int n; page_spread := s |}.

(** The side bookkeeping agrees with the spine: the sides used so far,
    the cover apart, start on the right and alternate; [last_side] is the
    last of them, and [next_side] faces it. *)
Definition sides_consistent (st : opf_state) : Prop :=
  let l := non_center (sides (spine_items st)) in
  next_side st ≠ Center
  /\ last_side st = last l
  /\ alternates l = true
  /\ starts_right l = true
  /\ match last l with
     | Some s => facing s (next_side st) = true
     | None => next_side st = Right
     end.


(** No cover has been placed: no cover image is recorded and no entry of the
    spine is centered. *)
Definition cover_free (st : opf_state) : Prop :=
  cover_image_id st = None
  /\ Forall (fun s => s ≠ Center) (sides (spine_items st))
  /\ next_side st ≠ Center.


Section SpineVocabulary.

Variable has_cover : bool.
Variable rd : pystr.
Variables blank_w blank_h : Z.
Variable image_files : list pystr.

Abbreviation step' := (step has_cover rd blank_w blank_h image_files).

(** The states the loop goes through, from the state [st0] it starts in. *)
Inductive reachable (st0 : opf_state) : nat -> opf_state -> Prop :=
| reachable_start : reachable st0 0%nat st0
| reachable_step i img_name st :
    reachable st0 i st ->
    image_files !! i = Some img_name ->
    reachable st0 (step' i img_name st).1 (step' i img_name st).2.

(** The iteration at [i] takes the double spread branch: the page of the
    image exists, the image is not the cover, and it starts an a/b pair. *)
Definition double_spread_at (i : nat) (img_name : pystr) (st : opf_state) : bool :=
  let safe_name := sanitize_name (splitext img_name).1 in
  page_exists st (page_xhtml_filename safe_name)
  && negb (has_cover && bool_decide (i = 0%nat))
  && is_double_group_start image_files i safe_name (lower (splitext img_name).2).

(** The condition of the source for a blank page before a double spread. *)
Definition side_mismatch (st : opf_state) : bool :=
  bool_decide (last_side st ≠ None) && bool_decide (next_side st ≠ desired_side_a rd).

(** The condition as the specification words it: the next side is not the
    desired one, and the double spread is not the very first spine entry. *)
Definition side_mismatch_stated (st : opf_state) : bool :=
  bool_decide (spine_items st ≠ []) && bool_decide (next_side st ≠ desired_side_a rd).

(** "A blank page is inserted before a double spread if and only if
    [cond]": at every double spread the loop reaches, the counter of blank
    pages grows exactly when [cond] holds. *)
Definition blank_inserted_iff (cond : opf_state -> bool) (st0 : opf_state) : Prop :=
  forall i img_name st,
    reachable st0 i st ->
    image_files !! i = Some img_name ->
    double_spread_at i img_name st = true ->
    (blank_counter (step' i img_name st).2 = blank_counter st + 1 <-> cond st = true).

End SpineVocabulary.

(** The entries that [add_files] appends for one triple of the walk. *)
Definition entries_of_item (temp_dir mimetype_path : path)
    (item : path * list pystr * list pystr) : list zip_entry :=
  flat_map
    (fun filename =>
       if bool_decide (item.1.1 ++ [filename] = mimetype_path) then []
       else [ {| source := item.1.1 ++ [filename];
                 arcname := relpath (item.1.1 ++ [filename]) temp_dir;
                 compress_type := ZIP_DEFLATED |} ])
    item.2.




(** ** Vocabulary of the further properties *)

(** The id and the file of the [n]-th blank page. *)
Definition blank_id (n : Z) : pystr := py "page_blank_" ++ str_of_int n.

Definition blank_file (n : Z) : pystr := py "page_blank_" ++ str_of_int n ++ py ".xhtml".

Definition is_blank_ref (ir : itemref) : bool := startswith (idref ir) (py "page_blank_").

(** The entries of the spine for pages of images, and those for blank
    pages, by their ids. *)
Definition spine_pages (spine : list itemref) : list pystr :=
  idref <$> List.filter (fun ir => negb (is_blank_ref ir)) spine.

Definition spine_blanks (spine : list itemref) : list pystr :=
  idref <$> List.filter is_blank_ref spine.

(** The page document that the builder expects for an image exists. *)
Definition has_page (text : gmap pystr PageDoc) (img_name : pystr) : bool :=
  bool_decide (is_Some (text !! page_xhtml_filename (sanitize_name (splitext img_name).1))).

Definition page_id_of_image (img_name : pystr) : pystr :=
  page_id_of (sanitize_name (splitext img_name).1).

(** A spine entry refers to an item of the manifest that is a page document
    of [Text]. *)
Definition resolves (manifest : list manifest_item) (text : gmap pystr PageDoc)
    (ir : itemref) : Prop :=
  exists file,
    {| item_id := idref ir; item_href := py "Text/" ++ file;
       item_media_type := xhtml_media_type; item_properties := None |} ∈ manifest
    /\ is_Some (text !! file).


(** The pages of images that [Text] held at the start are the pages that
    the loop sees: a run adds files of blank pages only. *)
Definition text_agrees (text0 : gmap pystr PageDoc) (st : opf_state) : Prop :=
  forall x, page_exists st (page_xhtml_filename x)
            = bool_decide (is_Some (text0 !! page_xhtml_filename x)).

(** Every entry of the spine has its item in the manifest and its page
    document in [Text]. *)
Definition spine_resolves_in (st : opf_state) : Prop :=
  Forall (resolves (manifest_items st) (opf_text_dir st)) (spine_items st).


(** The blank pages made so far are numbered from 1 to [blank_counter], in
    the order of the spine, and each has its file in [Text]. *)
Definition blanks_numbered (blank_w blank_h : Z) (st : opf_state) : Prop :=
  0 <= blank_counter st
  /\ spine_blanks (spine_items st) = blank_id <$> seqZ 1 (blank_counter st)
  /\ forall n, 1 <= n <= blank_counter st ->
       opf_text_dir st !! blank_file n = Some (blank_page_doc blank_w blank_h).

(** The cover has been placed: its entry opens the spine and is the only
    centered one, and its image is recorded as cover image. *)
Definition cover_placed (cover_entry : itemref) (cover_item : manifest_item)
    (st : opf_state) : Prop :=
  (exists rest,
     spine_items st = cover_entry :: rest
     /\ Forall (fun ir => page_spread ir ≠ Center) rest)
  /\ cover_image_id st = Some (py "cover")
  /\ cover_item ∈ manifest_items st
  /\ next_side st ≠ Center.



(** A character of the decimal form of an [int]: a digit or the sign. *)
Definition int_char (c : N) : Prop := c = hyphen \/ (48 <= c <= 57)%N.

(** The decimal form of [n] is within the limit of [int]. *)
Definition fits_int (limit : nat) (n : Z) : Prop :=
  limit = 0%nat \/ (count_digits (str_of_int n) <= limit)%nat.

(** The number of separators [x] or [X] of a resolution. *)
Definition count_separators (s : pystr) : nat :=
  length (List.filter (fun c => (c =? 120)%N || (c =? 88)%N) s).


(** An extension as [os.path.splitext] returns it: a dot followed by
    characters that are neither dots nor path separators. *)
Definition is_extension (ext : pystr) : Prop :=
  exists rest, ext = dot :: rest /\ (dot ∉ rest) /\ (slash ∉ rest).


(** A raster image file, as the splitter tells it: a file of [Images] whose
    extension is one of the six. *)
Definition raster_file (images : gmap pystr entry) (filename : pystr) : Prop :=
  isfile images filename = true /\ lower (splitext filename).2 ∈ xhtml_image_extensions.

(** Every raster image file has its page document or is still to be
    visited. *)
Definition paged_or_pending (pending : list pystr) (st : fs_state) : Prop :=
  forall filename,
    raster_file (images_dir st) filename ->
    filename ∈ pending \/ has_page (text_dir st) filename = true.

(** No file operation fails. *)
Definition fault_free (faults : Faults) : Prop :=
  forall name,
    save_ok faults name = true /\ write_ok faults name = true
    /\ remove_ok faults name = true.


(** The characters that [sanitize_filename] lets through. *)
Definition filename_char (c : N) : Prop :=
  isalnum c = true \/ c = 32%N \/ c = hyphen \/ c = underscore.


(** A page document of [Text], as both tables of contents tell it. *)
Definition xhtml_file (text : gmap pystr PageDoc) (f : pystr) : Prop :=
  is_Some (text !! f) /\ endswith (lower f) (py ".xhtml") = true.


(** The names that the search for a free name of a cover goes through:
    [<base><ext>] first, then [<base>_1<ext>], [<base>_2<ext>], ... *)
Definition cover_candidate (base_name ext_lower : pystr) (k : nat) : pystr :=
  match k with
  | O => base_name ++ ext_lower
  | S _ => base_name ++ py "_" ++ str_of_int (Z.of_nat k) ++ ext_lower
  end.


(** A tree as a file system holds it: no directory has two entries of the
    same name. *)
Fixpoint distinct_names (n : node) : Prop :=
  match n with
  | RegFile => True
  | Directory children =>
      NoDup children.*1
      /\ (fix all (l : list (pystr * node)) : Prop :=
            match l with
            | [] => True
            | c :: l' => distinct_names c.2 /\ all l'
            end) children
  end.


(** A width that the division of the ratio takes without overflow,
    whatever the height. *)
Definition float_sized (w : Z) : Prop := - 2 ^ 1023 < w < 2 ^ 1023.

(** The fallback width and the widths of the decoded images of [Images]
    are within that range. *)
Definition sizes_in_range (fallback_width : Z) (st : fs_state) : Prop :=
  float_sized fallback_width
  /\ forall name img,
       images_dir st !! name = Some (File (Some img)) -> float_sized (width img).

(** ** Runs and sample inputs *)

(** The two layout steps of a run, in the order of the main program: split
    the double pages and write the page documents, then build manifest and
    spine. *)
Definition layout_run (faults : Faults) (fallback_width fallback_height : Z)
    (double_page_ratio : float) (has_cover : bool) (reading_direction : pystr)
    (blank_w blank_h : Z) (st : fs_state) : option opf_result :=
  match generate_xhtml_pages faults fallback_width fallback_height double_page_ratio
          reading_direction st with
  | Some st' => generate_content_opf has_cover reading_direction blank_w blank_h st'
  | None => None
  end.

Definition spine_of (r : option opf_result) : option (list itemref) :=
  (fun r => spine_items (final r)) <$> r.

(** The default [double_page_ratio=1.3], as the binary64 number that Python
    reads. *)
Definition default_double_page_ratio : float := 0x1.4cccccccccccdp+0%float.

Definition no_faults : Faults :=
  {| save_ok := fun _ => true; write_ok := fun _ => true; remove_ok := fun _ => true |}.


(** A fresh working tree with the given images in [Images]. *)
Definition images_only (images : list (pystr * Image)) : fs_state :=
  {| images_dir := list_to_map (prod_map id (fun img => File (Some img)) <$> images);
     text_dir := ∅;
     log := [] |}.

Definition portrait (px : Z -> Z -> N) : Image :=
  {| width := 1000; height := 1500; pixel := px |}.

Definition landscape (px : Z -> Z -> N) : Image :=
  {| width := 2000; height := 1500; pixel := px |}.

(** Scenario A with its file names, and with a double page that sorts after
    the single page. *)
Definition scenario_a (px1 px2 : Z -> Z -> N) : fs_state :=
  images_only [(py "s1.jpg", portrait px1); (py "p2.jpg", landscape px2)].

Definition scenario_a_sorted (px1 px2 : Z -> Z -> N) : fs_state :=
  images_only [(py "s1.jpg", portrait px1); (py "s2.jpg", landscape px2)].

Definition white : Z -> Z -> N := fun _ _ => 255%N.

(** Image files with a page document each. *)
Definition images_with_pages (names : list string) (paged : list string) : fs_state :=
  {| images_dir := list_to_map ((fun n => (py (n ++ ".jpg"), File (Some (portrait white)))) <$> names);
     text_dir :=
       list_to_map
         ((fun n => (py ("page_" ++ n ++ "_F.xhtml"),
                     {| doc_title := py ("page_" ++ n ++ "_F");
                        viewport_w := 1000; viewport_h := 1500;
                        body_class := py "single-page";
                        img_src := Some (py ("../Images/" ++ n ++ ".jpg")) |})) <$> paged);
     log := [] |}.

(** A cover followed by the two halves of a double page. *)
Definition cover_then_spread : fs_state :=
  images_with_pages ["0"; "p_a"; "p_b"]%string ["0"; "p_a"; "p_b"]%string.

(** The tables of a Python that knows no character beyond ASCII; a run on
    ASCII names never consults them. *)
Definition ascii_only_isalnum : N -> bool := fun _ => false.
Definition ascii_only_lower : pystr -> pystr := fun s => s.

(** A working tree as [initial_setup] and the generators leave it. *)
Definition sample_tree : list (pystr * node) :=
  [ (py "META-INF", Directory [(py "container.xml", RegFile)]);
    (py "mimetype", RegFile);
    (py "OEBPS",
     Directory
       [ (py "content.opf", RegFile);
         (py "Images", Directory [(py "p1.jpg", RegFile)]);
         (py "Text", Directory [(py "page_p1_F.xhtml", RegFile); (py "style.css", RegFile)]) ]) ].


(** The rest of the tables of a Python that knows no character beyond
    ASCII, and the default of [sys.set_int_max_str_digits]. *)
Definition ascii_only_isspace : N -> bool := fun _ => false.
Definition ascii_only_int : pystr -> option Z := fun _ => None.
Definition default_max_str_digits : nat := 4300.

(** A working tree whose only image cannot be decoded. *)
Definition undecodable_image : fs_state :=
  {| images_dir := {[ py "p1.jpg" := File None ]}; text_dir := ∅; log := [] |}.


(** A folder of the user with a cover and a page. *)
Definition folder_with_cover : gmap pystr entry :=
  list_to_map [(py "Cover.JPG", File (Some (portrait white)));
               (py "p1.jpg", File (Some (portrait white)))].


(** * Properties *)

(** ** Strings *)

Lemma sanitize_char_idem c : sanitize_char (sanitize_char c) = sanitize_char c.
Proof.
  unfold sanitize_char at 2.
  destruct (isalnum c || (c =? underscore)%N || (c =? hyphen)%N) eqn:E.
  - unfold sanitize_char. now rewrite E.
  - unfold sanitize_char. now destruct (_ || _).
Qed.

(** C6: [sanitize_name] is idempotent: sanitizing a sanitized name changes
    nothing, for every string and whatever the Unicode tables say. *)
Theorem sanitize_name_idempotent (x : pystr) :
  sanitize_name (sanitize_name x) = sanitize_name x.
Proof.
  unfold sanitize_name. induction x as [|c x IH]; simpl.
  - reflexivity.
  - rewrite sanitize_char_idem. f_equal. exact IH.
Qed.

Lemma sanitize_name_length x : length (sanitize_name x) = length x.
Proof. unfold sanitize_name. apply length_map. Qed.

Lemma splitext_app p : (splitext p).1 ++ (splitext p).2 = p.
Proof.
  unfold splitext. destruct (rfind dot p) as [k|]; simpl.
  - destruct (_ && _); simpl.
    + apply take_drop.
    + apply app_nil_r.
  - apply app_nil_r.
Qed.

Lemma half_image_name_length safe letter ext :
  length (half_image_name safe letter ext)
  = (length safe + 1 + length letter + length ext)%nat.
Proof. unfold half_image_name, part_base. rewrite !length_app. simpl. lia. Qed.

(** A half never takes the name of the image it is cut from. *)
Lemma half_image_name_fresh filename letter :
  length letter = 1%nat ->
  half_image_name (sanitize_name (splitext filename).1) letter (splitext filename).2
  ≠ filename.
Proof.
  intros Hl Heq. apply (f_equal length) in Heq.
  rewrite half_image_name_length, sanitize_name_length in Heq.
  rewrite <- (splitext_app filename) in Heq at 3. rewrite length_app in Heq. lia.
Qed.

Lemma half_image_name_a_b safe ext :
  half_image_name safe (py "a") ext ≠ half_image_name safe (py "b") ext.
Proof.
  unfold half_image_name, part_base. intros Heq.
  rewrite <- !app_assoc in Heq. apply app_inv_head in Heq.
  cbv in Heq. congruence.
Qed.


(** ** The splitter *)

Section SplitterFacts.

Variable faults : Faults.
Variables fallback_width fallback_height : Z.
Variable double_page_ratio : float.
Variable reading_direction : pystr.

Lemma open_image_isfile st filename img :
  open_image st filename = Some img -> isfile (images_dir st) filename = true.
Proof.
  unfold open_image, isfile. destruct (images_dir st !! filename) as [[|[i|]]|]; congruence.
Qed.

Lemma is_double_page_ratio w h :
  is_double_page double_page_ratio w h = true ->
  exists r, ratio w h = Some r /\ PrimFloat.leb double_page_ratio r = true.
Proof. unfold is_double_page. destruct (ratio w h) as [r|]; [eauto|discriminate]. Qed.

Lemma probe_size_open st filename img :
  open_image st filename = Some img ->
  probe_size fallback_width fallback_height filename st = (width img, height img, st).
Proof. unfold probe_size. now intros ->. Qed.

(** The crop box of each half: the left box for [_a] and the right box for
    [_b] when reading left to right, and the other way round otherwise. *)
Lemma split_parts_boxes w h :
  split_parts reading_direction w h
  = if bool_decide (reading_direction = py "ltr")
    then [(py "a", Left, box_left (w / 2) h); (py "b", Right, box_right (w / 2) w h)]
    else [(py "a", Right, box_right (w / 2) w h); (py "b", Left, box_left (w / 2) h)].
Proof. reflexivity. Qed.

(** What a split that meets no fault leaves behind. *)
Lemma process_image_split filename img st :
  let safe := sanitize_name (splitext filename).1 in
  let ext := (splitext filename).2 in
  let w := width img in
  let h := height img in
  let ltr := bool_decide (reading_direction = py "ltr") in
  open_image st filename = Some img ->
  lower ext ∈ xhtml_image_extensions ->
  is_double_page double_page_ratio w h = true ->
  1 < w ->
  save_ok faults (half_image_name safe (py "a") ext) = true ->
  write_ok faults (half_xhtml_name safe (py "a")) = true ->
  save_ok faults (half_image_name safe (py "b") ext) = true ->
  write_ok faults (half_xhtml_name safe (py "b")) = true ->
  exists st',
    process_image faults fallback_width fallback_height double_page_ratio
      reading_direction filename st = Some st'
    /\ images_dir st'
       = (if remove_ok faults filename then delete filename else id)
           (<[half_image_name safe (py "b") ext :=
                File (Some (crop img (if ltr then box_right (w / 2) w h
                                      else box_left (w / 2) h)))]>
              (<[half_image_name safe (py "a") ext :=
                   File (Some (crop img (if ltr then box_left (w / 2) h
                                         else box_right (w / 2) w h)))]>
                 (images_dir st)))
    /\ text_dir st'
       = <[half_xhtml_name safe (py "b") :=
             half_page_doc (part_base safe (py "b"))
               (half_image_name safe (py "b") ext) (w / 2) h]>
           (<[half_xhtml_name safe (py "a") :=
                half_page_doc (part_base safe (py "a"))
                  (half_image_name safe (py "a") ext) (w / 2) h]>
              (text_dir st)).
Proof.
  intros safe ext w h ltr Hopen Hext Hdouble Hw Hsa Hwa Hsb Hwb.
  unfold process_image.
  rewrite (open_image_isfile _ _ _ Hopen). simpl.
  subst safe ext. destruct (splitext filename) as [name ext]. simpl in *.
  rewrite bool_decide_eq_true_2 by exact Hext. simpl.
  rewrite (probe_size_open _ _ _ Hopen). fold w h.
  destruct (is_double_page_ratio w h Hdouble) as (r & -> & ->).
  replace (w >? 1) with true by (symmetry; apply Z.gtb_lt; lia). simpl.
  unfold try_split. rewrite Hopen, split_parts_boxes. fold w h ltr.
  unfold half_image_name, half_xhtml_name in *.
  destruct ltr; simpl; rewrite Hsa, Hwa, Hsb, Hwb; simpl;
    destruct (remove_ok faults filename); eexists; (split; [reflexivity|]); simpl; split; reflexivity.
Qed.

(** C4: an image that decodes with [width/height >= double_page_ratio] and
    [width > 1], and whose split meets no fault, is replaced by exactly two
    cropped images, the halves [_a] and [_b]: their widths are [width // 2]
    and [width - width // 2], they sum to the width of the original, and
    both have its height; no other image file is written. *)
Theorem split_two_halves filename img st :
  let safe := sanitize_name (splitext filename).1 in
  let ext := (splitext filename).2 in
  let name_a := half_image_name safe (py "a") ext in
  let name_b := half_image_name safe (py "b") ext in
  open_image st filename = Some img ->
  lower ext ∈ xhtml_image_extensions ->
  is_double_page double_page_ratio (width img) (height img) = true ->
  1 < width img ->
  save_ok faults name_a = true ->
  write_ok faults (half_xhtml_name safe (py "a")) = true ->
  save_ok faults name_b = true ->
  write_ok faults (half_xhtml_name safe (py "b")) = true ->
  exists st' img_a img_b,
    process_image faults fallback_width fallback_height double_page_ratio
      reading_direction filename st = Some st'
    /\ images_dir st' !! name_a = Some (File (Some img_a))
    /\ images_dir st' !! name_b = Some (File (Some img_b))
    /\ name_a ≠ name_b
    /\ (forall other, other ≠ name_a -> other ≠ name_b -> other ≠ filename ->
          images_dir st' !! other = images_dir st !! other)
    /\ (width img_a = width img / 2 /\ width img_b = width img - width img / 2
        \/ width img_a = width img - width img / 2 /\ width img_b = width img / 2)
    /\ width img_a + width img_b = width img
    /\ height img_a = height img
    /\ height img_b = height img.
Proof.
  intros safe ext name_a name_b Hopen Hext Hdouble Hw Hsa Hwa Hsb Hwb.
  destruct (process_image_split filename img st Hopen Hext Hdouble Hw Hsa Hwa Hsb Hwb)
    as (st' & Hrun & Himg & _).
  fold safe ext name_a name_b in Himg.
  assert (Hab : name_a ≠ name_b) by apply half_image_name_a_b.
  assert (Hfa : name_a ≠ filename) by (apply half_image_name_fresh; reflexivity).
  assert (Hfb : name_b ≠ filename) by (apply half_image_name_fresh; reflexivity).
  exists st',
    (crop img (if bool_decide (reading_direction = py "ltr")
               then box_left (width img / 2) (height img)
               else box_right (width img / 2) (width img) (height img))),
    (crop img (if bool_decide (reading_direction = py "ltr")
               then box_right (width img / 2) (width img) (height img)
               else box_left (width img / 2) (height img))).
  split; [exact Hrun|]. rewrite Himg.
  split_and!.
  - destruct (remove_ok faults filename); simpl;
      rewrite ?lookup_delete_ne by congruence;
      rewrite lookup_insert_ne, lookup_insert_eq by congruence; reflexivity.
  - destruct (remove_ok faults filename); simpl;
      rewrite ?lookup_delete_ne by congruence;
      rewrite lookup_insert_eq; reflexivity.
  - exact Hab.
  - intros other Ha Hb Hf.
    destruct (remove_ok faults filename); simpl;
      rewrite ?lookup_delete_ne by congruence;
      rewrite !lookup_insert_ne by congruence; reflexivity.
  - destruct (bool_decide (reading_direction = py "ltr")); simpl; lia.
  - destruct (bool_decide (reading_direction = py "ltr")); simpl; lia.
  - destruct (bool_decide (reading_direction = py "ltr")); simpl; lia.
  - destruct (bool_decide (reading_direction = py "ltr")); simpl; lia.
Qed.




End SplitterFacts.

Lemma normalize_direction_cases direction :
  normalize_direction direction = py "ltr" \/ normalize_direction direction = py "rtl".
Proof.
  unfold normalize_direction.
  destruct (bool_decide (lower direction = py "rtl")) eqn:Er; simpl.
  - right. now apply bool_decide_eq_true in Er.
  - destruct (bool_decide (lower direction = py "ltr")) eqn:El; simpl.
    + left. now apply bool_decide_eq_true in El.
    + now right.
Qed.

(** C5: in a split that meets no fault, which crop becomes which half
    depends on the reading direction alone, and the direction is one of the
    two: read left to right, [_a] is the left crop and [_b] the right crop;
    read right to left, [_a] is the right crop and [_b] the left crop.  The
    halves are saved under the sanitized base name followed by [_a] or [_b]
    and the extension of the original, and the original is gone once
    [os.remove] has done its work. *)
Theorem split_roles faults fallback_width fallback_height double_page_ratio
    direction filename img st :
  let rd := normalize_direction direction in
  let safe := sanitize_name (splitext filename).1 in
  let ext := (splitext filename).2 in
  let name_a := safe ++ py "_a" ++ ext in
  let name_b := safe ++ py "_b" ++ ext in
  let w := width img in
  let h := height img in
  open_image st filename = Some img ->
  lower ext ∈ xhtml_image_extensions ->
  is_double_page double_page_ratio w h = true ->
  1 < w ->
  save_ok faults name_a = true ->
  write_ok faults (page_xhtml_filename (safe ++ py "_a")) = true ->
  save_ok faults name_b = true ->
  write_ok faults (page_xhtml_filename (safe ++ py "_b")) = true ->
  exists st',
    process_image faults fallback_width fallback_height double_page_ratio rd filename st
    = Some st'
    /\ (rd = py "ltr" \/ rd = py "rtl")
    /\ (rd = py "ltr" ->
          images_dir st' !! name_a = Some (File (Some (crop img (0, 0, w / 2, h))))
          /\ images_dir st' !! name_b = Some (File (Some (crop img (w / 2, 0, w, h)))))
    /\ (rd = py "rtl" ->
          images_dir st' !! name_a = Some (File (Some (crop img (w / 2, 0, w, h))))
          /\ images_dir st' !! name_b = Some (File (Some (crop img (0, 0, w / 2, h)))))
    /\ (remove_ok faults filename = true -> images_dir st' !! filename = None)
    /\ filename = (splitext filename).1 ++ ext.
Proof.
  intros rd safe ext name_a name_b w h Hopen Hext Hdouble Hw Hsa Hwa Hsb Hwb.
  assert (Ea : name_a = half_image_name safe (py "a") ext)
    by (unfold name_a, half_image_name, part_base; now rewrite <- !app_assoc).
  assert (Eb : name_b = half_image_name safe (py "b") ext)
    by (unfold name_b, half_image_name, part_base; now rewrite <- !app_assoc).
  rewrite Ea in Hsa. rewrite Eb in Hsb.
  destruct (process_image_split faults fallback_width fallback_height double_page_ratio
              rd filename img st Hopen Hext Hdouble Hw Hsa Hwa Hsb Hwb)
    as (st' & Hrun & Himg & _).
  fold safe ext w h in Himg. rewrite <- Ea, <- Eb in Himg.
  assert (Hab : name_a ≠ name_b) by (rewrite Ea, Eb; apply half_image_name_a_b).
  assert (Hfa : name_a ≠ filename)
    by (rewrite Ea; apply half_image_name_fresh; reflexivity).
  assert (Hfb : name_b ≠ filename)
    by (rewrite Eb; apply half_image_name_fresh; reflexivity).
  exists st'. split; [exact Hrun|]. rewrite Himg.
  assert (Hlook : forall (m : gmap pystr entry) x y,
             ((if remove_ok faults filename then delete filename else id)
                (<[name_b := y]> (<[name_a := x]> m))) !! name_a = Some x
             /\ ((if remove_ok faults filename then delete filename else id)
                   (<[name_b := y]> (<[name_a := x]> m))) !! name_b = Some y).
  { intros m x y. destruct (remove_ok faults filename); simpl;
      rewrite ?lookup_delete_ne by congruence;
      rewrite lookup_insert_ne, !lookup_insert_eq by congruence; split; reflexivity. }
  split_and!.
  - apply normalize_direction_cases.
  - intros Hd. rewrite bool_decide_eq_true_2 by exact Hd. apply Hlook.
  - intros Hd. rewrite bool_decide_eq_false_2 by (rewrite Hd; discriminate). apply Hlook.
  - intros ->. apply lookup_delete_eq.
  - symmetry. apply splitext_app.
Qed.


(** ** The spine builder *)

Lemma uint_digits u : 70%N ∉ py (NilEmpty.string_of_uint u).
Proof.
  unfold py. induction u; simpl; rewrite ?elem_of_cons;
    try (intros [H|H]; [discriminate H | exact (IHu H)]).
  apply not_elem_of_nil.
Qed.

Lemma str_of_int_digits n : 70%N ∉ str_of_int n.
Proof.
  unfold str_of_int, NilZero.string_of_int, NilZero.string_of_uint.
  destruct (Z.to_int n) as [u|u]; destruct u; try apply uint_digits;
    unfold py; simpl; rewrite ?elem_of_cons;
    try (intros [H|H]; [discriminate H | revert H]);
    try (intros [H|H]; [discriminate H | revert H]);
    try apply not_elem_of_nil; apply uint_digits.
Qed.

(** The file of a blank page is never the page of an image. *)
Lemma blank_file_not_page n x :
  py "page_blank_" ++ str_of_int n ++ py ".xhtml" ≠ page_xhtml_filename x.
Proof.
  unfold page_xhtml_filename. intros H.
  change (py "_F.xhtml") with (py "_F" ++ py ".xhtml") in H.
  rewrite !app_assoc in H. apply app_inv_tail in H.
  assert (Hl : last ((py "page_blank_" ++ str_of_int n)) = Some 70%N).
  { rewrite H. change (py "_F") with (py "_" ++ [70%N]).
    rewrite app_assoc. apply last_snoc. }
  rewrite last_app in Hl. destruct (last (str_of_int n)) as [c|] eqn:E.
  - injection Hl as ->. apply last_Some_elem_of in E.
    exact (str_of_int_digits n E).
  - discriminate Hl.
Qed.

Lemma alternates_snoc l s :
  alternates l = true ->
  match last l with Some x => facing x s = true | None => True end ->
  alternates (l ++ [s]) = true.
Proof.
  induction l as [|a l IH]; intros Hl Hs; [reflexivity|].
  destruct l as [|b l].
  - simpl in *. now rewrite Hs.
  - change (alternates (a :: (b :: l) ++ [s]) = true).
    simpl in Hl. apply andb_true_iff in Hl as [Hab Hl].
    simpl. rewrite Hab. simpl. apply IH; [exact Hl|].
    now rewrite last_cons_cons in Hs.
Qed.

Lemma starts_right_snoc l s :
  starts_right l = true -> (l = [] -> s = Right) -> starts_right (l ++ [s]) = true.
Proof.
  destruct l; simpl; intros H Hs; [|exact H].
  apply bool_decide_eq_true_2. now apply Hs.
Qed.

Lemma non_center_snoc l s :
  non_center (l ++ [s]) = non_center l ++ (if bool_decide (s = Center) then [] else [s]).
Proof.
  unfold non_center. rewrite List.filter_app. simpl. now destruct (bool_decide (s = Center)).
Qed.


Section SpineFacts.

Variable has_cover : bool.
Variable rd : pystr.
Variables blank_w blank_h : Z.
Variable image_files : list pystr.

Lemma sides_consistent_initial text printed :
  sides_consistent (initial_state text printed).
Proof. unfold sides_consistent. simpl. repeat split; discriminate. Qed.

Lemma sides_consistent_same st st' :
  spine_items st' = spine_items st ->
  last_side st' = last_side st ->
  next_side st' = next_side st ->
  sides_consistent st -> sides_consistent st'.
Proof. unfold sides_consistent. now intros -> -> ->. Qed.

Lemma non_center_sides_snoc spine ir :
  non_center (sides (spine ++ [ir]))
  = non_center (sides spine)
    ++ (if bool_decide (page_spread ir = Center) then [] else [page_spread ir]).
Proof. unfold sides. rewrite fmap_app. apply non_center_snoc. Qed.

Lemma sides_consistent_center page_id st :
  sides_consistent st ->
  sides_consistent (spine_append {| idref := page_id; page_spread := Center |} st).
Proof.
  unfold sides_consistent. cbn [spine_items next_side last_side spine_append].
  rewrite non_center_sides_snoc. simpl. now rewrite app_nil_r.
Qed.

Lemma sides_consistent_add_spine_page page_id st :
  sides_consistent st ->
  sides_consistent (add_spine_page page_id (next_side st) st).
Proof.
  unfold sides_consistent.
  cbn [spine_items next_side last_side spine_append add_spine_page].
  intros (Hc & Hlast & Halt & Hstart & Hface).
  rewrite non_center_sides_snoc. cbn [page_spread].
  rewrite (bool_decide_eq_false_2 (next_side st = Center)) by exact Hc.
  rewrite last_snoc. split_and!.
  - now destruct (bool_decide (next_side st = Right)).
  - reflexivity.
  - apply alternates_snoc; [exact Halt|].
    destruct (last _); [exact Hface|exact I].
  - apply starts_right_snoc; [exact Hstart|].
    intros E. now rewrite E in Hface.
  - destruct (next_side st); simpl; try reflexivity. now contradict Hc.
Qed.

Lemma sides_consistent_add_blank_page st :
  sides_consistent st ->
  sides_consistent (add_blank_page blank_w blank_h (next_side st) st).
Proof.
  intros H. unfold add_blank_page.
  match goal with
  | |- sides_consistent (add_spine_page ?id _ ?st1) =>
      change (sides_consistent (add_spine_page id (next_side st1) st1))
  end.
  apply sides_consistent_add_spine_page.
  revert H. now apply sides_consistent_same.
Qed.

Lemma sides_consistent_blank_before_spread safe_name st :
  sides_consistent st ->
  sides_consistent (blank_before_spread rd blank_w blank_h safe_name st).
Proof.
  intros H. unfold blank_before_spread. destruct (_ && _); [|exact H].
  eapply sides_consistent_same; [..|apply sides_consistent_add_blank_page, H]; reflexivity.
Qed.

Lemma sides_consistent_page img_name safe_name media_type xhtml_filename st :
  sides_consistent st ->
  sides_consistent (simple_page img_name safe_name media_type xhtml_filename st).
Proof.
  intros H. unfold simple_page.
  match goal with
  | |- sides_consistent (add_spine_page ?id _ ?st1) =>
      change (sides_consistent (add_spine_page id (next_side st1) st1))
  end.
  apply sides_consistent_add_spine_page. revert H. now apply sides_consistent_same.
Qed.

Lemma sides_consistent_half_b i st :
  sides_consistent st -> sides_consistent (half_b image_files i st).
Proof.
  intros H. unfold half_b. destruct (splitext _) as [base_b ext_b].
  destruct (negb _).
  - revert H. now apply sides_consistent_same.
  - match goal with
    | |- sides_consistent (add_spine_page ?id _ ?st1) =>
        change (sides_consistent (add_spine_page id (next_side st1) st1))
    end.
    apply sides_consistent_add_spine_page. revert H. now apply sides_consistent_same.
Qed.

Lemma sides_consistent_step i img_name st :
  sides_consistent st ->
  sides_consistent (step has_cover rd blank_w blank_h image_files i img_name st).2.
Proof.
  intros H. unfold step. destruct (splitext img_name) as [base ext].
  destruct (negb _); simpl.
  - revert H. now apply sides_consistent_same.
  - destruct (has_cover && _); simpl.
    + unfold cover_case. apply sides_consistent_center.
      revert H. now apply sides_consistent_same.
    + destruct (is_double_group_start _ _ _ _); simpl.
      * unfold double_spread. apply sides_consistent_half_b.
        apply (sides_consistent_page img_name).
        apply sides_consistent_blank_before_spread, H.
      * apply sides_consistent_page, H.
Qed.

Lemma step_advance i img_name st :
  (step has_cover rd blank_w blank_h image_files i img_name st).1 = (i + 1)%nat
  \/ (step has_cover rd blank_w blank_h image_files i img_name st).1 = (i + 2)%nat.
Proof.
  unfold step. destruct (splitext img_name) as [base ext].
  destruct (negb _); simpl; [now left|].
  destruct (has_cover && _); simpl; [now left|].
  destruct (is_double_group_start _ _ _ _); simpl; [now right|now left].
Qed.

(** The loop ends: with as much fuel as there are files left, [traverse]
    returns a state. *)
Lemma traverse_total fuel i st :
  (length image_files <= fuel + i)%nat ->
  is_Some (traverse has_cover rd blank_w blank_h image_files fuel i st).
Proof.
  revert i st. induction fuel as [|fuel IH]; intros i st Hf; simpl.
  - rewrite (lookup_ge_None_2 image_files i) by lia. eauto.
  - destruct (image_files !! i) as [img|] eqn:E; [|eauto].
    destruct (step has_cover rd blank_w blank_h image_files i img st) as [i' st'] eqn:Es.
    apply IH. pose proof (step_advance i img st) as Ha. rewrite Es in Ha. simpl in Ha. lia.
Qed.

(** The result of the loop is a state that the loop reaches. *)
Lemma traverse_reachable st0 fuel i st r :
  reachable has_cover rd blank_w blank_h image_files st0 i st ->
  traverse has_cover rd blank_w blank_h image_files fuel i st = Some r ->
  exists j, reachable has_cover rd blank_w blank_h image_files st0 j r
            /\ image_files !! j = None.
Proof.
  revert i st. induction fuel as [|fuel IH]; intros i st Hr; simpl.
  - destruct (image_files !! i) eqn:E; [discriminate|].
    intros [= <-]. eauto.
  - destruct (image_files !! i) as [img|] eqn:E.
    + destruct (step has_cover rd blank_w blank_h image_files i img st) as [i' st'] eqn:Es. apply IH.
      pose proof (reachable_step _ _ _ _ _ st0 i img st Hr E) as Hn.
      now rewrite Es in Hn.
    + intros [= <-]. eauto.
Qed.

Lemma reachable_sides_consistent st0 i st :
  sides_consistent st0 ->
  reachable has_cover rd blank_w blank_h image_files st0 i st ->
  sides_consistent st.
Proof.
  intros H0. induction 1 as [|i img st Hr IH E]; [exact H0|].
  now apply sides_consistent_step.
Qed.

Lemma page_exists_same st st' x :
  opf_text_dir st' = opf_text_dir st -> page_exists st' x = page_exists st x.
Proof. unfold page_exists. now intros ->. Qed.

(** What the blank page before a double spread changes. *)
Lemma blank_before_spread_spec safe_name st :
  let st0 := blank_before_spread rd blank_w blank_h safe_name st in
  let m := side_mismatch rd st in
  spine_items st0
  = spine_items st ++ (if m then [blank_itemref (blank_counter st + 1) (next_side st)] else [])
  /\ next_side st0
     = (if m then if bool_decide (next_side st = Right) then Left else Right
        else next_side st)
  /\ blank_counter st0 = blank_counter st + (if m then 1 else 0)
  /\ cover_image_id st0 = cover_image_id st
  /\ (forall x, page_exists st0 (page_xhtml_filename x) = page_exists st (page_xhtml_filename x)).
Proof.
  unfold blank_before_spread, side_mismatch. destruct (_ && _); simpl.
  - split_and!; try reflexivity.
    intros x. unfold page_exists. simpl.
    rewrite lookup_insert_ne; [reflexivity|].
    apply blank_file_not_page.
  - rewrite app_nil_r, Z.add_0_r. now split_and!.
Qed.

Lemma double_spread_at_true i img_name st :
  double_spread_at has_cover image_files i img_name st = true ->
  page_exists st (page_xhtml_filename (sanitize_name (splitext img_name).1)) = true
  /\ has_cover && bool_decide (i = 0%nat) = false
  /\ is_double_group_start image_files i (sanitize_name (splitext img_name).1)
       (lower (splitext img_name).2) = true.
Proof.
  unfold double_spread_at. rewrite !andb_true_iff, negb_true_iff. tauto.
Qed.

Lemma step_double_spread i img_name st :
  double_spread_at has_cover image_files i img_name st = true ->
  step has_cover rd blank_w blank_h image_files i img_name st
  = ((i + 2)%nat,
     double_spread rd blank_w blank_h image_files i img_name
       (sanitize_name (splitext img_name).1)
       (image_media_type (lower (splitext img_name).2))
       (page_xhtml_filename (sanitize_name (splitext img_name).1)) st).
Proof.
  intros (Hp & Hc & Hd)%double_spread_at_true. unfold step.
  destruct (splitext img_name) as [base ext]. simpl in *.
  now rewrite Hp, Hc, Hd.
Qed.

Lemma step_no_double_spread i img_name st :
  double_spread_at has_cover image_files i img_name st = false ->
  let st' := (step has_cover rd blank_w blank_h image_files i img_name st).2 in
  blank_counter st' = blank_counter st
  /\ (spine_items st' = spine_items st
      \/ exists s, spine_items st'
                   = spine_items st
                     ++ [ {| idref := page_id_of (sanitize_name (splitext img_name).1);
                             page_spread := s |} ]).
Proof.
  unfold double_spread_at, step. destruct (splitext img_name) as [base ext]. simpl.
  destruct (page_exists _ _); simpl; [|intros _; split; [reflexivity|now left]].
  destruct (has_cover && _); simpl.
  - intros _. split; [reflexivity|]. right. now exists Center.
  - intros ->. simpl. split; [reflexivity|]. right. now eexists.
Qed.

(** C9: at a double spread whose [_b] half has no page document, the [_a]
    half still goes into the spine (after the blank page, if one is due)
    and takes a side; a warning is printed for the [_b] half, which gets no
    entry in the spine; and the loop moves on by two files. *)
Theorem double_spread_without_half_b i img_a img_b st :
  let safe_a := sanitize_name (splitext img_a).1 in
  let safe_b := sanitize_name (splitext img_b).1 in
  let blank :=
    if side_mismatch rd st
    then [blank_itemref (blank_counter st + 1) (next_side st)] else [] in
  let side_a :=
    if side_mismatch rd st
    then if bool_decide (next_side st = Right) then Left else Right
    else next_side st in
  image_files !! i = Some img_a ->
  image_files !! (i + 1)%nat = Some img_b ->
  double_spread_at has_cover image_files i img_a st = true ->
  opf_text_dir st !! page_xhtml_filename safe_b = None ->
  exists st',
    step has_cover rd blank_w blank_h image_files i img_a st = ((i + 2)%nat, st')
    /\ spine_items st'
       = spine_items st ++ blank ++ [ {| idref := page_id_of safe_a; page_spread := side_a |} ]
    /\ last_side st' = Some side_a
    /\ next_side st' = (if bool_decide (side_a = Right) then Left else Right)
    /\ last (opf_log st') = Some (WarnXhtmlNotFound img_b (page_xhtml_filename safe_b)).
Proof.
  intros safe_a safe_b blank side_a Ha Hb Hd Hmiss.
  rewrite (step_double_spread _ _ _ Hd). eexists. split; [reflexivity|].
  destruct (blank_before_spread_spec safe_a st) as (Hsp & Hn & _ & _ & Hex).
  unfold double_spread, half_b. rewrite Hb. simpl.
  fold safe_a safe_b. rewrite (surjective_pairing (splitext img_b)). fold safe_b.
  replace (page_exists _ (page_xhtml_filename safe_b)) with false.
  - simpl. rewrite Hsp, Hn. fold blank side_a.
    split_and!; try reflexivity.
    + now rewrite <- app_assoc.
    + apply last_snoc.
  - symmetry.
    transitivity (page_exists (blank_before_spread rd blank_w blank_h safe_a st)
                    (page_xhtml_filename safe_b));
      [apply page_exists_same; reflexivity|].
    rewrite Hex. unfold page_exists. rewrite Hmiss.
    apply bool_decide_eq_false_2. now intros [? ?].
Qed.


Lemma half_b_spine i st :
  spine_items (half_b image_files i st) = spine_items st
  \/ exists safe_b,
       spine_items (half_b image_files i st)
       = spine_items st ++ [ {| idref := page_id_of safe_b; page_spread := next_side st |} ].
Proof.
  unfold half_b. destruct (splitext _) as [base_b ext_b]. destruct (negb _).
  - now left.
  - right. now eexists.
Qed.

Lemma half_b_blank_counter i st :
  blank_counter (half_b image_files i st) = blank_counter st.
Proof.
  unfold half_b. destruct (splitext _) as [base_b ext_b]. now destruct (negb _).
Qed.

(** C1, as the code has it: a blank page is inserted exactly at a double
    spread for which [last_side] is set (a page other than the cover came
    before) and [next_side] is not the desired side of the [_a] half.  The
    blank page takes the current [next_side], comes immediately before the
    [_a] half and raises [blank_counter] by one; it is never the first entry
    of the spine.  At any other iteration no blank page is inserted. *)
Theorem blank_page_rule text printed i img_name st :
  let st' := (step has_cover rd blank_w blank_h image_files i img_name st).2 in
  let safe_name := sanitize_name (splitext img_name).1 in
  let unit_start := double_spread_at has_cover image_files i img_name st in
  reachable has_cover rd blank_w blank_h image_files (initial_state text printed) i st ->
  image_files !! i = Some img_name ->
  blank_counter st'
  = blank_counter st + (if unit_start && side_mismatch rd st then 1 else 0)
  /\ (unit_start = true ->
        (blank_counter st' = blank_counter st + 1 <-> side_mismatch rd st = true))
  /\ (unit_start = true ->
        exists side_a rest,
          spine_items st'
          = spine_items st
            ++ (if side_mismatch rd st
                then [blank_itemref (blank_counter st + 1) (next_side st)] else [])
            ++ {| idref := page_id_of safe_name; page_spread := side_a |} :: rest
          /\ (last_side st ≠ None -> side_a = desired_side_a rd)
          /\ (rest = []
              \/ exists safe_b,
                   rest = [ {| idref := page_id_of safe_b;
                               page_spread :=
                                 if bool_decide (side_a = Right) then Left else Right |} ]))
  /\ (unit_start = false ->
        spine_items st' = spine_items st
        \/ exists s, spine_items st'
                     = spine_items st ++ [ {| idref := page_id_of safe_name; page_spread := s |} ])
  /\ (side_mismatch rd st = true -> spine_items st ≠ []).
Proof.
  intros st' safe_name unit_start Hreach Himg.
  apply reachable_sides_consistent in Hreach; [|apply sides_consistent_initial].
  destruct Hreach as (Hc & Hlast & _ & _ & _).
  assert (Hfirst : side_mismatch rd st = true -> spine_items st ≠ []).
  { unfold side_mismatch. rewrite andb_true_iff, !bool_decide_eq_true.
    intros [Hl _] E. apply Hl. rewrite Hlast, E. reflexivity. }
  destruct unit_start eqn:Hu; subst unit_start st'.
  - rewrite (step_double_spread _ _ _ Hu). simpl.
    destruct (blank_before_spread_spec safe_name st) as (Hsp & Hn & Hb & _ & _).
    unfold double_spread. fold safe_name.
    rewrite half_b_blank_counter. cbn [half_a blank_counter manifest_append add_spine_page spine_append].
    split_and!; [exact Hb| | |discriminate|exact Hfirst].
    { intros _. rewrite Hb. destruct (side_mismatch rd st); split; intros H;
        try reflexivity; try discriminate H; lia. }
    intros _.
    exists (next_side (blank_before_spread rd blank_w blank_h safe_name st)).
    match goal with |- context [half_b _ _ ?s] => destruct (half_b_spine i s) as [E|[safe_b E]] end.
    + exists []. rewrite E. cbn [half_a spine_items manifest_append add_spine_page spine_append next_side].
      rewrite Hsp, <- app_assoc. split_and!; [reflexivity| |now left].
      intros Hl. rewrite Hn. unfold side_mismatch.
      rewrite (bool_decide_eq_true_2 _ Hl). simpl. unfold desired_side_a in *.
      destruct (next_side st), (bool_decide (rd = py "rtl")); simpl; try reflexivity;
        now contradict Hc.
    + eexists [_]. rewrite E. cbn [half_a spine_items manifest_append add_spine_page spine_append next_side].
      rewrite Hsp, <- !app_assoc. split_and!; [reflexivity| |right; now exists safe_b].
      intros Hl. rewrite Hn. unfold side_mismatch.
      rewrite (bool_decide_eq_true_2 _ Hl). simpl. unfold desired_side_a in *.
      destruct (next_side st), (bool_decide (rd = py "rtl")); simpl; try reflexivity;
        now contradict Hc.
  - destruct (step_no_double_spread _ _ _ Hu) as [Hb Hs]. simpl.
    rewrite Z.add_0_r.
    split_and!; [exact Hb|discriminate|discriminate|intros _; exact Hs|exact Hfirst].
Qed.


End SpineFacts.

Section NoCover.

Variable rd : pystr.
Variables blank_w blank_h : Z.
Variable image_files : list pystr.

Lemma cover_free_same st st' :
  cover_image_id st' = cover_image_id st ->
  spine_items st' = spine_items st ->
  next_side st' = next_side st ->
  cover_free st -> cover_free st'.
Proof. unfold cover_free. now intros -> -> ->. Qed.

Lemma cover_free_add_spine_page page_id st :
  cover_free st -> cover_free (add_spine_page page_id (next_side st) st).
Proof.
  unfold cover_free. cbn [cover_image_id spine_items next_side spine_append add_spine_page].
  intros (Hc & Hs & Hn). split_and!.
  - exact Hc.
  - unfold sides. rewrite fmap_app. apply Forall_app. split; [exact Hs|].
    repeat constructor. exact Hn.
  - now destruct (bool_decide _).
Qed.

Lemma cover_free_page img_name safe_name media_type xhtml_filename st :
  cover_free st -> cover_free (simple_page img_name safe_name media_type xhtml_filename st).
Proof.
  intros H. unfold simple_page.
  match goal with
  | |- cover_free (add_spine_page ?id _ ?st1) =>
      change (cover_free (add_spine_page id (next_side st1) st1))
  end.
  apply cover_free_add_spine_page. revert H. now apply cover_free_same.
Qed.

Lemma cover_free_blank_before_spread safe_name st :
  cover_free st -> cover_free (blank_before_spread rd blank_w blank_h safe_name st).
Proof.
  intros H. unfold blank_before_spread. destruct (_ && _); [|exact H].
  eapply cover_free_same;
    [| | |apply (cover_free_add_spine_page
                   (blank_itemref (blank_counter st + 1) Left).(idref)), H];
    reflexivity.
Qed.

Lemma cover_free_half_b i st :
  cover_free st -> cover_free (half_b image_files i st).
Proof.
  intros H. unfold half_b. destruct (splitext _) as [base_b ext_b].
  destruct (negb _).
  - revert H. now apply cover_free_same.
  - match goal with
    | |- cover_free (add_spine_page ?id _ ?st1) =>
        change (cover_free (add_spine_page id (next_side st1) st1))
    end.
    apply cover_free_add_spine_page. revert H. now apply cover_free_same.
Qed.

(** Without a cover, no iteration centers a page. *)
Lemma cover_free_step i img_name st :
  cover_free st -> cover_free (step false rd blank_w blank_h image_files i img_name st).2.
Proof.
  intros H. unfold step. destruct (splitext img_name) as [base ext].
  destruct (negb _); simpl.
  - revert H. now apply cover_free_same.
  - destruct (is_double_group_start _ _ _ _); simpl.
    + unfold double_spread. apply cover_free_half_b.
      apply (cover_free_page img_name).
      apply cover_free_blank_before_spread, H.
    + apply cover_free_page, H.
Qed.

Lemma reachable_cover_free st0 i st :
  cover_free st0 ->
  reachable false rd blank_w blank_h image_files st0 i st ->
  cover_free st.
Proof.
  intros H0. induction 1 as [|i img st Hr IH E]; [exact H0|].
  now apply cover_free_step.
Qed.

End NoCover.

Lemma cover_free_initial text printed : cover_free (initial_state text printed).
Proof. unfold cover_free. simpl. split_and!; [reflexivity|constructor|discriminate]. Qed.

Lemma non_center_id l : Forall (fun s => s ≠ Center) l -> non_center l = l.
Proof.
  induction 1 as [|s l Hs Hl IH]; [reflexivity|].
  unfold non_center in *. simpl. rewrite bool_decide_eq_false_2 by exact Hs.
  simpl. now rewrite IH.
Qed.

(** The loop of [generate_content_opf] returns, in a state that it reaches
    from the initial one. *)
Lemma generate_content_opf_returns has_cover reading_direction blank_w blank_h st :
  exists r j,
    generate_content_opf has_cover reading_direction blank_w blank_h st = Some r
    /\ cover_meta r = cover_meta_line has_cover (final r)
    /\ reachable has_cover (normalize_direction reading_direction) blank_w blank_h
         (list_image_files (images_dir st))
         (initial_state (text_dir st) (log st)) j (final r).
Proof.
  unfold generate_content_opf.
  destruct (traverse_total has_cover (normalize_direction reading_direction)
              blank_w blank_h (list_image_files (images_dir st))
              (length (list_image_files (images_dir st))) 0
              (initial_state (text_dir st) (log st))) as [s Hs]; [lia|].
  rewrite Hs.
  destruct (traverse_reachable _ _ _ _ _ _ _ _ _ _ (reachable_start _ _ _ _ _ _) Hs)
    as (j & Hj & _).
  eexists _, j. split; [reflexivity|]. split; [reflexivity|exact Hj].
Qed.

(** C2: in the spine that [generate_content_opf] produces, the sides of the
    entries other than the centered cover start on the right and alternate
    strictly between right and left; and in a run without cover, the sides
    of the whole spine do. *)
Theorem spine_sides_alternate has_cover reading_direction blank_w blank_h st :
  (exists r,
     generate_content_opf has_cover reading_direction blank_w blank_h st = Some r
     /\ alternates (non_center (sides (spine_items (final r)))) = true
     /\ starts_right (non_center (sides (spine_items (final r)))) = true)
  /\ (exists r,
        generate_content_opf false reading_direction blank_w blank_h st = Some r
        /\ alternates (sides (spine_items (final r))) = true
        /\ starts_right (sides (spine_items (final r))) = true).
Proof.
  split.
  - destruct (generate_content_opf_returns has_cover reading_direction blank_w blank_h st)
      as (r & j & Hr & _ & Hreach).
    exists r. split; [exact Hr|].
    apply reachable_sides_consistent in Hreach; [|apply sides_consistent_initial].
    destruct Hreach as (_ & _ & Ha & Hs & _). now split.
  - destruct (generate_content_opf_returns false reading_direction blank_w blank_h st)
      as (r & j & Hr & _ & Hreach).
    exists r. split; [exact Hr|].
    pose proof (reachable_cover_free _ _ _ _ _ _ _ (cover_free_initial _ _) Hreach)
      as (_ & Hnc & _).
    apply reachable_sides_consistent in Hreach; [|apply sides_consistent_initial].
    destruct Hreach as (_ & _ & Ha & Hs & _).
    rewrite (non_center_id _ Hnc) in Ha, Hs. now split.
Qed.


Section CoverFacts.

Variable rd : pystr.
Variables blank_w blank_h : Z.
Variable image_files : list pystr.

(** The cover flag matters for the first file only. *)
Lemma step_after_first has_cover i img_name st :
  i ≠ 0%nat ->
  step has_cover rd blank_w blank_h image_files i img_name st
  = step false rd blank_w blank_h image_files i img_name st.
Proof.
  intros Hi. unfold step. destruct (splitext img_name) as [base ext].
  rewrite (bool_decide_eq_false_2 _ Hi), andb_false_r. reflexivity.
Qed.

Lemma traverse_after_first has_cover fuel i st :
  i ≠ 0%nat ->
  traverse has_cover rd blank_w blank_h image_files fuel i st
  = traverse false rd blank_w blank_h image_files fuel i st.
Proof.
  revert i st. induction fuel as [|fuel IH]; intros i st Hi; [reflexivity|].
  simpl. destruct (image_files !! i) as [img|]; [|reflexivity].
  rewrite (step_after_first has_cover) by exact Hi.
  destruct (step false rd blank_w blank_h image_files i img st) as [i' st'] eqn:Es.
  apply IH. pose proof (step_advance false rd blank_w blank_h image_files i img st) as Ha.
  rewrite Es in Ha. simpl in Ha. lia.
Qed.

(** An image without page document is skipped with a warning, cover or
    not. *)
Lemma step_missing_page has_cover i img_name st :
  opf_text_dir st !! page_xhtml_filename (sanitize_name (splitext img_name).1) = None ->
  step has_cover rd blank_w blank_h image_files i img_name st
  = ((i + 1)%nat,
     opf_print (WarnXhtmlNotFound img_name
                  (page_xhtml_filename (sanitize_name (splitext img_name).1))) st).
Proof.
  intros Hm. unfold step. destruct (splitext img_name) as [base ext]. simpl in *.
  unfold page_exists. rewrite Hm.
  rewrite bool_decide_eq_false_2 by (now intros [? ?]). reflexivity.
Qed.

Lemma step_log has_cover i img_name st :
  exists more,
    opf_log (step has_cover rd blank_w blank_h image_files i img_name st).2
    = opf_log st ++ more.
Proof.
  unfold step. destruct (splitext img_name) as [base ext].
  destruct (negb _); simpl; [now eexists|].
  destruct (has_cover && _); simpl; [exists []; now rewrite app_nil_r|].
  assert (Hb : forall j s, exists more,
               opf_log (half_b image_files j s) = opf_log s ++ more).
  { intros j s. unfold half_b. destruct (splitext _) as [bb eb].
    destruct (negb _); simpl; [now eexists|exists []; now rewrite app_nil_r]. }
  destruct (is_double_group_start _ _ _ _); simpl.
  - unfold double_spread. destruct (Hb i (half_a img_name (sanitize_name base)
        (image_media_type (lower ext)) (page_xhtml_filename (sanitize_name base))
        (blank_before_spread rd blank_w blank_h (sanitize_name base) st))) as [more ->].
    simpl. unfold blank_before_spread. destruct (_ && _); simpl.
    + rewrite <- app_assoc. now eexists.
    + now eexists.
  - exists []. now rewrite app_nil_r.
Qed.

Lemma traverse_log has_cover fuel i st r :
  traverse has_cover rd blank_w blank_h image_files fuel i st = Some r ->
  exists more, opf_log r = opf_log st ++ more.
Proof.
  revert i st. induction fuel as [|fuel IH]; intros i st; simpl.
  - destruct (image_files !! i); [discriminate|].
    intros [= <-]. exists []. now rewrite app_nil_r.
  - destruct (image_files !! i) as [img|].
    + destruct (step has_cover rd blank_w blank_h image_files i img st) as [i' st'] eqn:Es.
      intros (more & ->)%IH.
      destruct (step_log has_cover i img st) as [more' Hm]. rewrite Es in Hm.
      simpl in Hm. rewrite Hm, <- app_assoc. now eexists.
    + intros [= <-]. exists []. now rewrite app_nil_r.
Qed.

End CoverFacts.

(** C10: only the first file of the sorted list can be the cover.  When a
    cover is asked for and the first image has no page document, the image
    is skipped with a warning and everything goes on as in a run without
    cover: the results are the same, no entry of the spine is centered, no
    cover image is recorded and the cover line of the metadata is left
    out. *)
Theorem cover_bound_to_first_file reading_direction blank_w blank_h st first :
  let page := page_xhtml_filename (sanitize_name (splitext first).1) in
  list_image_files (images_dir st) !! 0%nat = Some first ->
  text_dir st !! page = None ->
  exists r more,
    generate_content_opf true reading_direction blank_w blank_h st = Some r
    /\ generate_content_opf false reading_direction blank_w blank_h st = Some r
    /\ opf_log (final r) = log st ++ WarnXhtmlNotFound first page :: more
    /\ Forall (fun s => s ≠ Center) (sides (spine_items (final r)))
    /\ cover_image_id (final r) = None
    /\ cover_meta r = None.
Proof.
  intros page Hfirst Hmiss.
  destruct (generate_content_opf_returns false reading_direction blank_w blank_h st)
    as (r & j & Hr & Hmeta & Hreach).
  pose proof (reachable_cover_free _ _ _ _ _ _ _ (cover_free_initial _ _) Hreach)
    as (Hid & Hnc & _).
  assert (Hnone : cover_meta r = None).
  { rewrite Hmeta. unfold cover_meta_line. now rewrite Hid. }
  revert Hr. unfold generate_content_opf.
  set (files := list_image_files (images_dir st)) in *.
  set (d := normalize_direction reading_direction).
  set (st0 := initial_state (text_dir st) (log st)).
  destruct (length files) as [|fuel] eqn:El.
  { apply length_zero_iff_nil in El. rewrite El in Hfirst. discriminate. }
  assert (Hrun : forall hc,
             traverse hc d blank_w blank_h files (S fuel) 0 st0
             = traverse false d blank_w blank_h files fuel 1
                 (opf_print (WarnXhtmlNotFound first page) st0)).
  { intros hc. simpl. rewrite Hfirst.
    rewrite step_missing_page by exact Hmiss.
    apply traverse_after_first. discriminate. }
  rewrite !Hrun.
  destruct (traverse false d blank_w blank_h files fuel 1 _) as [s|] eqn:Es;
    [|discriminate].
  intros [= <-]. simpl in *.
  destruct (traverse_log _ _ _ _ _ _ _ _ _ Es) as [more Hlog].
  eexists _, more. split; [reflexivity|]. simpl. split_and!; try assumption.
  - unfold cover_meta_line. now rewrite Hid.
  - rewrite Hlog. simpl. now rewrite <- app_assoc.
  - unfold cover_meta_line. now rewrite Hid.
Qed.


(** ** Scenario A *)

(** C3, as the code has it: the files are visited in the order of their
    names.  With a single page [s1.jpg] and a double page [p2.jpg], read
    right to left without cover, the halves of [p2] come first and no blank
    page is needed: the spine is p2_a on the right, p2_b on the left, s1 on
    the right.  When the double page sorts after the single page ([s1.jpg]
    and [s2.jpg]), the spine is s1 on the right, blank_1 on the left, s2_a on
    the right, s2_b on the left. *)
Theorem scenario_a_in_sort_order (px1 px2 : Z -> Z -> N) :
  spine_of (layout_run no_faults 1046 1448 default_double_page_ratio false (py "rtl")
              1072 1448 (scenario_a px1 px2))
  = Some [ {| idref := py "page_Images_p2_a_F"; page_spread := Right |};
           {| idref := py "page_Images_p2_b_F"; page_spread := Left |};
           {| idref := py "page_Images_s1_F"; page_spread := Right |} ]
  /\ spine_of (layout_run no_faults 1046 1448 default_double_page_ratio false (py "rtl")
                 1072 1448 (scenario_a_sorted px1 px2))
     = Some [ {| idref := py "page_Images_s1_F"; page_spread := Right |};
              {| idref := py "page_blank_1"; page_spread := Left |};
              {| idref := py "page_Images_s2_a_F"; page_spread := Right |};
              {| idref := py "page_Images_s2_b_F"; page_spread := Left |} ].
Proof. split; vm_compute; reflexivity. Qed.


(** * Further properties *)

(** ** What the spine and the manifest contain *)

Lemma is_blank_ref_page x s :
  is_blank_ref {| idref := page_id_of x; page_spread := s |} = false.
Proof.
  unfold is_blank_ref, startswith, page_id_of. simpl idref.
  apply bool_decide_eq_false_2. unfold py. simpl. discriminate.
Qed.

Lemma is_blank_ref_blank n s : is_blank_ref (blank_itemref n s) = true.
Proof.
  unfold is_blank_ref, startswith, blank_itemref. cbn [idref].
  apply bool_decide_eq_true_2. apply take_app_length.
Qed.

Lemma spine_pages_app l1 l2 : spine_pages (l1 ++ l2) = spine_pages l1 ++ spine_pages l2.
Proof. unfold spine_pages. now rewrite List.filter_app, fmap_app. Qed.

Lemma spine_blanks_app l1 l2 : spine_blanks (l1 ++ l2) = spine_blanks l1 ++ spine_blanks l2.
Proof. unfold spine_blanks. now rewrite List.filter_app, fmap_app. Qed.

Lemma spine_pages_page x s :
  spine_pages [ {| idref := page_id_of x; page_spread := s |} ] = [page_id_of x].
Proof. unfold spine_pages. cbn [List.filter]. now rewrite is_blank_ref_page. Qed.

Lemma spine_pages_blank n s : spine_pages [blank_itemref n s] = [].
Proof. unfold spine_pages. cbn [List.filter]. now rewrite is_blank_ref_blank. Qed.

Lemma spine_blanks_page x s :
  spine_blanks [ {| idref := page_id_of x; page_spread := s |} ] = [].
Proof. unfold spine_blanks. cbn [List.filter]. now rewrite is_blank_ref_page. Qed.

Lemma spine_blanks_blank n s : spine_blanks [blank_itemref n s] = [blank_id n].
Proof. unfold spine_blanks. cbn [List.filter]. now rewrite is_blank_ref_blank. Qed.

Section SpineContent.

Variable has_cover : bool.
Variable rd : pystr.
Variables blank_w blank_h : Z.
Variable image_files : list pystr.
Variable text0 : gmap pystr PageDoc.

Lemma text_agrees_same st st' :
  opf_text_dir st' = opf_text_dir st -> text_agrees text0 st -> text_agrees text0 st'.
Proof. intros E H x. rewrite <- H. now apply page_exists_same. Qed.

Lemma text_agrees_blank_before_spread safe st :
  text_agrees text0 st -> text_agrees text0 (blank_before_spread rd blank_w blank_h safe st).
Proof.
  intros H x. rewrite <- H.
  now destruct (blank_before_spread_spec rd blank_w blank_h safe st) as (_ & _ & _ & _ & Hx).
Qed.

Lemma text_agrees_half_b i st :
  text_agrees text0 st -> text_agrees text0 (half_b image_files i st).
Proof.
  apply text_agrees_same. unfold half_b.
  destruct (splitext _) as [bb eb]. now destruct (negb _).
Qed.

Lemma text_agrees_step i img_name st :
  text_agrees text0 st -> text_agrees text0 (step has_cover rd blank_w blank_h image_files i img_name st).2.
Proof.
  intros H. unfold step. destruct (splitext img_name) as [base ext].
  destruct (negb _); simpl; [revert H; now apply text_agrees_same|].
  destruct (has_cover && _); simpl; [revert H; now apply text_agrees_same|].
  destruct (is_double_group_start _ _ _ _); simpl.
  - unfold double_spread. apply text_agrees_half_b.
    apply (text_agrees_same (blank_before_spread rd blank_w blank_h (sanitize_name base) st));
      [reflexivity|].
    now apply text_agrees_blank_before_spread.
  - revert H. now apply text_agrees_same.
Qed.

Lemma double_group_next i safe ext_lower :
  is_double_group_start image_files i safe ext_lower = true ->
  is_Some (image_files !! (i + 1)%nat).
Proof.
  unfold is_double_group_start. destruct (split_part safe) as [root letter].
  destruct (bool_decide _); [|discriminate].
  destruct (image_files !! (i + 1)%nat); [eauto|discriminate].
Qed.

(** The pages that one iteration adds to the spine are the pages of the
    files that it consumes, those without page document apart. *)
Lemma step_spine_pages i img_name st :
  image_files !! i = Some img_name ->
  text_agrees text0 st ->
  let i' := (step has_cover rd blank_w blank_h image_files i img_name st).1 in
  let st' := (step has_cover rd blank_w blank_h image_files i img_name st).2 in
  spine_pages (spine_items st')
  = spine_pages (spine_items st)
    ++ (page_id_of_image <$> List.filter (has_page text0) (take (i' - i) (drop i image_files))).
Proof.
  intros Hi Ht. pose proof (Ht (sanitize_name (splitext img_name).1)) as Hp.
  rewrite (drop_S _ _ _ Hi).
  unfold step. destruct (splitext img_name) as [base ext] eqn:Es. simpl in Hp.
  assert (Hhp : has_page text0 img_name
                = page_exists st (page_xhtml_filename (sanitize_name base))).
  { unfold has_page. now rewrite Es, Hp. }
  assert (Hid : page_id_of_image img_name = page_id_of (sanitize_name base)).
  { unfold page_id_of_image. now rewrite Es. }
  destruct (page_exists st _) eqn:Ep; simpl.
  2:{ replace (i + 1 - i)%nat with 1%nat by lia. simpl. rewrite Hhp. simpl.
      now rewrite app_nil_r. }
  destruct (has_cover && _); simpl.
  { replace (i + 1 - i)%nat with 1%nat by lia. simpl. rewrite Hhp. simpl.
    rewrite spine_pages_app, spine_pages_page. now rewrite Hid. }
  destruct (is_double_group_start _ _ _ _) eqn:Ed; simpl.
  - replace (i + 2 - i)%nat with 2%nat by lia.
    destruct (double_group_next _ _ _ Ed) as [img_b Hb].
    replace (S i) with (i + 1)%nat by lia. rewrite (drop_S _ _ _ Hb). simpl.
    rewrite Hhp. simpl.
    destruct (blank_before_spread_spec rd blank_w blank_h (sanitize_name base) st)
      as (Hsp & _ & _ & _ & Hex).
    unfold double_spread, half_b. rewrite Hb. simpl.
    destruct (splitext img_b) as [base_b ext_b] eqn:Eb.
    assert (Hpb : page_exists
                    (half_a img_name (sanitize_name base) (image_media_type (lower ext))
                       (page_xhtml_filename (sanitize_name base))
                       (blank_before_spread rd blank_w blank_h (sanitize_name base) st))
                    (page_xhtml_filename (sanitize_name base_b))
                  = has_page text0 img_b).
    { unfold has_page. rewrite Eb. simpl. rewrite <- Ht, <- Hex.
      now apply page_exists_same. }
    rewrite Hpb. destruct (has_page text0 img_b); simpl.
    + rewrite !spine_pages_app, Hsp, spine_pages_app, !spine_pages_page.
      unfold page_id_of_image at 2. rewrite Eb. simpl. rewrite Hid.
      destruct (side_mismatch rd st); rewrite ?spine_pages_blank; simpl;
        now rewrite <- !app_assoc.
    + rewrite !spine_pages_app, Hsp, spine_pages_app, !spine_pages_page. rewrite Hid.
      destruct (side_mismatch rd st); rewrite ?spine_pages_blank; simpl;
        now rewrite <- !app_assoc.
  - replace (i + 1 - i)%nat with 1%nat by lia. simpl. rewrite Hhp. simpl.
    rewrite spine_pages_app, spine_pages_page. now rewrite Hid.
Qed.

Lemma reachable_spine_pages printed i st :
  reachable has_cover rd blank_w blank_h image_files (initial_state text0 printed) i st ->
  text_agrees text0 st
  /\ spine_pages (spine_items st)
     = page_id_of_image <$> List.filter (has_page text0) (take i image_files).
Proof.
  induction 1 as [|i img st Hr [Ht IH] E].
  - split; [|reflexivity]. intros x. reflexivity.
  - split; [now apply text_agrees_step|].
    rewrite (step_spine_pages i img st E Ht), IH, <- fmap_app, <- List.filter_app.
    rewrite take_take_drop. do 3 f_equal.
    pose proof (step_advance has_cover rd blank_w blank_h image_files i img st). lia.
Qed.

End SpineContent.

(** The loop of [generate_content_opf] returns the state that it reaches at
    the end of the list of files. *)
Lemma generate_content_opf_ends has_cover reading_direction blank_w blank_h st :
  exists r j,
    generate_content_opf has_cover reading_direction blank_w blank_h st = Some r
    /\ cover_meta r = cover_meta_line has_cover (final r)
    /\ (length (list_image_files (images_dir st)) <= j)%nat
    /\ reachable has_cover (normalize_direction reading_direction) blank_w blank_h
         (list_image_files (images_dir st))
         (initial_state (text_dir st) (log st)) j (final r).
Proof.
  unfold generate_content_opf.
  destruct (traverse_total has_cover (normalize_direction reading_direction)
              blank_w blank_h (list_image_files (images_dir st))
              (length (list_image_files (images_dir st))) 0
              (initial_state (text_dir st) (log st))) as [s Hs]; [lia|].
  rewrite Hs.
  destruct (traverse_reachable _ _ _ _ _ _ _ _ _ _ (reachable_start _ _ _ _ _ _) Hs)
    as (j & Hj & Hend).
  eexists _, j. split_and!; [reflexivity|reflexivity| |exact Hj].
  now apply lookup_ge_None_1.
Qed.

(** X1: the spine lists the images in the order of their file names: its
    entries, the blank pages apart, are the pages of the image files that
    have a page document, each once and in the order of the sorted list; an
    image without page document is left out and nothing else is. *)
Theorem spine_lists_paged_images has_cover reading_direction blank_w blank_h st :
  exists r,
    generate_content_opf has_cover reading_direction blank_w blank_h st = Some r
    /\ spine_pages (spine_items (final r))
       = page_id_of_image
           <$> List.filter (has_page (text_dir st)) (list_image_files (images_dir st)).
Proof.
  destruct (generate_content_opf_ends has_cover reading_direction blank_w blank_h st)
    as (r & j & Hr & _ & Hj & Hreach).
  exists r. split; [exact Hr|].
  apply reachable_spine_pages in Hreach as [_ ->].
  now rewrite take_ge.
Qed.


Section SpineResolves.

Variable has_cover : bool.
Variable rd : pystr.
Variables blank_w blank_h : Z.
Variable image_files : list pystr.

Lemma resolves_mono manifest manifest' text text' ir :
  (forall it, it ∈ manifest -> it ∈ manifest') ->
  (forall f, is_Some (text !! f) -> is_Some (text' !! f)) ->
  resolves manifest text ir -> resolves manifest' text' ir.
Proof. intros Hm Ht (f & Hin & Hf). exists f. split; [now apply Hm|now apply Ht]. Qed.

Lemma spine_resolves_grow st st' :
  spine_items st' = spine_items st ->
  (forall it, it ∈ manifest_items st -> it ∈ manifest_items st') ->
  (forall f, is_Some (opf_text_dir st !! f) -> is_Some (opf_text_dir st' !! f)) ->
  spine_resolves_in st -> spine_resolves_in st'.
Proof.
  unfold spine_resolves_in. intros -> Hm Ht H.
  eapply Forall_impl; [exact H|]. intros ir. now apply resolves_mono.
Qed.

Lemma spine_resolves_add st st' safe_name side_of :
  page_exists st (page_xhtml_filename safe_name) = true ->
  spine_items st'
  = spine_items st ++ [ {| idref := page_id_of safe_name; page_spread := side_of |} ] ->
  (forall it,
     it ∈ manifest_items st \/ it = page_item safe_name (page_xhtml_filename safe_name) ->
     it ∈ manifest_items st') ->
  (forall f, is_Some (opf_text_dir st !! f) -> is_Some (opf_text_dir st' !! f)) ->
  spine_resolves_in st -> spine_resolves_in st'.
Proof.
  intros Hp%bool_decide_eq_true Hs Hm Ht H. unfold spine_resolves_in. rewrite Hs.
  apply Forall_app. split.
  - eapply Forall_impl; [exact H|]. intros ir. apply resolves_mono; auto.
  - repeat constructor. exists (page_xhtml_filename safe_name). split; [|auto].
    apply Hm. now right.
Qed.

Lemma spine_resolves_simple_page img_name safe_name media_type st :
  page_exists st (page_xhtml_filename safe_name) = true ->
  spine_resolves_in st ->
  spine_resolves_in
    (simple_page img_name safe_name media_type (page_xhtml_filename safe_name) st).
Proof.
  intros Hp H. eapply spine_resolves_add; [exact Hp|reflexivity| |auto|exact H].
  intros it. cbn [simple_page manifest_items manifest_append add_spine_page spine_append].
  rewrite !elem_of_app, !list_elem_of_singleton. clear. tauto.
Qed.

Lemma spine_resolves_blank_before_spread safe_name st :
  spine_resolves_in st ->
  spine_resolves_in (blank_before_spread rd blank_w blank_h safe_name st).
Proof.
  intros H. unfold blank_before_spread. destruct (_ && _); [|exact H].
  unfold spine_resolves_in, add_blank_page.
  cbn [spine_items manifest_items opf_text_dir spine_append manifest_append
         add_spine_page opf_print blank_counter].
  apply Forall_app. split.
  - eapply Forall_impl; [exact H|]. intros ir. apply resolves_mono.
    + intros it Hit. rewrite elem_of_app. auto.
    + intros f Hf. apply lookup_insert_is_Some. destruct (decide
        (py "page_blank_" ++ str_of_int (blank_counter st + 1) ++ py ".xhtml" = f)); auto.
  - repeat constructor.
    exists (py "page_blank_" ++ str_of_int (blank_counter st + 1) ++ py ".xhtml").
    split.
    + rewrite elem_of_app, list_elem_of_singleton. right. reflexivity.
    + rewrite lookup_insert_eq. eauto.
Qed.

Lemma page_exists_blank_before_spread safe_name st x :
  page_exists (blank_before_spread rd blank_w blank_h safe_name st) (page_xhtml_filename x)
  = page_exists st (page_xhtml_filename x).
Proof. now destruct (blank_before_spread_spec rd blank_w blank_h safe_name st) as (_&_&_&_&H). Qed.

Lemma spine_resolves_step i img_name st :
  spine_resolves_in st ->
  spine_resolves_in (step has_cover rd blank_w blank_h image_files i img_name st).2.
Proof.
  intros H. unfold step. destruct (splitext img_name) as [base ext].
  destruct (page_exists st _) eqn:Ep; simpl.
  2:{ revert H. now apply spine_resolves_grow. }
  destruct (has_cover && _); simpl.
  { eapply spine_resolves_add; [exact Ep|reflexivity| |auto|exact H].
    intros it. cbn [cover_case manifest_items manifest_append spine_append].
    rewrite !elem_of_app, !list_elem_of_singleton. tauto. }
  destruct (is_double_group_start _ _ _ _); simpl.
  - unfold double_spread.
    pose proof (spine_resolves_blank_before_spread (sanitize_name base) st H) as H1.
    assert (Ep1 : page_exists (blank_before_spread rd blank_w blank_h (sanitize_name base) st)
                    (page_xhtml_filename (sanitize_name base)) = true)
      by now rewrite page_exists_blank_before_spread.
    pose proof (spine_resolves_simple_page img_name (sanitize_name base)
                  (image_media_type (lower ext)) _ Ep1 H1) as H2.
    change (simple_page img_name (sanitize_name base) (image_media_type (lower ext))
              (page_xhtml_filename (sanitize_name base))
              (blank_before_spread rd blank_w blank_h (sanitize_name base) st))
      with (half_a img_name (sanitize_name base) (image_media_type (lower ext))
              (page_xhtml_filename (sanitize_name base))
              (blank_before_spread rd blank_w blank_h (sanitize_name base) st)) in H2.
    unfold half_b. destruct (splitext _) as [base_b ext_b].
    destruct (page_exists _ (page_xhtml_filename (sanitize_name base_b))) eqn:Eb; simpl.
    + now apply spine_resolves_simple_page.
    + revert H2. now apply spine_resolves_grow.
  - now apply spine_resolves_simple_page.
Qed.

End SpineResolves.

Lemma reachable_spine_resolves has_cover rd blank_w blank_h image_files st0 i st :
  spine_resolves_in st0 ->
  reachable has_cover rd blank_w blank_h image_files st0 i st ->
  spine_resolves_in st.
Proof.
  intros H0. induction 1 as [|i img st Hr IH E]; [exact H0|].
  now apply spine_resolves_step.
Qed.

(** X2: no entry of the spine dangles: every [itemref] that
    [generate_content_opf] writes, for a page of an image, for the cover or
    for a blank page, has an item of the same id in the manifest, of type
    [application/xhtml+xml], whose file exists in [Text] at the end of the
    run. *)
Theorem spine_entries_resolve has_cover reading_direction blank_w blank_h st :
  exists r,
    generate_content_opf has_cover reading_direction blank_w blank_h st = Some r
    /\ forall ir, ir ∈ spine_items (final r) ->
         exists file,
           {| item_id := idref ir; item_href := py "Text/" ++ file;
              item_media_type := py "application/xhtml+xml"; item_properties := None |}
             ∈ manifest_items (final r)
           /\ is_Some (opf_text_dir (final r) !! file).
Proof.
  destruct (generate_content_opf_ends has_cover reading_direction blank_w blank_h st)
    as (r & j & Hr & _ & _ & Hreach).
  exists r. split; [exact Hr|].
  apply reachable_spine_resolves in Hreach; [|constructor].
  intros ir Hir. exact (proj1 (Forall_forall _ _) Hreach ir Hir).
Qed.

Section BlankPages.

Variable has_cover : bool.
Variable rd : pystr.
Variables blank_w blank_h : Z.
Variable image_files : list pystr.

Lemma blanks_numbered_same st st' :
  blank_counter st' = blank_counter st ->
  spine_blanks (spine_items st') = spine_blanks (spine_items st) ->
  opf_text_dir st' = opf_text_dir st ->
  blanks_numbered blank_w blank_h st -> blanks_numbered blank_w blank_h st'.
Proof. unfold blanks_numbered. now intros -> -> ->. Qed.

Lemma blanks_numbered_simple_page img_name safe_name media_type xhtml_filename st :
  blanks_numbered blank_w blank_h st ->
  blanks_numbered blank_w blank_h
    (simple_page img_name safe_name media_type xhtml_filename st).
Proof.
  apply blanks_numbered_same; [reflexivity| |reflexivity].
  cbn [simple_page spine_items manifest_append add_spine_page spine_append].
  now rewrite spine_blanks_app, spine_blanks_page, app_nil_r.
Qed.

Lemma blanks_numbered_blank_before_spread safe_name st :
  blanks_numbered blank_w blank_h st ->
  blanks_numbered blank_w blank_h (blank_before_spread rd blank_w blank_h safe_name st).
Proof.
  intros (H0 & Hs & Hf). unfold blank_before_spread.
  destruct (_ && _); [|now split_and!].
  unfold blanks_numbered.
  cbn [add_blank_page spine_items manifest_append add_spine_page spine_append opf_print
         blank_counter opf_text_dir].
  split_and!.
  - lia.
  - rewrite spine_blanks_app, Hs.
    change {| idref := py "page_blank_" ++ str_of_int (blank_counter st + 1);
              page_spread := next_side st |}
      with (blank_itemref (blank_counter st + 1) (next_side st)).
    rewrite spine_blanks_blank, (seqZ_app 1 (blank_counter st) 1), fmap_app by lia.
    rewrite (seqZ_cons _ 1), (seqZ_nil _ (Z.pred 1)) by lia. simpl.
    now rewrite (Z.add_comm 1).
  - intros n Hn. unfold blank_file.
    destruct (decide (n = blank_counter st + 1)) as [->|Hne].
    + apply lookup_insert_eq.
    + rewrite lookup_insert. case_decide; [reflexivity|].
      apply Hf. lia.
Qed.

Lemma blanks_numbered_step i img_name st :
  blanks_numbered blank_w blank_h st ->
  blanks_numbered blank_w blank_h
    (step has_cover rd blank_w blank_h image_files i img_name st).2.
Proof.
  intros H. unfold step. destruct (splitext img_name) as [base ext].
  destruct (negb _); simpl; [revert H; now apply blanks_numbered_same|].
  destruct (has_cover && _); simpl.
  { revert H. apply blanks_numbered_same; [reflexivity| |reflexivity].
    cbn [cover_case spine_items manifest_append spine_append].
    now rewrite spine_blanks_app, spine_blanks_page, app_nil_r. }
  destruct (is_double_group_start _ _ _ _); simpl.
  - unfold double_spread, half_b. destruct (splitext _) as [base_b ext_b].
    destruct (negb _).
    + eapply blanks_numbered_same;
        [| | |apply (blanks_numbered_simple_page img_name),
                (blanks_numbered_blank_before_spread (sanitize_name base)), H];
        reflexivity.
    + apply (blanks_numbered_simple_page (default [] (image_files !! (i + 1)%nat))).
      apply (blanks_numbered_simple_page img_name).
      apply blanks_numbered_blank_before_spread, H.
  - apply blanks_numbered_simple_page, H.
Qed.

Lemma reachable_blanks_numbered st0 i st :
  blanks_numbered blank_w blank_h st0 ->
  reachable has_cover rd blank_w blank_h image_files st0 i st ->
  blanks_numbered blank_w blank_h st.
Proof.
  intros H0. induction 1 as [|i img st Hr IH E]; [exact H0|].
  now apply blanks_numbered_step.
Qed.

End BlankPages.

(** ** Integers and resolutions *)

Lemma uint_chars u : Forall int_char (py (NilEmpty.string_of_uint u)).
Proof.
  unfold py. induction u; simpl; constructor; try exact IHu;
    right; cbv; split; congruence.
Qed.

Lemma nilzero_uint_chars u : Forall int_char (py (NilZero.string_of_uint u)).
Proof.
  destruct u;
    [constructor; [right; cbv; split; congruence | constructor] | ..];
    match goal with
    | |- Forall _ (py (NilZero.string_of_uint ?v)) => exact (uint_chars v)
    end.
Qed.

Lemma str_of_int_chars n : Forall int_char (str_of_int n).
Proof.
  unfold str_of_int, NilZero.string_of_int.
  destruct (Z.to_int n) as [u|u].
  - apply nilzero_uint_chars.
  - change (Forall int_char (hyphen :: py (NilZero.string_of_uint u))).
    constructor; [now left|apply nilzero_uint_chars].
Qed.

Lemma int_char_ascii c : int_char c -> is_ascii c = true.
Proof. unfold int_char, is_ascii, hyphen. intros [->|H]; [reflexivity|]. apply N.ltb_lt. lia. Qed.

Lemma int_char_lower c : int_char c -> ascii_lower c = c.
Proof.
  unfold int_char, ascii_lower, hyphen. intros [->|H]; [reflexivity|].
  replace (65 <=? c)%N with false; [reflexivity|]. symmetry. apply N.leb_gt. lia.
Qed.

Lemma int_char_not_sep c : int_char c -> (c =? 120)%N = false.
Proof. unfold int_char, hyphen. intros [->|H]; [reflexivity|]. apply N.eqb_neq. lia. Qed.

Lemma py_cons a s : py (String.String a s) = N_of_ascii a :: py s.
Proof. reflexivity. Qed.

Lemma uint_string_head u :
  u ≠ Decimal.Nil ->
  exists c rest d,
    py (NilEmpty.string_of_uint u) = c :: rest
    /\ digit c = Some d /\ (c =? underscore)%N = false.
Proof.
  destruct u; [congruence|..]; intros _; cbn [NilEmpty.string_of_uint];
    rewrite py_cons; eexists _, _, _; split_and!; reflexivity.
Qed.

Lemma uint_of_digits_cons c d c' s :
  digit c = Some d -> (c' =? underscore)%N = false ->
  uint_of_digits (c :: c' :: s) = d <$> uint_of_digits (c' :: s).
Proof. intros Hd Hc. cbn [uint_of_digits]. now rewrite Hd, Hc. Qed.

Lemma uint_of_digits_string u :
  u ≠ Decimal.Nil -> uint_of_digits (py (NilEmpty.string_of_uint u)) = Some u.
Proof.
  induction u as [|u IH|u IH|u IH|u IH|u IH|u IH|u IH|u IH|u IH|u IH];
    intros Hn; [congruence|..].
  all: cbn [NilEmpty.string_of_uint]; rewrite py_cons.
  all: assert (u = Decimal.Nil \/ u ≠ Decimal.Nil) as [->|Hu]
         by (destruct u; [now left|right; congruence..]); [reflexivity|].
  all: specialize (IH Hu).
  all: destruct (uint_string_head u Hu) as (c & rest & d & E & _ & Hc).
  all: rewrite E in *.
  all: erewrite uint_of_digits_cons; [|reflexivity|exact Hc].
  all: now rewrite IH.
Qed.

Lemma digit_Some c d :
  digit c = Some d ->
  (c =? hyphen)%N = false /\ (c =? 43)%N = false /\ (c =? underscore)%N = false.
Proof.
  intros H. split_and!; apply N.eqb_neq; intros ->; discriminate H.
Qed.

Lemma split_on_no_sep sep s :
  Forall (fun c => (c =? sep)%N = false) s -> split_on sep s = [s].
Proof.
  induction 1 as [|c s Hc Hs IH]; [reflexivity|].
  cbn [split_on]. now rewrite Hc, IH.
Qed.

Lemma split_on_app sep s1 s2 :
  Forall (fun c => (c =? sep)%N = false) s1 ->
  split_on sep (s1 ++ sep :: s2) = s1 :: split_on sep s2.
Proof.
  induction 1 as [|c s Hc Hs IH]; simpl.
  - now rewrite N.eqb_refl.
  - now rewrite Hc, IH.
Qed.

Lemma split_on_length sep s :
  length (split_on sep s) = S (length (List.filter (fun c => (c =? sep)%N) s)).
Proof.
  induction s as [|c s IH]; [reflexivity|].
  cbn [split_on List.filter]. destruct (c =? sep)%N; simpl; [now rewrite IH|].
  destruct (split_on sep s); simpl in *; lia.
Qed.

Lemma count_lowered_separators s :
  length (List.filter (fun c => (c =? 120)%N) (map ascii_lower s)) = count_separators s.
Proof.
  unfold count_separators. induction s as [|c s IH]; [reflexivity|].
  cbn [map List.filter].
  assert (E : (ascii_lower c =? 120)%N = ((c =? 120)%N || (c =? 88)%N)).
  { unfold ascii_lower.
    destruct (N.eqb_spec c 120) as [->|H1]; [reflexivity|].
    destruct (N.eqb_spec c 88) as [->|H2]; [reflexivity|].
    destruct (_ && _) eqn:Er; simpl; apply N.eqb_neq; lia. }
  rewrite E. destruct (_ || _); simpl; now rewrite IH.
Qed.

Section IntFacts.

Variable unicode_isspace : N -> bool.
Variable unicode_int : pystr -> option Z.
Variable int_max_str_digits : nat.

Lemma int_char_not_space c : int_char c -> isspace unicode_isspace c = false.
Proof.
  intros H. unfold isspace. rewrite (int_char_ascii c H).
  unfold ascii_isspace. destruct H as [->|H]; [reflexivity|].
  repeat match goal with
         | |- context [(?a <=? ?b)%N] => destruct (N.leb_spec a b)
         | |- context [(?a =? ?b)%N] => destruct (N.eqb_spec a b)
         end; simpl; try reflexivity; lia.
Qed.

Lemma lstrip_id s :
  match s with [] => True | c :: _ => isspace unicode_isspace c = false end ->
  lstrip unicode_isspace s = s.
Proof. destruct s as [|c s]; [reflexivity|]. simpl. now intros ->. Qed.

Lemma strip_id s :
  Forall (fun c => isspace unicode_isspace c = false) s -> strip unicode_isspace s = s.
Proof.
  intros H. unfold strip, rstrip. rewrite (lstrip_id s) by now destruct H.
  rewrite (lstrip_id (rev s)); [apply rev_involutive|].
  apply Forall_rev in H. now destruct H.
Qed.

Lemma strip_int n : strip unicode_isspace (str_of_int n) = str_of_int n.
Proof.
  apply strip_id. eapply Forall_impl; [apply str_of_int_chars|].
  exact int_char_not_space.
Qed.

Lemma nilzero_uint_parse u :
  Z.of_uint <$> uint_of_digits (py (NilZero.string_of_uint u)) = Some (Z.of_uint u).
Proof.
  assert (u = Decimal.Nil \/ u ≠ Decimal.Nil) as [->|Hu]
    by (destruct u; [now left|right; congruence..]); [reflexivity|].
  replace (NilZero.string_of_uint u) with (NilEmpty.string_of_uint u) by now destruct u.
  now rewrite uint_of_digits_string.
Qed.

Lemma nilzero_uint_head u :
  exists c rest d, py (NilZero.string_of_uint u) = c :: rest /\ digit c = Some d.
Proof.
  assert (u = Decimal.Nil \/ u ≠ Decimal.Nil) as [->|Hu]
    by (destruct u; [now left|right; congruence..]).
  - eexists _, _, _. split; reflexivity.
  - replace (NilZero.string_of_uint u) with (NilEmpty.string_of_uint u) by now destruct u.
    destruct (uint_string_head u Hu) as (c & rest & d & E & Hd & _). eauto.
Qed.

(** [int(str(n))] is [n], as long as [n] is within the limit on digits. *)
Lemma py_int_str_of_int n :
  fits_int int_max_str_digits n ->
  py_int unicode_isspace unicode_int int_max_str_digits (str_of_int n) = Some n.
Proof.
  intros Hfit. unfold py_int.
  replace (forallb is_ascii (str_of_int n)) with true.
  2:{ symmetry. apply forallb_forall. intros c Hc%list_elem_of_In.
      apply int_char_ascii. revert c Hc. apply Forall_forall, str_of_int_chars. }
  rewrite strip_int.
  replace (bool_decide (int_max_str_digits = 0%nat)
           || bool_decide (count_digits (str_of_int n) <= int_max_str_digits)%nat)
    with true.
  2:{ symmetry. apply orb_true_iff. destruct Hfit as [H|H];
        [left|right]; now apply bool_decide_eq_true_2. }
  rewrite <- (DecimalZ.of_to n) at 2. unfold str_of_int, NilZero.string_of_int.
  destruct (Z.to_int n) as [u|u].
  - destruct (nilzero_uint_head u) as (c & rest & d & E & Hd).
    pose proof (nilzero_uint_parse u) as Hp. rewrite E in *.
    destruct (digit_Some c d Hd) as (-> & -> & _). exact Hp.
  - rewrite py_cons. change (N_of_ascii "-") with hyphen. rewrite N.eqb_refl.
    pose proof (nilzero_uint_parse u) as Hp.
    destruct (uint_of_digits _); [|discriminate Hp]. simpl in *.
    injection Hp as ->. reflexivity.
Qed.

(** X3: a resolution written as [<w>x<h>] (or with [X]) from two integers
    is read back as these integers by [parse_resolution], whatever the
    default, as long as their decimal forms are within the limit of
    [int]. *)
Theorem parse_resolution_round_trip w h sep default :
  sep = 120%N \/ sep = 88%N ->
  fits_int int_max_str_digits w ->
  fits_int int_max_str_digits h ->
  parse_resolution unicode_isspace unicode_int int_max_str_digits
    (str_of_int w ++ sep :: str_of_int h) default
  = (w, h).
Proof.
  intros Hsep Hw Hh. unfold parse_resolution.
  assert (Hl : lower (str_of_int w ++ sep :: str_of_int h)
               = str_of_int w ++ 120%N :: str_of_int h).
  { unfold lower.
    assert (Ha : Forall (fun c => is_ascii c = true /\ ascii_lower c = c) (str_of_int w)
                 /\ Forall (fun c => is_ascii c = true /\ ascii_lower c = c) (str_of_int h)).
    { split; (eapply Forall_impl; [apply str_of_int_chars|]); intros c Hc;
        split; [now apply int_char_ascii|now apply int_char_lower|
                now apply int_char_ascii|now apply int_char_lower]. }
    destruct Ha as [Ha Hb].
    replace (forallb is_ascii (str_of_int w ++ sep :: str_of_int h)) with true.
    2:{ symmetry. rewrite forallb_app. apply andb_true_iff. split.
        - apply forallb_forall. intros c Hc%list_elem_of_In.
          now apply (proj1 (Forall_forall _ _) Ha).
        - simpl. apply andb_true_iff. split; [now destruct Hsep as [->| ->]|].
          apply forallb_forall. intros c Hc%list_elem_of_In.
          now apply (proj1 (Forall_forall _ _) Hb). }
    rewrite map_app. cbn [map]. f_equal; [|f_equal].
    - rewrite <- (map_id (str_of_int w)) at 2. apply map_ext_Forall.
      eapply Forall_impl; [exact Ha|]. now intros c [_ ?].
    - now destruct Hsep as [->| ->].
    - rewrite <- (map_id (str_of_int h)) at 2. apply map_ext_Forall.
      eapply Forall_impl; [exact Hb|]. now intros c [_ ?]. }
  rewrite Hl, split_on_app, split_on_no_sep.
  - now rewrite !strip_int, !py_int_str_of_int.
  - eapply Forall_impl; [apply str_of_int_chars|]. exact int_char_not_sep.
  - eapply Forall_impl; [apply str_of_int_chars|]. exact int_char_not_sep.
Qed.

(** X4: an ASCII string that does not hold exactly one separator [x] or [X]
    is no resolution: [parse_resolution] returns the default. *)
Theorem parse_resolution_default res_str default :
  forallb is_ascii res_str = true ->
  count_separators res_str ≠ 1%nat ->
  parse_resolution unicode_isspace unicode_int int_max_str_digits res_str default
  = default.
Proof.
  intros Ha Hc. unfold parse_resolution, lower. rewrite Ha.
  pose proof (split_on_length 120 (map ascii_lower res_str)) as Hl.
  rewrite count_lowered_separators in Hl.
  destruct (split_on 120 (map ascii_lower res_str)) as [|p0 [|p1 [|p2 parts]]];
    try reflexivity.
  simpl in Hl. lia.
Qed.

End IntFacts.

(** Two integers with the same decimal form are equal. *)
Lemma str_of_int_inj a b : str_of_int a = str_of_int b -> a = b.
Proof.
  intros E.
  pose proof (py_int_str_of_int (fun _ => false) (fun _ => None) 0 a (or_introl eq_refl)) as Ha.
  pose proof (py_int_str_of_int (fun _ => false) (fun _ => None) 0 b (or_introl eq_refl)) as Hb.
  rewrite E in Ha. congruence.
Qed.


(** ** Blank pages and the cover *)

Lemma blank_id_inj a b : blank_id a = blank_id b -> a = b.
Proof. unfold blank_id. intros E%app_inv_head. now apply str_of_int_inj. Qed.

Lemma blanks_numbered_initial blank_w blank_h text printed :
  blanks_numbered blank_w blank_h (initial_state text printed).
Proof. unfold blanks_numbered. simpl. split_and!; [lia|reflexivity|intros n Hn; lia]. Qed.

(** X5: the blank pages of a run are numbered without gap nor repetition:
    the blank entries of the spine are [page_blank_1] to [page_blank_n] in
    this order, [n] being the final [blank_counter]; they are pairwise
    distinct; and each has its file [page_blank_<k>.xhtml] in [Text], an
    empty page whose viewport is the resolution that [parse_resolution]
    reads off [original_resolution]. *)
Theorem blank_pages_numbered unicode_isspace unicode_int int_max_str_digits
    has_cover reading_direction original_resolution st :
  exists r,
    generate_content_opf_at unicode_isspace unicode_int int_max_str_digits
      has_cover reading_direction original_resolution st = Some r
    /\ 0 <= blank_counter (final r)
    /\ spine_blanks (spine_items (final r)) = blank_id <$> seqZ 1 (blank_counter (final r))
    /\ NoDup (spine_blanks (spine_items (final r)))
    /\ forall k, 1 <= k <= blank_counter (final r) ->
         exists doc,
           opf_text_dir (final r) !! blank_file k = Some doc
           /\ (viewport_w doc, viewport_h doc)
              = parse_resolution unicode_isspace unicode_int int_max_str_digits
                  original_resolution default_resolution
           /\ img_src doc = None.
Proof.
  unfold generate_content_opf_at.
  destruct (parse_resolution _ _ _ original_resolution default_resolution)
    as [blank_w blank_h].
  destruct (generate_content_opf_ends has_cover reading_direction blank_w blank_h st)
    as (r & j & Hr & _ & _ & Hreach).
  exists r. split; [exact Hr|].
  apply (reachable_blanks_numbered _ _ blank_w blank_h) in Hreach;
    [|apply blanks_numbered_initial].
  destruct Hreach as (H0 & Hs & Hf). split_and!; [exact H0|exact Hs| |].
  - rewrite Hs. apply NoDup_fmap_2; [exact blank_id_inj|apply NoDup_seqZ].
  - intros k Hk. exists (blank_page_doc blank_w blank_h). split; [now apply Hf|].
    now split.
Qed.


Section CoverPlaced.

Variable rd : pystr.
Variables blank_w blank_h : Z.
Variable image_files : list pystr.
Variable cover_entry : itemref.
Variable cover_item : manifest_item.

Lemma cover_placed_same st st' :
  spine_items st' = spine_items st ->
  cover_image_id st' = cover_image_id st ->
  (forall it, it ∈ manifest_items st -> it ∈ manifest_items st') ->
  next_side st' = next_side st ->
  cover_placed cover_entry cover_item st -> cover_placed cover_entry cover_item st'.
Proof.
  unfold cover_placed. intros -> -> Hm ->. intros (Hs & Hc & Hi & Hn). auto.
Qed.

Lemma cover_placed_page img_name safe_name media_type xhtml_filename st :
  cover_placed cover_entry cover_item st ->
  cover_placed cover_entry cover_item
    (simple_page img_name safe_name media_type xhtml_filename st).
Proof.
  unfold cover_placed.
  cbn [simple_page spine_items manifest_items cover_image_id next_side manifest_append
         add_spine_page spine_append].
  intros ((rest & -> & Hr) & Hc & Hi & Hn). split_and!.
  - eexists. split; [apply app_comm_cons|].
    apply Forall_app. split; [exact Hr|]. repeat constructor. exact Hn.
  - exact Hc.
  - rewrite !elem_of_app. auto.
  - now destruct (bool_decide _).
Qed.

Lemma cover_placed_blank_before_spread safe_name st :
  cover_placed cover_entry cover_item st ->
  cover_placed cover_entry cover_item (blank_before_spread rd blank_w blank_h safe_name st).
Proof.
  intros H. unfold blank_before_spread. destruct (_ && _); [|exact H].
  revert H. unfold cover_placed.
  cbn [add_blank_page spine_items manifest_items cover_image_id next_side manifest_append
         add_spine_page spine_append opf_print].
  intros ((rest & -> & Hr) & Hc & Hi & Hn). split_and!.
  - eexists. split; [apply app_comm_cons|].
    apply Forall_app. split; [exact Hr|]. repeat constructor. exact Hn.
  - exact Hc.
  - rewrite !elem_of_app. auto.
  - now destruct (bool_decide _).
Qed.

Lemma cover_placed_step i img_name st :
  i ≠ 0%nat ->
  cover_placed cover_entry cover_item st ->
  cover_placed cover_entry cover_item
    (step true rd blank_w blank_h image_files i img_name st).2.
Proof.
  intros Hi H. rewrite step_after_first by exact Hi.
  unfold step. destruct (splitext img_name) as [base ext].
  destruct (negb _); simpl.
  { revert H. apply cover_placed_same; auto. }
  destruct (is_double_group_start _ _ _ _); simpl.
  - unfold double_spread, half_b. destruct (splitext _) as [base_b ext_b].
    destruct (negb _).
    + eapply cover_placed_same;
        [| | | |apply (cover_placed_page img_name),
                  (cover_placed_blank_before_spread (sanitize_name base)), H];
        auto.
    + apply (cover_placed_page (default [] (image_files !! (i + 1)%nat))).
      apply (cover_placed_page img_name).
      apply cover_placed_blank_before_spread, H.
  - apply cover_placed_page, H.
Qed.

Lemma traverse_cover_placed fuel i st r :
  i ≠ 0%nat ->
  cover_placed cover_entry cover_item st ->
  traverse true rd blank_w blank_h image_files fuel i st = Some r ->
  cover_placed cover_entry cover_item r.
Proof.
  revert i st. induction fuel as [|fuel IH]; intros i st Hi H; simpl.
  - destruct (image_files !! i); [discriminate|]. now intros [= <-].
  - destruct (image_files !! i) as [img|]; [|now intros [= <-]].
    pose proof (cover_placed_step i img st Hi H) as Hs.
    pose proof (step_advance true rd blank_w blank_h image_files i img st) as Ha.
    destruct (step true rd blank_w blank_h image_files i img st) as [i' st'].
    simpl in *. apply IH; [lia|exact Hs].
Qed.

End CoverPlaced.

(** X6: when a cover is asked for and the first image file in the order of
    the names has its page document, that page opens the spine, centered,
    and no other entry is centered; the image is declared in the manifest
    under the id [cover] with the property [cover-image], and the metadata
    get their cover line. *)
Theorem cover_opens_the_spine reading_direction blank_w blank_h st first :
  list_image_files (images_dir st) !! 0%nat = Some first ->
  has_page (text_dir st) first = true ->
  exists r rest,
    generate_content_opf true reading_direction blank_w blank_h st = Some r
    /\ spine_items (final r)
       = {| idref := page_id_of_image first; page_spread := Center |} :: rest
    /\ Forall (fun ir => page_spread ir ≠ Center) rest
    /\ {| item_id := py "cover"; item_href := py "Images/" ++ first;
          item_media_type := image_media_type (lower (splitext first).2);
          item_properties := Some (py "cover-image") |} ∈ manifest_items (final r)
    /\ cover_image_id (final r) = Some (py "cover")
    /\ is_Some (cover_meta r).
Proof.
  intros Hfirst Hpage. unfold generate_content_opf.
  set (files := list_image_files (images_dir st)) in *.
  set (d := normalize_direction reading_direction).
  set (st0 := initial_state (text_dir st) (log st)).
  destruct (traverse_total true d blank_w blank_h files (length files) 0 st0) as [s Hs];
    [lia|].
  rewrite Hs.
  destruct (length files) as [|fuel] eqn:El.
  { apply length_zero_iff_nil in El. rewrite El in Hfirst. discriminate. }
  simpl in Hs. rewrite Hfirst in Hs.
  assert (Hstep : step true d blank_w blank_h files 0 first st0
                  = (1%nat,
                     cover_case first (sanitize_name (splitext first).1)
                       (lower (splitext first).2)
                       (page_xhtml_filename (sanitize_name (splitext first).1)) st0)).
  { unfold step. rewrite (surjective_pairing (splitext first)).
    unfold has_page in Hpage. unfold page_exists. simpl opf_text_dir.
    now rewrite Hpage. }
  rewrite Hstep in Hs.
  apply (traverse_cover_placed d blank_w blank_h files
           {| idref := page_id_of_image first; page_spread := Center |}
           {| item_id := py "cover"; item_href := py "Images/" ++ first;
              item_media_type := image_media_type (lower (splitext first).2);
              item_properties := Some (py "cover-image") |}) in Hs; [|discriminate|].
  - destruct Hs as ((rest & Hsp & Hr) & Hc & Hi & _).
    eexists _, rest. split; [reflexivity|]. simpl.
    split_and!; try assumption.
    unfold cover_meta_line. rewrite Hc. eauto.
  - unfold cover_placed. simpl. split_and!.
    + exists []. split; [reflexivity|constructor].
    + reflexivity.
    + apply list_elem_of_In. simpl. tauto.
    + discriminate.
Qed.


(** ** The names of the halves *)

Lemma rfind_None c s : c ∉ s -> rfind c s = None.
Proof.
  induction s as [|x s IH]; [reflexivity|].
  rewrite not_elem_of_cons. intros [Hx Hs]. simpl. rewrite (IH Hs).
  destruct (N.eqb_spec x c); congruence.
Qed.

Lemma rfind_last c s1 s2 : c ∉ s2 -> rfind c (s1 ++ c :: s2) = Some (length s1).
Proof.
  intros Hs. induction s1 as [|x s1 IH]; simpl.
  - now rewrite (rfind_None _ _ Hs), N.eqb_refl.
  - now rewrite IH.
Qed.

Lemma rfind_Some c s k :
  rfind c s = Some k ->
  exists s1 s2, s = s1 ++ c :: s2 /\ length s1 = k /\ c ∉ s2.
Proof.
  revert k. induction s as [|x s IH]; intros k; [discriminate|].
  simpl. destruct (rfind c s) as [j|] eqn:E.
  - intros [= <-]. destruct (IH j eq_refl) as (s1 & s2 & -> & <- & Hs).
    now exists (x :: s1), s2.
  - destruct (N.eqb_spec x c) as [->|Hx]; [|discriminate].
    intros [= <-]. exists [], s. split_and!; [reflexivity..|].
    clear IH. induction s as [|y s IH]; [apply not_elem_of_nil|].
    simpl in E. destruct (rfind c s); [discriminate|].
    destruct (N.eqb_spec y c); [discriminate|].
    apply not_elem_of_cons. split; [congruence|now apply IH].
Qed.

Lemma rfind_not_None c s : rfind c s = None -> c ∉ s.
Proof.
  induction s as [|x s IH]; [intros _; apply not_elem_of_nil|].
  simpl. destruct (rfind c s); [discriminate|].
  destruct (N.eqb_spec x c); [discriminate|]. intros _.
  apply not_elem_of_cons. split; [congruence|now apply IH].
Qed.

(** The extension that [splitext] cuts off is empty or has the shape of an
    extension. *)
Lemma splitext_extension p : (splitext p).2 = [] \/ is_extension (splitext p).2.
Proof.
  unfold splitext. destruct (rfind dot p) as [k|] eqn:Ed; [|now left].
  destruct (bool_decide _ && negb _) eqn:Ec; [|now left]. right. simpl.
  apply andb_true_iff in Ec as [Hk%bool_decide_eq_true _].
  destruct (rfind_Some _ _ _ Ed) as (s1 & s2 & -> & <- & Hdot).
  rewrite drop_app_length. exists s2. split_and!; [reflexivity|exact Hdot|].
  destruct (rfind slash (s1 ++ dot :: s2)) as [j|] eqn:Es.
  - destruct (rfind_Some _ _ _ Es) as (t1 & t2 & Et & <- & Hslash).
    assert (Hs2 : s2 = drop (length s1 - length t1) t2).
    { transitivity (drop (length s1 + 1) (s1 ++ dot :: s2)).
      - now rewrite drop_app_add.
      - rewrite Et.
        replace (length s1 + 1)%nat with (length t1 + S (length s1 - length t1))%nat by lia.
        now rewrite drop_app_add. }
    rewrite Hs2. intros Hin. apply Hslash. revert Hin. apply subseteq_drop.
  - apply rfind_not_None in Es. rewrite not_elem_of_app, not_elem_of_cons in Es.
    exact (proj2 (proj2 Es)).
Qed.

Lemma sanitize_char_not c x :
  isalnum x = false -> x ≠ underscore -> x ≠ hyphen -> sanitize_char c ≠ x.
Proof.
  intros Ha Hu Hh. unfold sanitize_char.
  destruct (isalnum c || (c =? underscore)%N || (c =? hyphen)%N) eqn:E; [|congruence].
  intros ->. rewrite Ha in E. simpl in E.
  apply orb_true_iff in E as [E|E]; apply N.eqb_eq in E; congruence.
Qed.

(** A sanitized name holds no dot and no path separator. *)
Lemma sanitize_name_plain name :
  (dot ∉ sanitize_name name) /\ (slash ∉ sanitize_name name).
Proof.
  unfold sanitize_name. split; intros (c & E & _)%list_elem_of_fmap;
    symmetry in E; revert E; now apply sanitize_char_not.
Qed.

(** A name without dot and path separator, followed by an extension, is
    split again into the two by [splitext]. *)
Lemma splitext_join name ext :
  name ≠ [] -> dot ∉ name -> slash ∉ name -> is_extension ext ->
  splitext (name ++ ext) = (name, ext).
Proof.
  intros Hne Hdot Hslash (rest & -> & Hd & Hs). unfold splitext.
  rewrite (rfind_None slash) by
    (rewrite not_elem_of_app, not_elem_of_cons; split_and!; [exact Hslash|discriminate|exact Hs]).
  rewrite (rfind_last dot name rest Hd).
  rewrite bool_decide_eq_true_2 by lia. rewrite Nat.sub_0_r, drop_0.
  rewrite !take_app_length, drop_app_length.
  destruct name as [|c name]; [congruence|].
  apply not_elem_of_cons in Hdot as [Hc _]. cbn [forallb].
  destruct (N.eqb_spec dot c); [congruence|]. reflexivity.
Qed.

Lemma sanitize_name_app a b : sanitize_name (a ++ b) = sanitize_name a ++ sanitize_name b.
Proof. unfold sanitize_name. apply map_app. Qed.

Lemma sanitize_name_again x : sanitize_name (sanitize_name x) = sanitize_name x.
Proof.
  unfold sanitize_name. rewrite map_map. apply map_ext. intros c. apply sanitize_char_idem.
Qed.

(** The name of a half is split by [splitext] into the base with its
    suffix and the extension of the original, and sanitizing the base again
    changes nothing. *)
Lemma half_name_splits name letter ext :
  letter = py "a" \/ letter = py "b" ->
  is_extension ext ->
  let base := sanitize_name name ++ py "_" ++ letter in
  splitext (base ++ ext) = (base, ext) /\ sanitize_name base = base.
Proof.
  intros Hl Hext base. destruct (sanitize_name_plain name) as [Hd Hs]. split.
  - apply splitext_join; [| | |exact Hext].
    + unfold base. destruct (sanitize_name name); destruct Hl as [-> | ->]; discriminate.
    + unfold base. rewrite not_elem_of_app. split; [exact Hd|].
      destruct Hl as [-> | ->]; compute_done.
    + unfold base. rewrite not_elem_of_app. split; [exact Hs|].
      destruct Hl as [-> | ->]; compute_done.
  - unfold base. rewrite sanitize_name_app, sanitize_name_again. f_equal.
    destruct Hl as [-> | ->]; reflexivity.
Qed.

Lemma endswith_app s suffix : endswith (s ++ suffix) suffix = true.
Proof.
  unfold endswith. rewrite length_app. apply andb_true_iff. split.
  - apply bool_decide_eq_true_2. lia.
  - apply bool_decide_eq_true_2.
    replace (length s + length suffix - length suffix)%nat with (length s) by lia.
    apply drop_app_length.
Qed.

Lemma split_part_half safe letter :
  letter = py "a" \/ letter = py "b" ->
  split_part (safe ++ py "_" ++ letter) = (safe, Some letter).
Proof.
  intros Hl. unfold split_part.
  replace (endswith (safe ++ py "_" ++ letter) (py "_a")
           || endswith (safe ++ py "_" ++ letter) (py "_b")) with true.
  2:{ symmetry. apply orb_true_iff.
      destruct Hl as [-> | ->]; [left|right]; apply (endswith_app safe). }
  unfold drop_last2, last_char. f_equal.
  - rewrite length_app.
    replace (length safe + length (py "_" ++ letter) - 2)%nat with (length safe)
      by (destruct Hl as [-> | ->]; simpl; lia).
    apply take_app_length.
  - f_equal. rewrite app_assoc, length_app.
    replace (length (safe ++ py "_") + length letter - 1)%nat with (length (safe ++ py "_"))
      by (destruct Hl as [-> | ->]; simpl; lia).
    apply drop_app_length.
Qed.

(** X7: the naming contract between the splitter and the builder.  The two
    files [<base>_a<ext>] and [<base>_b<ext>] that the splitter writes for a
    double page, [<base>] being a sanitized name, are taken by the builder
    as one double spread whenever they are neighbours in the list of files,
    the first has its page document and it is not the cover. *)
Theorem halves_form_a_double_spread has_cover image_files i name ext st :
  let safe := sanitize_name name in
  let file_a := safe ++ py "_a" ++ ext in
  let file_b := safe ++ py "_b" ++ ext in
  is_extension ext ->
  image_files !! i = Some file_a ->
  image_files !! (i + 1)%nat = Some file_b ->
  has_cover && bool_decide (i = 0%nat) = false ->
  is_Some (opf_text_dir st !! page_xhtml_filename (safe ++ py "_a")) ->
  double_spread_at has_cover image_files i file_a st = true.
Proof.
  intros safe file_a file_b Hext Ha Hb Hc Hp.
  destruct (half_name_splits name (py "a") ext (or_introl eq_refl) Hext) as [Esa Eia].
  destruct (half_name_splits name (py "b") ext (or_intror eq_refl) Hext) as [Esb Eib].
  fold safe in Esa, Eia, Esb, Eib.
  assert (Efa : file_a = (safe ++ py "_" ++ py "a") ++ ext)
    by (unfold file_a; now rewrite <- !app_assoc).
  assert (Efb : file_b = (safe ++ py "_" ++ py "b") ++ ext)
    by (unfold file_b; now rewrite <- !app_assoc).
  unfold double_spread_at. rewrite Efa, Esa. cbn [fst snd]. rewrite Eia.
  rewrite Hc. unfold page_exists.
  rewrite (bool_decide_eq_true_2 _ Hp). cbn [andb negb].
  unfold is_double_group_start.
  rewrite (split_part_half safe (py "a") (or_introl eq_refl)).
  rewrite bool_decide_eq_true_2 by reflexivity.
  rewrite Hb, Efb, Esb, Eib.
  now rewrite !bool_decide_eq_true_2.
Qed.


(** ** The division of the ratio *)

Lemma digits2_pos_size p : digits2_pos p = Pos.size p.
Proof. induction p as [p IH|p IH|]; cbn [digits2_pos Pos.size]; now rewrite ?IH. Qed.

Lemma Zdigits2_log2 m : 0 < m -> Zdigits2 m = Z.log2 m + 1.
Proof.
  destruct m as [|p|p]; try lia. intros _. cbn [Zdigits2]. rewrite digits2_pos_size.
  destruct p as [p|p|]; cbn [Pos.size Z.log2]; lia.
Qed.

Lemma Zdigits2_nonneg m : 0 <= Zdigits2 m.
Proof. destruct m; cbn [Zdigits2]; lia. Qed.

Lemma Zdigits2_le m n : 0 <= m <= n -> Zdigits2 m <= Zdigits2 n.
Proof.
  intros [Hm Hn]. destruct (Z.eq_dec m 0) as [->|Hne]; [apply Zdigits2_nonneg|].
  rewrite !Zdigits2_log2 by lia. pose proof (Z.log2_le_mono m n Hn). lia.
Qed.

Lemma Zdigits2_succ m : 0 <= m -> Zdigits2 (m + 1) <= Zdigits2 m + 1.
Proof.
  intros Hm. destruct (Z.eq_dec m 0) as [->|Hne]; [vm_compute; discriminate|].
  rewrite !Zdigits2_log2 by lia. pose proof (Z.log2_succ_le m) as H. unfold Z.succ in H. lia.
Qed.

Lemma Zdigits2_shiftl m s : 0 < m -> 0 <= s -> Zdigits2 (Z.shiftl m s) = Zdigits2 m + s.
Proof.
  intros Hm Hs. assert (0 < Z.shiftl m s) by (rewrite Z.shiftl_mul_pow2 by lia; nia).
  rewrite !Zdigits2_log2 by lia. rewrite Z.log2_shiftl by lia. lia.
Qed.

Lemma Zdigits2_shiftr m n :
  0 <= m -> 0 <= n -> Zdigits2 (Z.shiftr m n) <= Z.max 0 (Zdigits2 m - n).
Proof.
  intros Hm Hn. pose proof (Z.shiftr_nonneg m n) as Hs.
  destruct (Z.eq_dec (Z.shiftr m n) 0) as [->|Hne]; [change (Zdigits2 0) with 0; lia|].
  assert (0 < m) by (destruct (Z.eq_dec m 0) as [->|]; [now rewrite Z.shiftr_0_l in Hne|lia]).
  destruct (Z_lt_le_dec (Z.log2 m) n) as [Hlt|Hle];
    [now rewrite Z.shiftr_eq_0 in Hne by lia|].
  rewrite !Zdigits2_log2 by lia. rewrite Z.log2_shiftr by lia. lia.
Qed.

Lemma shr_1_m mrs : 0 <= shr_m mrs -> shr_m (shr_1 mrs) = Z.shiftr (shr_m mrs) 1.
Proof.
  destruct mrs as [m r s]. cbn [shr_m]. intros Hm.
  destruct m as [|[p|p|]|p]; try lia; reflexivity.
Qed.

Lemma shr_1_nonneg mrs : 0 <= shr_m mrs -> 0 <= shr_m (shr_1 mrs).
Proof. intros H. rewrite shr_1_m by exact H. now apply Z.shiftr_nonneg. Qed.

Lemma iter_pos_shr_1_m p mrs :
  0 <= shr_m mrs -> shr_m (SpecFloat.iter_pos shr_1 p mrs) = Z.shiftr (shr_m mrs) (Zpos p).
Proof.
  revert mrs. induction p as [p IH|p IH|]; intros mrs Hm; cbn [SpecFloat.iter_pos].
  - pose proof (shr_1_nonneg mrs Hm) as H1.
    assert (H2 : 0 <= shr_m (SpecFloat.iter_pos shr_1 p (shr_1 mrs)))
      by (rewrite IH by exact H1; now apply Z.shiftr_nonneg).
    rewrite (IH _ H2), (IH _ H1), shr_1_m by exact Hm.
    rewrite !Z.shiftr_shiftr by lia. f_equal. lia.
  - assert (H2 : 0 <= shr_m (SpecFloat.iter_pos shr_1 p mrs))
      by (rewrite IH by exact Hm; now apply Z.shiftr_nonneg).
    rewrite (IH _ H2), (IH _ Hm).
    rewrite !Z.shiftr_shiftr by lia. f_equal. lia.
  - now apply shr_1_m.
Qed.

Lemma shr_record_of_loc_m m l : shr_m (shr_record_of_loc m l) = m.
Proof. now destruct l as [|[]]. Qed.

(** What [shr_fexp] leaves: a mantissa that is not negative, with no more
    digits above its exponent than before, and an exponent within the
    format as soon as the number is. *)
Lemma shr_fexp_bounds m e l :
  0 <= m ->
  let '(mrs, e') := shr_fexp prec emax m e l in
  0 <= shr_m mrs
  /\ Zdigits2 (shr_m mrs) + e' <= Z.max (e' ) (Zdigits2 m + e)
  /\ e' <= Z.max e (fexp prec emax (Zdigits2 m + e)).
Proof.
  intros Hm. unfold shr_fexp, shr.
  destruct (fexp prec emax (Zdigits2 m + e) - e) as [|n|n] eqn:En;
    rewrite ?shr_record_of_loc_m; try (split_and!; [exact Hm|lia|lia]).
  rewrite iter_pos_shr_1_m, shr_record_of_loc_m by now rewrite shr_record_of_loc_m.
  split_and!; [now apply Z.shiftr_nonneg| |lia].
  pose proof (Zdigits2_shiftr m (Zpos n) Hm ltac:(lia)). lia.
Qed.

Lemma round_nearest_even_bounds m l :
  0 <= m ->
  0 <= round_nearest_even m l /\ Zdigits2 (round_nearest_even m l) <= Zdigits2 m + 1.
Proof.
  intros Hm. pose proof (Zdigits2_succ m Hm).
  unfold round_nearest_even. destruct l as [|[]]; try destruct (Z.even m); split; lia.
Qed.

Lemma fexp_le d : d <= 1024 -> fexp prec emax d <= 971.
Proof. unfold fexp, SpecFloat.emin, prec, emax. lia. Qed.

(** Rounding does not overflow below [2^1023]. *)
Lemma binary_round_aux_finite s m e l :
  0 <= m -> e <= 971 -> Zdigits2 m + e <= 1023 ->
  forall s', binary_round_aux prec emax s m e l <> S754_infinity s'.
Proof.
  intros Hm He Hd s'. unfold binary_round_aux.
  pose proof (shr_fexp_bounds m e l Hm) as H1.
  destruct (shr_fexp prec emax m e l) as [mrs1 e1]. destruct H1 as (Hm1 & Hd1 & He1).
  pose proof (round_nearest_even_bounds (shr_m mrs1) (loc_of_shr_record mrs1) Hm1)
    as [Hr Hdr].
  set (m2 := round_nearest_even (shr_m mrs1) (loc_of_shr_record mrs1)) in *.
  pose proof (shr_fexp_bounds m2 e1 loc_Exact Hr) as H2.
  destruct (shr_fexp prec emax m2 e1 loc_Exact) as [mrs2 e2]. destruct H2 as (_ & _ & He2).
  pose proof (fexp_le (Zdigits2 m + e) ltac:(lia)).
  assert (e1 <= 971) by lia.
  pose proof (fexp_le (Zdigits2 m2 + e1) ltac:(lia)).
  destruct (shr_m mrs2); [discriminate| |discriminate].
  replace (e2 <=? emax - prec) with true; [discriminate|].
  symmetry. apply Z.leb_le. unfold emax, prec. lia.
Qed.

(** A division of integers whose dividend is below [2^1023] in size does
    not overflow. *)
Lemma int_true_divide_finite a b :
  0 < b -> - 2 ^ 1023 < a < 2 ^ 1023 -> is_Some (int_true_divide a b).
Proof.
  intros Hb Ha. unfold int_true_divide.
  replace (b =? 0) with false by (symmetry; apply Z.eqb_neq; lia).
  assert (Hfin : forall s', SFdiv prec emax (spec_of_int a) (spec_of_int b)
                            <> S754_infinity s').
  { destruct b as [|mb|mb]; try lia. clear Hb.
    assert (Hcore : forall ma sx s', Z.pos ma < 2 ^ 1023 ->
              SFdiv prec emax (S754_finite sx ma 0) (S754_finite false mb 0)
              <> S754_infinity s').
    { intros ma sx s' Hma. cbn [SFdiv]. unfold SFdiv_core_binary.
      set (e' := Z.min _ _).
      assert (He' : e' <= 0) by (unfold e'; lia).
      set (m' := match 0 - 0 - e' with Z.pos _ => _ | Z0 => _ | Z.neg _ => _ end).
      assert (Hm' : 0 < m' /\ Zdigits2 m' = Zdigits2 (Z.pos ma) - e').
      { unfold m'. destruct (0 - 0 - e') as [|k|k] eqn:Es; cbv iota; [| |lia].
        - split; lia.
        - rewrite <- Es. split.
          + rewrite Z.shiftl_mul_pow2 by lia.
            pose proof (Z.pow_pos_nonneg 2 (0 - 0 - e') ltac:(lia) ltac:(lia)). nia.
          + rewrite Zdigits2_shiftl by lia. lia. }
      destruct Hm' as [Hpos Hdig].
      pose proof (Z.div_pos m' (Z.pos mb) ltac:(lia) ltac:(lia)) as Hq.
      assert (Hqle : m' / Z.pos mb <= m')
        by (apply Z.div_le_upper_bound; [lia|nia]).
      unfold Z.div in Hq, Hqle. destruct (Z.div_eucl m' (Z.pos mb)) as [q r].
      cbn [fst] in Hq, Hqle.
      apply binary_round_aux_finite; [exact Hq|lia|].
      pose proof (Zdigits2_le q m' ltac:(lia)).
      assert (Zdigits2 (Z.pos ma) <= 1023).
      { rewrite Zdigits2_log2 by lia.
        pose proof (Z.log2_lt_pow2 (Z.pos ma) 1023 ltac:(lia)). lia. }
      lia. }
    destruct a as [|ma|ma]; intros s'; cbn [spec_of_int].
    - discriminate.
    - apply Hcore. lia.
    - apply Hcore. lia. }
  destruct (SFdiv prec emax (spec_of_int a) (spec_of_int b)) eqn:E; eauto.
  exfalso. now apply (Hfin s).
Qed.

(** ** The splitter, image by image and as a whole *)

Section SplitterRun.

Variable faults : Faults.
Variables fallback_width fallback_height : Z.
Variable double_page_ratio : float.
Variable reading_direction : pystr.

Lemma isfile_lookup images filename :
  isfile images filename = true -> exists content, images !! filename = Some (File content).
Proof. unfold isfile. destruct (images !! filename) as [[|c]|]; try discriminate. eauto. Qed.

(** The directories after an image is kept as one page. *)
Lemma process_image_unsplit filename st :
  let safe := sanitize_name (splitext filename).1 in
  let size := (probe_size fallback_width fallback_height filename st).1 in
  isfile (images_dir st) filename = true ->
  lower (splitext filename).2 ∈ xhtml_image_extensions ->
  is_Some (ratio size.1 size.2) ->
  open_image st filename = None
  \/ is_double_page double_page_ratio size.1 size.2 && (size.1 >? 1) = false ->
  write_ok faults (page_xhtml_filename safe) = true ->
  exists st',
    process_image faults fallback_width fallback_height double_page_ratio
      reading_direction filename st = Some st'
    /\ images_dir st' = images_dir st
    /\ text_dir st'
       = <[page_xhtml_filename safe := single_page_doc safe filename size.1 size.2]>
           (text_dir st).
Proof.
  intros safe size Hfile Hext [r Hr] Hkeep Hw. subst size.
  unfold process_image. rewrite Hfile. cbn [negb].
  subst safe. destruct (splitext filename) as [name ext]. cbn [fst snd] in *.
  rewrite bool_decide_eq_true_2 by exact Hext. cbn [negb].
  unfold is_double_page in Hkeep. unfold probe_size in *. unfold try_split, single_page.
  destruct (open_image st filename) as [img|] eqn:Eo; cbn [fst snd] in *;
    rewrite Hr in *.
  - destruct Hkeep as [?|Hk]; [discriminate|]. rewrite Hk, Hw.
    eexists. split; [reflexivity|]. split; reflexivity.
  - assert (Eo' : open_image
                    (print (UsingFallbackSize fallback_width fallback_height)
                       (print (WarnCannotReadSize filename) st)) filename = None)
      by exact Eo.
    rewrite Eo', Hw.
    destruct (PrimFloat.leb _ _ && _); eexists; (split; [reflexivity|]);
      split; reflexivity.
Qed.

Lemma has_page_insert text k doc filename :
  has_page text filename = true -> has_page (<[k := doc]> text) filename = true.
Proof.
  unfold has_page. intros H%bool_decide_eq_true. apply bool_decide_eq_true_2.
  apply lookup_insert_is_Some. destruct (decide (k = page_xhtml_filename
    (sanitize_name (splitext filename).1))); [now left|now right].
Qed.

Lemma has_page_inserted text filename doc :
  has_page (<[page_xhtml_filename (sanitize_name (splitext filename).1) := doc]> text)
    filename = true.
Proof.
  unfold has_page. apply bool_decide_eq_true_2. rewrite lookup_insert_eq. eauto.
Qed.

Lemma raster_extension filename :
  lower (splitext filename).2 ∈ xhtml_image_extensions -> is_extension (splitext filename).2.
Proof.
  intros Hext. destruct (splitext_extension filename) as [E|E]; [|exact E].
  rewrite E in Hext. exfalso. revert Hext. unfold lower. cbn [forallb map].
  compute_done.
Qed.

Lemma has_page_half text name letter ext doc :
  letter = py "a" \/ letter = py "b" ->
  is_extension ext ->
  has_page (<[half_xhtml_name (sanitize_name name) letter := doc]> text)
    (half_image_name (sanitize_name name) letter ext) = true.
Proof.
  intros Hl Hext. unfold has_page, half_image_name, half_xhtml_name, part_base.
  destruct (half_name_splits name letter ext Hl Hext) as [E1 E2].
  rewrite E1. cbn [fst]. rewrite E2.
  apply bool_decide_eq_true_2. rewrite lookup_insert_eq. eauto.
Qed.

Lemma isfile_insert images k e filename :
  isfile (<[k := e]> images) filename = true ->
  filename = k \/ isfile images filename = true.
Proof.
  destruct (decide (filename = k)) as [->|Hne]; [now left|].
  unfold isfile. rewrite lookup_insert_ne by congruence. now right.
Qed.

Lemma isfile_delete images k filename :
  isfile (delete k images) filename = true ->
  filename ≠ k /\ isfile images filename = true.
Proof.
  unfold isfile. destruct (decide (filename = k)) as [->|Hne].
  - rewrite lookup_delete_eq. discriminate.
  - rewrite lookup_delete_ne by congruence. now split.
Qed.

Lemma ratio_in_range w h : float_sized w -> is_Some (ratio w h).
Proof.
  intros Hw. unfold ratio. destruct (Z.gtb_spec h 0); [|eauto].
  now apply int_true_divide_finite.
Qed.

Lemma half_float_sized w :
  1 < w -> float_sized w -> float_sized (w / 2 - 0) /\ float_sized (w - w / 2).
Proof.
  unfold float_sized. intros Hw Hs.
  pose proof (Z.div_pos w 2 ltac:(lia) ltac:(lia)).
  pose proof (Z.div_lt w 2 ltac:(lia) ltac:(lia)). lia.
Qed.

(** Splitting keeps the widths within the range: a half is narrower than
    the image it is cut from. *)
Lemma split_sizes_in_range filename img images images' ltr :
  sizes_in_range fallback_width {| images_dir := images; text_dir := ∅; log := [] |} ->
  images !! filename = Some (File (Some img)) ->
  1 < width img ->
  (forall name img',
     images' !! name = Some (File (Some img')) ->
     images !! name = Some (File (Some img'))
     \/ img' = crop img (if ltr : bool then box_left (width img / 2) (height img)
                         else box_right (width img / 2) (width img) (height img))
     \/ img' = crop img (if ltr then box_right (width img / 2) (width img) (height img)
                         else box_left (width img / 2) (height img))) ->
  sizes_in_range fallback_width {| images_dir := images'; text_dir := ∅; log := [] |}.
Proof.
  intros [Hfw Hall] Hfile Hw Hnew. split; [exact Hfw|]. cbn [images_dir] in *.
  intros name img' Hin. pose proof (Hall filename img Hfile) as Hs.
  destruct (half_float_sized (width img) Hw Hs) as [Hl Hr].
  destruct (Hnew name img' Hin) as [Hold|[-> | ->]]; [exact (Hall name img' Hold)| |];
    destruct ltr; cbn [crop box_left box_right width]; assumption.
Qed.

Lemma kept_paged filename pending st st' doc :
  paged_or_pending (filename :: pending) st ->
  images_dir st' = images_dir st ->
  text_dir st'
  = <[page_xhtml_filename (sanitize_name (splitext filename).1) := doc]> (text_dir st) ->
  paged_or_pending pending st'.
Proof.
  intros Hinv Himg Htxt f [Hf Hx]. rewrite Himg in Hf. rewrite Htxt.
  destruct (Hinv f (conj Hf Hx)) as [Hin|Hp].
  - apply elem_of_cons in Hin as [->|Hin]; [right; apply has_page_inserted|now left].
  - right. now apply has_page_insert.
Qed.

(** One image: when nothing fails, the image is processed and the
    invariant passes to the rest of the list. *)
Lemma process_image_paged filename pending st :
  fault_free faults ->
  sizes_in_range fallback_width st ->
  paged_or_pending (filename :: pending) st ->
  exists st',
    process_image faults fallback_width fallback_height double_page_ratio
      reading_direction filename st = Some st'
    /\ sizes_in_range fallback_width st'
    /\ paged_or_pending pending st'.
Proof.
  intros Hff Hsizes Hinv.
  destruct (isfile (images_dir st) filename) eqn:Hfile.
  2:{ exists st. split; [unfold process_image; now rewrite Hfile|]. split; [exact Hsizes|].
      intros f [Hf Hx]. destruct (Hinv f (conj Hf Hx)) as [Hin|Hp]; [|now right].
      apply elem_of_cons in Hin as [->|Hin]; [congruence|now left]. }
  destruct (decide (lower (splitext filename).2 ∈ xhtml_image_extensions)) as [Hext|Hext].
  2:{ exists (print (SkippingNonRaster filename) st). split.
      - unfold process_image. rewrite Hfile. cbn [negb].
        destruct (splitext filename) as [name ext]. cbn [snd] in Hext.
        now rewrite bool_decide_eq_false_2 by exact Hext.
      - split; [exact Hsizes|].
        intros f [Hf Hx]. destruct (Hinv f (conj Hf Hx)) as [Hin|Hp]; [|now right].
        apply elem_of_cons in Hin as [->|Hin]; [contradiction|now left]. }
  pose proof (raster_extension filename Hext) as Hshape.
  set (size := (probe_size fallback_width fallback_height filename st).1).
  assert (Hratio : is_Some (ratio size.1 size.2)).
  { apply ratio_in_range. unfold size, probe_size.
    destruct (open_image st filename) as [img|] eqn:Eo; cbn [fst snd]; [|apply Hsizes].
    apply (proj2 Hsizes filename). unfold open_image in Eo.
    destruct (images_dir st !! filename) as [[|[i|]]|]; congruence. }
  assert (Hkept : forall st',
            images_dir st' = images_dir st -> sizes_in_range fallback_width st').
  { intros st' E. destruct Hsizes as [Hfw Hall]. split; [exact Hfw|]. now rewrite E. }
  destruct (open_image st filename) as [img|] eqn:Eo.
  - destruct (is_double_page double_page_ratio size.1 size.2 && (size.1 >? 1)) eqn:Hd.
    + unfold size in Hd. rewrite (probe_size_open _ _ _ _ _ Eo) in Hd. cbn [fst snd] in Hd.
      apply andb_true_iff in Hd as [Hd Hw]. apply Z.gtb_lt in Hw.
      destruct (process_image_split faults fallback_width fallback_height double_page_ratio
                  reading_direction filename img st Eo Hext Hd) as (st' & Hrun & Himg & Htxt);
        [lia|apply Hff..|].
      exists st'. split; [exact Hrun|].
      assert (Hrm : remove_ok faults filename = true) by apply Hff.
      rewrite Hrm in Himg.
      assert (Hfile' : images_dir st !! filename = Some (File (Some img))).
      { unfold open_image in Eo.
        destruct (images_dir st !! filename) as [[|[i|]]|]; congruence. }
      split.
      { destruct Hsizes as [Hfw Hall].
        destruct (split_sizes_in_range filename img (images_dir st) (images_dir st')
                    (bool_decide (reading_direction = py "ltr")))
          as [_ Hall']; [now split|exact Hfile'|lia| |split; [exact Hfw|exact Hall']].
        intros name img' Hin. rewrite Himg in Hin.
        apply lookup_delete_Some in Hin as [_ Hin].
        apply lookup_insert_Some in Hin as [[_ [= <-]]|[_ Hin]]; [right; now right|].
        apply lookup_insert_Some in Hin as [[_ [= <-]]|[_ Hin]]; [right; now left|].
        now left. }
      intros f [Hf Hx]. rewrite Himg in Hf. rewrite Htxt.
      apply isfile_delete in Hf as [Hne Hf].
      apply isfile_insert in Hf as [->|Hf].
      { right. apply has_page_half; [now right|exact Hshape]. }
      apply isfile_insert in Hf as [->|Hf].
      { right. apply has_page_insert. apply has_page_half; [now left|exact Hshape]. }
      destruct (Hinv f (conj Hf Hx)) as [Hin|Hp].
      * apply elem_of_cons in Hin as [->|Hin]; [congruence|now left].
      * right. now do 2 apply has_page_insert.
    + destruct (process_image_unsplit filename st Hfile Hext Hratio)
        as (st' & Hrun & Himg & Htxt); [right; exact Hd|apply Hff|].
      exists st'. split_and!; [exact Hrun|exact (Hkept st' Himg)|].
      exact (kept_paged filename pending st st' _ Hinv Himg Htxt).
  - destruct (process_image_unsplit filename st Hfile Hext Hratio)
      as (st' & Hrun & Himg & Htxt); [now left|apply Hff|].
    exists st'. split_and!; [exact Hrun|exact (Hkept st' Himg)|].
    exact (kept_paged filename pending st st' _ Hinv Himg Htxt).
Qed.

Lemma process_images_paged filenames st :
  fault_free faults ->
  sizes_in_range fallback_width st ->
  paged_or_pending filenames st ->
  exists st',
    process_images faults fallback_width fallback_height double_page_ratio
      reading_direction filenames st = Some st'
    /\ paged_or_pending [] st'.
Proof.
  intros Hff. revert st.
  induction filenames as [|filename pending IH]; intros st Hsizes Hinv.
  - exists st. now split.
  - destruct (process_image_paged filename pending st Hff Hsizes Hinv)
      as (st1 & Hrun & Hsizes1 & Hinv1).
    destruct (IH st1 Hsizes1 Hinv1) as (st' & Hrest & Hinv').
    exists st'. split; [|exact Hinv']. cbn [process_images]. now rewrite Hrun.
Qed.


End SplitterRun.

Lemma sorted_listdir {A} (d : gmap pystr A) name :
  is_Some (d !! name) -> name ∈ sorted (listdir d).
Proof.
  intros [x Hx]. unfold sorted. rewrite merge_sort_Permutation.
  unfold listdir. apply list_elem_of_fmap. exists (name, x). split; [reflexivity|].
  now apply elem_of_map_to_list.
Qed.

(** X9: when no file operation fails, and the fallback width and the
    widths of the images are within the range of the floats, so that no
    division of a ratio overflows, the splitter ends, and every raster
    image file that [Images] holds at the end, a half or an image that was
    kept, has the page document that the builder will look for under its
    name. *)
Theorem every_image_gets_its_page faults fallback_width fallback_height double_page_ratio
    reading_direction st :
  fault_free faults ->
  sizes_in_range fallback_width st ->
  exists st',
    generate_xhtml_pages faults fallback_width fallback_height double_page_ratio
      reading_direction st = Some st'
    /\ forall filename,
         isfile (images_dir st') filename = true ->
         lower (splitext filename).2 ∈ xhtml_image_extensions ->
         has_page (text_dir st') filename = true.
Proof.
  intros Hff Hsizes. unfold generate_xhtml_pages.
  destruct (process_images_paged faults fallback_width fallback_height double_page_ratio
              (normalize_direction reading_direction) (sorted (listdir (images_dir st))) st
              Hff Hsizes)
    as (st' & Hrun & Hinv).
  - intros f [Hf _]. left. apply sorted_listdir.
    apply isfile_lookup in Hf as [c Hc]. eauto.
  - exists st'. split; [exact Hrun|]. intros f Hf Hx.
    destruct (Hinv f (conj Hf Hx)) as [Hin|Hp]; [|exact Hp].
    now apply elem_of_nil in Hin.
Qed.


Lemma xhtml_extension_is_opf ext :
  ext ∈ xhtml_image_extensions -> ext ∈ opf_image_extensions.
Proof.
  unfold xhtml_image_extensions, opf_image_extensions.
  rewrite !elem_of_cons. clear. tauto.
Qed.

(** X10: the splitter and the builder, one after the other as the pipeline
    runs them.  When no file operation fails, and the fallback width and
    the widths of the images are within the range of the floats, both end,
    and every raster image file that the splitter leaves in [Images] has
    its page in the spine: no half and no kept image is dropped from the
    book. *)
Theorem every_image_reaches_the_spine faults fallback_width fallback_height
    double_page_ratio has_cover reading_direction blank_w blank_h st :
  fault_free faults ->
  sizes_in_range fallback_width st ->
  exists st' r,
    generate_xhtml_pages faults fallback_width fallback_height double_page_ratio
      reading_direction st = Some st'
    /\ generate_content_opf has_cover reading_direction blank_w blank_h st' = Some r
    /\ forall filename,
         isfile (images_dir st') filename = true ->
         lower (splitext filename).2 ∈ xhtml_image_extensions ->
         page_id_of_image filename ∈ spine_pages (spine_items (final r)).
Proof.
  intros Hff Hsizes. unfold generate_xhtml_pages.
  destruct (process_images_paged faults fallback_width fallback_height double_page_ratio
              (normalize_direction reading_direction) (sorted (listdir (images_dir st))) st
              Hff Hsizes)
    as (st' & Hrun & Hinv).
  { intros f [Hf _]. left. apply sorted_listdir.
    apply isfile_lookup in Hf as [c Hc]. eauto. }
  destruct (generate_content_opf_ends has_cover reading_direction blank_w blank_h st')
    as (r & j & Hr & _ & Hj & Hreach).
  exists st', r. split_and!; [exact Hrun|exact Hr|]. intros f Hf Hx.
  apply reachable_spine_pages in Hreach as [_ ->]. rewrite take_ge by exact Hj.
  apply list_elem_of_fmap. exists f. split; [reflexivity|].
  apply list_elem_of_In, filter_In. split.
  - unfold list_image_files. apply filter_In. split.
    + apply list_elem_of_In, sorted_listdir. apply isfile_lookup in Hf as [c Hc]. eauto.
    + rewrite Hf. cbn [andb]. apply bool_decide_eq_true_2.
      now apply xhtml_extension_is_opf.
  - destruct (Hinv f (conj Hf Hx)) as [Hin|Hp]; [now apply elem_of_nil in Hin|exact Hp].
Qed.


(** ** The name of the archive *)

Section ArchiveName.

Variable unicode_isspace : N -> bool.

Lemma lstrip_elem s c : c ∈ lstrip unicode_isspace s -> c ∈ s.
Proof.
  induction s as [|x s IH]; [easy|]. cbn [lstrip].
  destruct (isspace unicode_isspace x); [|easy].
  intros H. apply elem_of_cons. right. now apply IH.
Qed.

Lemma strip_elem s c : c ∈ strip unicode_isspace s -> c ∈ s.
Proof.
  unfold strip, rstrip. intros H.
  rewrite list_elem_of_In, <- in_rev, <- list_elem_of_In in H.
  apply lstrip_elem in H.
  rewrite list_elem_of_In, <- in_rev, <- list_elem_of_In in H.
  now apply lstrip_elem in H.
Qed.

Lemma lstrip_head s :
  match lstrip unicode_isspace s with
  | [] => True
  | c :: _ => isspace unicode_isspace c = false
  end.
Proof.
  induction s as [|x s IH]; [easy|]. cbn [lstrip].
  destruct (isspace unicode_isspace x) eqn:E; [exact IH|exact E].
Qed.

Lemma lstrip_lstrip s :
  lstrip unicode_isspace (lstrip unicode_isspace s) = lstrip unicode_isspace s.
Proof. apply lstrip_id, lstrip_head. Qed.

Lemma lstrip_suffix s : exists t, s = t ++ lstrip unicode_isspace s.
Proof.
  induction s as [|x s [t IH]]; [now exists []|]. cbn [lstrip].
  destruct (isspace unicode_isspace x); [|now exists []].
  exists (x :: t). cbn [app]. now f_equal.
Qed.

Lemma rstrip_prefix s : exists t, s = rstrip unicode_isspace s ++ t.
Proof.
  unfold rstrip. destruct (lstrip_suffix (rev s)) as [t E].
  exists (rev t). rewrite <- rev_app_distr, <- E. symmetry. apply rev_involutive.
Qed.

(** [strip] is idempotent. *)
Lemma strip_strip s :
  strip unicode_isspace (strip unicode_isspace s) = strip unicode_isspace s.
Proof.
  unfold strip at 1. set (u := strip unicode_isspace s).
  assert (Hl : lstrip unicode_isspace u = u).
  { apply lstrip_id. unfold u, strip.
    destruct (rstrip_prefix (lstrip unicode_isspace s)) as [t E].
    pose proof (lstrip_head s) as Hh. rewrite E in Hh.
    now destruct (rstrip unicode_isspace (lstrip unicode_isspace s)). }
  rewrite Hl. unfold u, strip, rstrip. rewrite rev_involutive. now rewrite lstrip_lstrip.
Qed.

Lemma sanitize_filename_char_kept c : filename_char (sanitize_filename_char c).
Proof.
  unfold sanitize_filename_char, filename_char.
  destruct (isalnum c) eqn:Ea; [now left|]. cbn [orb].
  destruct (N.eqb_spec c 32); [right; now left|]. cbn [orb].
  destruct (N.eqb_spec c hyphen); [right; right; now left|]. cbn [orb].
  destruct (N.eqb_spec c underscore); right; right; now right.
Qed.

Lemma sanitize_filename_char_id c : filename_char c -> sanitize_filename_char c = c.
Proof.
  unfold sanitize_filename_char. intros [E|[E|[E|E]]]; [now rewrite E|subst c..].
  all: now destruct (isalnum _).
Qed.

Lemma filename_char_plain c : filename_char c -> c ≠ slash /\ c ≠ dot.
Proof.
  unfold filename_char. intros [H|[E|[E|E]]]; [split; now intros ->|subst c..];
    split; discriminate.
Qed.

Lemma sanitize_filename_chars name :
  Forall filename_char (sanitize_filename unicode_isspace name).
Proof.
  unfold sanitize_filename.
  destruct (strip unicode_isspace (map sanitize_filename_char name)) as [|c s] eqn:E.
  - repeat constructor.
  - rewrite <- E. apply Forall_forall. intros x Hx%strip_elem.
    apply list_elem_of_fmap in Hx as (y & -> & _). apply sanitize_filename_char_kept.
Qed.

Lemma sanitize_filename_nonempty name : sanitize_filename unicode_isspace name ≠ [].
Proof.
  unfold sanitize_filename.
  now destruct (strip unicode_isspace (map sanitize_filename_char name)).
Qed.

(** X11: whatever the title, the archive is written directly in
    [base_path]: the name that [sanitize_filename] makes of the title is
    not empty and holds only letters, digits, spaces, dashes and
    underscores, so no path separator and no dot, and the path of the
    archive is [base_path], a separator where one is missing, that name
    and [.epub]. *)
Theorem archive_written_in_base_path base_path title :
  let stem := sanitize_filename unicode_isspace title in
  stem ≠ []
  /\ Forall filename_char stem
  /\ (slash ∉ stem) /\ (dot ∉ stem)
  /\ epub_path unicode_isspace base_path title
     = (if bool_decide (base_path = []) || endswith base_path (py "/")
        then base_path else base_path ++ py "/")
       ++ stem ++ py ".epub".
Proof.
  intros stem. pose proof (sanitize_filename_chars title) as Hc.
  pose proof (sanitize_filename_nonempty title) as Hne. fold stem in Hc, Hne.
  assert (Hplain : (slash ∉ stem) /\ (dot ∉ stem)).
  { split; intros Hin; rewrite Forall_forall in Hc;
      destruct (filename_char_plain _ (Hc _ Hin)); congruence. }
  split_and!; [exact Hne|exact Hc|apply Hplain..|].
  unfold epub_path, posix_join. fold stem.
  destruct stem as [|c s]; [congruence|].
  replace (startswith ((c :: s) ++ py ".epub") (py "/")) with false.
  - destruct (bool_decide (base_path = []) || endswith base_path (py "/"));
      [reflexivity|now rewrite <- app_assoc].
  - symmetry. apply bool_decide_eq_false_2. intros [= ->].
    destruct Hplain as [H _]. apply H. now left.
Qed.

(** X12: [sanitize_filename] is idempotent: a name that it has made is
    left as it is. *)
Theorem sanitize_filename_idempotent name :
  sanitize_filename unicode_isspace (sanitize_filename unicode_isspace name)
  = sanitize_filename unicode_isspace name.
Proof.
  pose proof (sanitize_filename_chars name) as Hc.
  assert (Hmap : map sanitize_filename_char (sanitize_filename unicode_isspace name)
                 = sanitize_filename unicode_isspace name).
  { induction Hc as [|c s Hc _ IH]; [reflexivity|]. cbn [map].
    now rewrite IH, sanitize_filename_char_id. }
  unfold sanitize_filename at 1. rewrite Hmap. unfold sanitize_filename.
  destruct (strip unicode_isspace (map sanitize_filename_char name)) as [|c s] eqn:E.
  - reflexivity.
  - rewrite <- E, strip_strip. now rewrite E.
Qed.

End ArchiveName.


(** ** The tables of contents *)

Lemma str_leb_cons x a y b :
  str_leb (x :: a) (y :: b) = true <-> (x < y)%N \/ (x = y /\ str_leb a b = true).
Proof.
  cbn [str_leb]. destruct (N.ltb_spec x y) as [Hlt|Hge]; [split; [now left|reflexivity]|].
  destruct (N.eqb_spec x y) as [->|Hne].
  - split; [now right|]. intros [Hlt|[_ H]]; [lia|exact H].
  - split; [discriminate|]. intros [Hlt|[E _]]; [lia|congruence].
Qed.

Lemma str_le_total : Total str_le.
Proof.
  unfold Total, str_le. intros a. induction a as [|x a IH]; intros [|y b];
    try (now left); try (now right).
  rewrite !str_leb_cons. destruct (N.lt_trichotomy x y) as [Hlt|[->|Hgt]].
  - left. now left.
  - destruct (IH b) as [H|H]; [left|right]; right; (split; [reflexivity|exact H]).
  - right. now left.
Qed.

Lemma str_le_trans : Transitive str_le.
Proof.
  unfold Transitive, str_le. intros a. induction a as [|x a IH]; intros [|y b] [|z c];
    try easy.
  rewrite !str_leb_cons. intros [?|[-> ?]] [?|[-> ?]]; [left; lia|now left|now left|].
  right. split; [reflexivity|]. now apply (IH b).
Qed.

Lemma sorted_strongly l : StronglySorted str_le (sorted l).
Proof.
  apply (StronglySorted_merge_sort str_le
           (Transitive0 := str_le_trans) (Total0 := str_le_total)).
Qed.

Lemma sorted_elem l (x : pystr) : x ∈ sorted l <-> x ∈ l.
Proof. unfold sorted. now rewrite merge_sort_Permutation. Qed.

Lemma sorted_NoDup l : NoDup l -> NoDup (sorted l).
Proof. unfold sorted. now rewrite merge_sort_Permutation. Qed.

Lemma StronglySorted_filter {A} (R : relation A) (f : A -> bool) l :
  StronglySorted R l -> StronglySorted R (List.filter f l).
Proof.
  induction 1 as [|x l Hs IH Hall]; [constructor|]. cbn [List.filter].
  destruct (f x); [|exact IH]. constructor; [exact IH|].
  apply Forall_forall. intros y Hy%list_elem_of_In%filter_In.
  rewrite Forall_forall in Hall. apply Hall, list_elem_of_In, Hy.
Qed.

Lemma listdir_elem {A} (d : gmap pystr A) name : name ∈ listdir d <-> is_Some (d !! name).
Proof.
  unfold listdir. rewrite list_elem_of_fmap. split.
  - intros ([k x] & -> & Hin%elem_of_map_to_list). eauto.
  - intros [x Hx]. exists (name, x). split; [reflexivity|now apply elem_of_map_to_list].
Qed.

Lemma listdir_NoDup {A} (d : gmap pystr A) : NoDup (listdir d).
Proof. apply NoDup_fst_map_to_list. Qed.

Lemma list_xhtml_files_elem text f : f ∈ list_xhtml_files text <-> xhtml_file text f.
Proof.
  unfold list_xhtml_files, xhtml_file.
  rewrite list_elem_of_In, filter_In, <- list_elem_of_In, sorted_elem, listdir_elem.
  reflexivity.
Qed.

Lemma list_xhtml_files_NoDup text : NoDup (list_xhtml_files text).
Proof.
  unfold list_xhtml_files.
  apply NoDup_ListNoDup, List.NoDup_filter, NoDup_ListNoDup, sorted_NoDup, listdir_NoDup.
Qed.

Lemma list_xhtml_files_sorted text : StronglySorted str_le (list_xhtml_files text).
Proof. unfold list_xhtml_files. apply StronglySorted_filter, sorted_strongly. Qed.

Lemma enumerate_fst {A} start (l : list A) :
  (enumerate start l).*1 = seqZ start (Z.of_nat (length l)).
Proof.
  revert start. induction l as [|x l IH]; intros start; [reflexivity|].
  cbn [enumerate fmap list_fmap length]. rewrite Nat2Z.inj_succ, seqZ_cons by lia.
  rewrite Z.pred_succ. f_equal. rewrite <- Z.add_1_r. apply IH.
Qed.

Lemma enumerate_snd {A} start (l : list A) : (enumerate start l).*2 = l.
Proof.
  revert start. induction l as [|x l IH]; intros start; [reflexivity|].
  cbn [enumerate fmap list_fmap]. f_equal. apply IH.
Qed.

(** X13: [toc.ncx] has one [navPoint] for each page document of [Text],
    blank pages included, each once and in the order of their names, and
    the play orders count from 1 without a gap. *)
Theorem toc_lists_every_page fresh_uuid book_id title text :
  let toc := (generate_toc_ncx fresh_uuid book_id title text).1 in
  exists files,
    content_src <$> nav_map toc = app (py "Text/") <$> files
    /\ play_order <$> nav_map toc = str_of_int <$> seqZ 1 (Z.of_nat (length files))
    /\ (forall f, f ∈ files <-> xhtml_file text f)
    /\ NoDup files
    /\ StronglySorted str_le files.
Proof.
  exists (list_xhtml_files text). cbn [generate_toc_ncx fst nav_map].
  split_and!.
  - rewrite <- (enumerate_snd 1 (list_xhtml_files text)) at 2.
    rewrite <- !list_fmap_compose. apply list_fmap_ext. now intros ? [i f].
  - rewrite <- enumerate_fst, <- !list_fmap_compose. apply list_fmap_ext. now intros ? [i f].
  - apply list_xhtml_files_elem.
  - apply list_xhtml_files_NoDup.
  - apply list_xhtml_files_sorted.
Qed.

(** X14: [nav.xhtml] is written exactly when [Text] holds a page document,
    and both of its links then go to the page document whose name is the
    least in the order of strings, whatever the first page of the spine
    is. *)
Theorem nav_links_least_page title text :
  match generate_nav_xhtml title text with
  | None => forall f, ~ xhtml_file text f
  | Some nav =>
      exists first_page,
        xhtml_file text first_page
        /\ (forall f, xhtml_file text f -> str_le first_page f)
        /\ toc_href nav = escape (py "Text/" ++ first_page)
        /\ page_list_href nav = escape (py "Text/" ++ first_page)
  end.
Proof.
  unfold generate_nav_xhtml.
  pose proof (list_xhtml_files_elem text) as Hel.
  pose proof (list_xhtml_files_sorted text) as Hs.
  destruct (list_xhtml_files text) as [|first_page rest].
  - intros f Hf%Hel. now apply elem_of_nil in Hf.
  - exists first_page. split_and!; [apply Hel; now left| |reflexivity..].
    intros f Hf%Hel. apply elem_of_cons in Hf as [->|Hf].
    + destruct (str_le_total first_page first_page); assumption.
    + apply StronglySorted_inv in Hs as [_ Hall]. rewrite Forall_forall in Hall.
      now apply Hall.
Qed.


(** ** Bringing the images in *)

Lemma cover_candidate_inj base_name ext_lower j k :
  cover_candidate base_name ext_lower j = cover_candidate base_name ext_lower k -> j = k.
Proof.
  unfold cover_candidate. destruct j as [|j], k as [|k]; intros E.
  - reflexivity.
  - apply (f_equal length) in E. rewrite !length_app in E.
    change (length (py "_")) with 1%nat in E. lia.
  - apply (f_equal length) in E. rewrite !length_app in E.
    change (length (py "_")) with 1%nat in E. lia.
  - do 2 apply app_inv_head in E. apply app_inv_tail in E.
    apply str_of_int_inj in E. lia.
Qed.

Lemma candidates_in_dir (dest : gmap pystr entry) (base_name ext_lower : pystr) (n : nat) :
  (forall j, (j < n)%nat -> is_Some (dest !! cover_candidate base_name ext_lower j)) ->
  (n <= size dest)%nat.
Proof.
  intros Hin.
  set (l := cover_candidate base_name ext_lower <$> seq 0 n).
  assert (Hnd : NoDup l).
  { apply NoDup_fmap_2_strong; [|apply NoDup_seq].
    intros j k _ _. apply cover_candidate_inj. }
  assert (Hsub : list_to_set (C := gset pystr) l ⊆ dom dest).
  { intros x Hx%elem_of_list_to_set. apply list_elem_of_fmap in Hx as (j & -> & Hj).
    apply elem_of_dom, Hin. apply elem_of_seq in Hj. lia. }
  apply subseteq_size in Hsub. rewrite size_list_to_set, size_dom in Hsub by exact Hnd.
  unfold l in Hsub. now rewrite length_fmap, length_seq in Hsub.
Qed.

(** The search for a free name ends before its fuel does, on a name that
    is free. *)
Lemma unique_name_free (fuel : nat) (base_name ext_lower : pystr)
    (dest : gmap pystr entry) (k : nat) :
  (forall j, (j < k)%nat -> is_Some (dest !! cover_candidate base_name ext_lower j)) ->
  (size dest < fuel + k)%nat ->
  exists n,
    unique_name fuel base_name ext_lower dest (cover_candidate base_name ext_lower k)
      (Z.of_nat k + 1)
    = Some (cover_candidate base_name ext_lower n)
    /\ dest !! cover_candidate base_name ext_lower n = None.
Proof.
  revert k. induction fuel as [|fuel IH]; intros k Hin Hfuel.
  - apply candidates_in_dir in Hin. lia.
  - cbn [unique_name].
    destruct (dest !! cover_candidate base_name ext_lower k) as [e|] eqn:E.
    + rewrite bool_decide_eq_true_2 by eauto.
      destruct (IH (S k)) as (n & Hrun & Hfree).
      * intros j Hj. destruct (decide (j = k)) as [->|Hne]; [eauto|apply Hin; lia].
      * lia.
      * exists n. split; [|exact Hfree]. rewrite <- Hrun.
        replace (Z.of_nat (S k) + 1) with (Z.of_nat k + 1 + 1) by lia.
        cbn [cover_candidate]. now replace (Z.of_nat (S k)) with (Z.of_nat k + 1) by lia.
    + rewrite bool_decide_eq_false_2 by apply is_Some_None.
      exists k. now split.
Qed.

Lemma dom_insert_L_comm (dest : gmap pystr entry) (name : pystr) (e : entry) :
  dom (<[name := e]> dest) = dom dest ∪ {[name]}.
Proof. rewrite dom_insert_L. apply union_comm_L. Qed.

Lemma cover_candidate_starts idx ext_lower n :
  startswith (cover_candidate (cover_base_name idx) ext_lower n) (py "0") = true.
Proof.
  apply bool_decide_eq_true_2. unfold cover_candidate, cover_base_name.
  destruct n, (bool_decide (idx = 0%nat)); reflexivity.
Qed.

Section CopyFacts.

Variable copy_ok : pystr -> bool.
Variable source_listing : list pystr.
Variable source_folder : gmap pystr entry.
Hypothesis copies_succeed : forall name, copy_ok name = true.

Lemma copy2_file filename content dest_name dest :
  source_folder !! filename = Some (File content) ->
  exists dest',
    copy2 copy_ok source_folder filename dest_name dest = Some dest'
    /\ dest' !! dest_name
       = Some (match dest !! dest_name with
               | Some Subdir => Subdir
               | _ => File content
               end)
    /\ (forall name, name ≠ dest_name -> dest' !! name = dest !! name)
    /\ dom dest' = dom dest ∪ {[dest_name]}.
Proof.
  intros Hc. unfold copy2. rewrite Hc, copies_succeed.
  destruct (dest !! dest_name) as [[|c]|] eqn:E.
  - exists dest. split_and!; [reflexivity|exact E|reflexivity|].
    apply (elem_of_dom_2 (D := gset pystr)) in E.
    apply set_eq. intros x. rewrite elem_of_union, elem_of_singleton.
    split; [now left|]. intros [H| ->]; [exact H|exact E].
  - exists (<[dest_name := File content]> dest).
    split_and!; [reflexivity|apply lookup_insert_eq| |apply dom_insert_L_comm].
    intros name Hne. now apply lookup_insert_ne.
  - exists (<[dest_name := File content]> dest).
    split_and!; [reflexivity|apply lookup_insert_eq| |apply dom_insert_L_comm].
    intros name Hne. now apply lookup_insert_ne.
Qed.

Lemma copy_others_spec filenames dest :
  (forall f, f ∈ filenames -> isfile source_folder f = true) ->
  exists dest',
    copy_others copy_ok source_folder filenames dest = Some dest'
    /\ (forall f, f ∈ filenames -> dest !! f ≠ Some Subdir ->
          dest' !! f = source_folder !! f)
    /\ (forall name, name ∉ filenames -> dest' !! name = dest !! name)
    /\ (forall name, dest !! name = Some Subdir -> dest' !! name = Some Subdir)
    /\ dom dest' = dom dest ∪ list_to_set filenames.
Proof.
  revert dest. induction filenames as [|f fs IH]; intros dest Hfiles.
  - exists dest. split_and!; [reflexivity| |reflexivity|auto|].
    + intros f Hf. now apply elem_of_nil in Hf.
    + now rewrite list_to_set_nil, union_empty_r_L.
  - assert (Hhead : f ∈ f :: fs) by now left.
    destruct (isfile_lookup _ _ (Hfiles f Hhead)) as [c Hc].
    destruct (copy2_file f c f dest Hc) as (d1 & Hcopy & Hat & Hother & Hdom).
    destruct (IH d1) as (dest' & Hrun & Ha & Hb & Hsub & Hd).
    { intros g Hg. apply Hfiles. now right. }
    exists dest'. cbn [copy_others]. rewrite Hcopy. split_and!; [exact Hrun| | | |].
    + intros g Hg Hns. destruct (decide (g ∈ fs)) as [Hin|Hnin].
      * apply Ha; [exact Hin|]. destruct (decide (g = f)) as [->|Hne].
        -- rewrite Hat. destruct (dest !! f) as [[|?]|]; congruence.
        -- now rewrite Hother.
      * apply elem_of_cons in Hg as [->|Hg]; [|contradiction].
        rewrite (Hb f Hnin), Hat, Hc. destruct (dest !! f) as [[|?]|]; congruence.
    + intros name Hn. apply not_elem_of_cons in Hn as [Hne Hn].
      rewrite (Hb name Hn). now apply Hother.
    + intros name Hn. apply Hsub. destruct (decide (name = f)) as [->|Hne].
      * rewrite Hat, Hn. reflexivity.
      * now rewrite Hother.
    + now rewrite Hd, Hdom, list_to_set_cons, (assoc_L (∪)).
Qed.

Lemma copy_covers_spec idx filenames dest :
  (forall f, f ∈ filenames -> isfile source_folder f = true) ->
  exists dest',
    copy_covers copy_ok source_folder idx filenames dest = Some dest'
    /\ (forall name, is_Some (dest !! name) -> dest' !! name = dest !! name)
    /\ size dest' = (size dest + length filenames)%nat
    /\ (forall f, f ∈ filenames ->
          exists name,
            dest !! name = None
            /\ startswith name (py "0") = true
            /\ dest' !! name = source_folder !! f).
Proof.
  revert idx dest. induction filenames as [|f fs IH]; intros idx dest Hfiles.
  - exists dest. split_and!; [reflexivity|auto|cbn [length]; lia|].
    intros f Hf. now apply elem_of_nil in Hf.
  - assert (Hhead : f ∈ f :: fs) by now left.
    destruct (isfile_lookup _ _ (Hfiles f Hhead)) as [c Hc].
    cbn [copy_covers].
    destruct (unique_name_free (S (size dest)) (cover_base_name idx)
                (lower (splitext f).2) dest 0) as (n & Hname & Hfree); [lia|lia|].
    change (unique_name (S (size dest)) (cover_base_name idx) (lower (splitext f).2) dest
              (cover_base_name idx ++ lower (splitext f).2) 1
            = Some (cover_candidate (cover_base_name idx) (lower (splitext f).2) n)) in Hname.
    rewrite Hname.
    set (name := cover_candidate (cover_base_name idx) (lower (splitext f).2) n) in *.
    destruct (copy2_file f c name dest Hc) as (d1 & Hcopy & Hat & Hother & Hdom).
    rewrite Hcopy. rewrite Hfree in Hat.
    destruct (IH (S idx) d1) as (dest' & Hrun & Hkeep & Hsize & Hcov).
    { intros g Hg. apply Hfiles. now right. }
    assert (Hgrow : forall x, is_Some (dest !! x) -> d1 !! x = dest !! x).
    { intros x Hx. apply Hother. intros ->. rewrite Hfree in Hx. now destruct Hx. }
    exists dest'. split_and!; [exact Hrun| | |].
    + intros x Hx. rewrite <- (Hgrow x Hx). apply Hkeep. now rewrite (Hgrow x Hx).
    + rewrite Hsize. cbn [length].
      apply (not_elem_of_dom (D := gset pystr)) in Hfree.
      assert (size d1 = S (size dest)) as ->; [|lia].
      rewrite <- (size_dom (D := gset pystr) d1), <- (size_dom (D := gset pystr) dest), Hdom.
      rewrite size_union, size_singleton by now apply disjoint_singleton_r.
      lia.
    + intros g Hg. apply elem_of_cons in Hg as [->|Hg].
      * exists name. split_and!; [exact Hfree|apply cover_candidate_starts|].
        rewrite Hkeep by (rewrite Hat; eauto). now rewrite Hat, Hc.
      * destruct (Hcov g Hg) as (x & Hx & Hs & Hd). exists x. split_and!; [|exact Hs|exact Hd].
        destruct (dest !! x) eqn:E; [|reflexivity].
        rewrite Hgrow in Hx by eauto. congruence.
Qed.

Lemma other_files_are_files f :
  f ∈ other_files source_listing source_folder -> isfile source_folder f = true.
Proof.
  unfold other_files, source_image_files.
  intros Hf%list_elem_of_In. apply filter_In in Hf as [Hf _].
  apply filter_In in Hf as [_ Hf]. now apply andb_true_iff in Hf as [H _].
Qed.

Lemma cover_files_are_files f :
  f ∈ cover_files source_listing source_folder -> isfile source_folder f = true.
Proof.
  unfold cover_files, source_image_files.
  intros Hf%list_elem_of_In. apply filter_In in Hf as [Hf _].
  apply filter_In in Hf as [_ Hf]. now apply andb_true_iff in Hf as [H _].
Qed.

(** X15: when no copy fails, [copy_images_to_temp_images] ends, the search
    for a free name included, and: every image of the source that is not a
    cover is in [Images] under its own name; what [Images] held under
    another name is still there; every cover is copied to a name that
    begins with [0] and that neither [Images] nor another image of the
    source had, so a cover overwrites nothing; and no two covers share a
    name, as [Images] has one entry more for each cover. *)
Theorem covers_overwrite_nothing dest_images :
  exists dest',
    copy_images_to_temp_images copy_ok source_listing source_folder dest_images = Some dest'
    /\ (forall f, f ∈ other_files source_listing source_folder ->
          dest_images !! f ≠ Some Subdir -> dest' !! f = source_folder !! f)
    /\ (forall name, name ∉ other_files source_listing source_folder ->
          is_Some (dest_images !! name) -> dest' !! name = dest_images !! name)
    /\ (forall f, f ∈ cover_files source_listing source_folder ->
          exists name,
            dest_images !! name = None
            /\ (name ∉ other_files source_listing source_folder)
            /\ startswith name (py "0") = true
            /\ dest' !! name = source_folder !! f)
    /\ size dest'
       = (size (dom dest_images ∪ list_to_set (other_files source_listing source_folder))
          + length (cover_files source_listing source_folder))%nat.
Proof.
  unfold copy_images_to_temp_images.
  set (others := other_files source_listing source_folder).
  set (covers := cover_files source_listing source_folder).
  destruct (copy_others_spec (sorted others) dest_images) as (d1 & Hrun1 & Ha & Hb & _ & Hd).
  { intros f Hf. exact (other_files_are_files f (proj1 (sorted_elem _ _) Hf)). }
  destruct (copy_covers_spec 0 covers d1) as (dest' & Hrun2 & Hkeep & Hsize & Hcov).
  { intros f Hf. exact (cover_files_are_files f Hf). }
  assert (Hdom : dom d1 = dom dest_images ∪ list_to_set others).
  { rewrite Hd. apply set_eq. intros x.
    rewrite !elem_of_union, !elem_of_list_to_set, sorted_elem. reflexivity. }
  exists dest'. rewrite Hrun1. split_and!; [exact Hrun2| | | |].
  - intros f Hf Hns. pose proof (other_files_are_files f Hf) as [c Hc]%isfile_lookup.
    rewrite <- (Ha f) by (rewrite ?sorted_elem; assumption).
    apply Hkeep. rewrite (Ha f) by (rewrite ?sorted_elem; assumption). rewrite Hc. eauto.
  - intros name Hn Hs. rewrite <- (Hb name) by now rewrite sorted_elem.
    apply Hkeep. now rewrite (Hb name) by now rewrite sorted_elem.
  - intros f Hf. destruct (Hcov f Hf) as (name & Hfree & Hs & Hd').
    apply (not_elem_of_dom (D := gset pystr)) in Hfree.
    rewrite Hdom, not_elem_of_union, elem_of_list_to_set in Hfree.
    destruct Hfree as [Hnd Hno].
    exists name. split_and!; [|exact Hno|exact Hs|exact Hd'].
    now apply (not_elem_of_dom (D := gset pystr)).
  - now rewrite Hsize, <- (size_dom (D := gset pystr) d1), Hdom.
Qed.

End CopyFacts.

End Unicode.

(** ** The archive *)

Lemma node_induction (P : node -> Prop) :
  P RegFile ->
  (forall children, Forall (fun c => P c.2) children -> P (Directory children)) ->
  forall n, P n.
Proof.
  intros Hfile Hdir. fix IH 1. intros [|children].
  - exact Hfile.
  - apply Hdir. induction children as [|[name child] children IHc].
    + constructor.
    + constructor; [apply IH|exact IHc].
Qed.

Lemma common_prefix_length_app a b : common_prefix_length a (a ++ b) = length a.
Proof.
  induction a as [|x a IH]; simpl.
  - now destruct b.
  - rewrite bool_decide_eq_true_2 by reflexivity. now rewrite IH.
Qed.

(** Below [start], the relative path is what comes after [start]. *)
Lemma relpath_below start rel : relpath (start ++ rel) start = rel.
Proof.
  unfold relpath. rewrite common_prefix_length_app, Nat.sub_diag. simpl.
  apply drop_app_length.
Qed.

Lemma add_files_entries temp_dir mimetype_path zf item :
  add_files temp_dir mimetype_path zf item
  = zf ++ entries_of_item temp_dir mimetype_path item.
Proof.
  unfold add_files, entries_of_item. destruct item as [[root dirs] files]. simpl.
  revert zf. induction files as [|f files IH]; intros zf; simpl.
  - now rewrite app_nil_r.
  - rewrite IH. destruct (bool_decide _); simpl; [reflexivity|].
    now rewrite <- app_assoc.
Qed.

Lemma fold_add_files temp_dir mimetype_path items zf :
  fold_left (add_files temp_dir mimetype_path) items zf
  = zf ++ flat_map (entries_of_item temp_dir mimetype_path) items.
Proof.
  revert zf. induction items as [|item items IH]; intros zf; simpl.
  - now rewrite app_nil_r.
  - now rewrite IH, add_files_entries, <- app_assoc.
Qed.

Lemma in_file_names children name :
  In name (file_names children) <-> In (name, RegFile) children.
Proof.
  unfold file_names. rewrite in_map_iff. split.
  - intros ([n c] & <- & [Hin Hd]%filter_In). simpl in *. now destruct c.
  - intros Hin. exists (name, RegFile). split; [reflexivity|].
    apply filter_In. now split.
Qed.

Lemma file_at_nil n : file_at n [] -> n = RegFile.
Proof. now inversion 1. Qed.

(** The entries written for the walk of a tree that lies at [rel] below the
    working root: one per regular file, the root marker apart. *)
Lemma walk_entries temp_dir marker n :
  forall rel e,
    In e (flat_map (entries_of_item temp_dir (temp_dir ++ marker))
            (walk (temp_dir ++ rel) n))
    <-> exists p, file_at n p /\ p ≠ [] /\ rel ++ p ≠ marker
                  /\ e = {| source := temp_dir ++ rel ++ p;
                            arcname := rel ++ p;
                            compress_type := ZIP_DEFLATED |}.
Proof.
  induction n as [|children IH] using node_induction; intros rel e.
  - simpl. split; [tauto|]. intros (p & Hp & Hne & _). inversion Hp. congruence.
  - simpl. rewrite in_app_iff. split.
    + intros [Hin|Hin].
      * unfold entries_of_item in Hin. simpl in Hin.
        apply in_flat_map in Hin as (f & Hf & Hin).
        apply in_file_names in Hf.
        rewrite <- app_assoc in Hin.
        destruct (bool_decide _) eqn:E; [contradiction|].
        apply bool_decide_eq_false in E.
        destruct Hin as [<-|[]]. exists [f]. split_and!.
        -- econstructor; [apply list_elem_of_In; exact Hf|constructor].
        -- discriminate.
        -- intros Heq. apply E. now rewrite Heq.
        -- now rewrite relpath_below.
      * apply in_flat_map in Hin as (item & Hitem & Hin).
        apply in_flat_map in Hitem as ([name child] & Hc & Hitem). simpl in Hitem.
        rewrite Forall_forall in IH.
        assert (He : In e (flat_map (entries_of_item temp_dir (temp_dir ++ marker))
                             (walk (temp_dir ++ rel ++ [name]) child))).
        { apply in_flat_map. exists item. split; [|exact Hin].
          now rewrite app_assoc. }
        apply (IH (name, child)) in He; [|apply list_elem_of_In; exact Hc].
        destruct He as (p & Hp & Hne & Hm & ->). exists (name :: p). split_and!.
        -- econstructor; [apply list_elem_of_In; exact Hc|exact Hp].
        -- discriminate.
        -- now rewrite <- app_assoc in Hm.
        -- now rewrite <- !app_assoc.
    + intros (p & Hp & Hne & Hm & ->).
      inversion Hp as [|? name child p' Hc Hp' E1 E2]; subst.
      apply list_elem_of_In in Hc.
      destruct p' as [|x p'].
      * left. apply file_at_nil in Hp' as ->.
        unfold entries_of_item. simpl. apply in_flat_map.
        exists name. split; [now apply in_file_names|].
        rewrite <- app_assoc.
        rewrite bool_decide_eq_false_2 by (intros Heq; apply Hm; now apply app_inv_head in Heq).
        left. now rewrite relpath_below.
      * right. rewrite Forall_forall in IH.
        assert (He : In {| source := temp_dir ++ (rel ++ [name]) ++ x :: p';
                           arcname := (rel ++ [name]) ++ x :: p';
                           compress_type := ZIP_DEFLATED |}
                       (flat_map (entries_of_item temp_dir (temp_dir ++ marker))
                          (walk (temp_dir ++ rel ++ [name]) child))).
        { apply (IH (name, child)); [apply list_elem_of_In; exact Hc|].
          exists (x :: p'). split_and!; [exact Hp'|discriminate| |reflexivity].
          now rewrite <- app_assoc. }
        rewrite <- !app_assoc in He. simpl in He.
        apply in_flat_map in He as (item & Hitem & Hin).
        apply in_flat_map. exists item. split; [|exact Hin].
        apply in_flat_map. exists (name, child). split; [exact Hc|].
        simpl. now rewrite <- app_assoc.
Qed.

(** C8: when the working tree has its root marker [mimetype],
    [create_epub_from_temp] writes an archive whose first entry is
    [mimetype], stored without compression; every other entry is deflated
    and is a file of the working tree, named by its path below the working
    root [temp]; and every file of the tree other than the root marker has
    such an entry. *)
Theorem archive_layout base_path children :
  let temp_dir := base_path ++ [py "temp"] in
  has_file children (py "mimetype") = true ->
  exists rest,
    create_epub_from_temp base_path (Some (Directory children))
    = Some ({| source := temp_dir ++ [py "mimetype"];
               arcname := [py "mimetype"];
               compress_type := ZIP_STORED |} :: rest)
    /\ (forall e, e ∈ rest ->
          compress_type e = ZIP_DEFLATED
          /\ source e = temp_dir ++ arcname e
          /\ file_at (Directory children) (arcname e)
          /\ arcname e ≠ [py "mimetype"])
    /\ (forall p, file_at (Directory children) p -> p ≠ [py "mimetype"] ->
          exists e, e ∈ rest /\ arcname e = p /\ compress_type e = ZIP_DEFLATED).
Proof.
  intros temp_dir Hm. unfold create_epub_from_temp. fold temp_dir.
  rewrite Hm. simpl negb. cbv iota.
  rewrite fold_add_files.
  eexists. split; [reflexivity|].
  pose proof (walk_entries temp_dir [py "mimetype"] (Directory children) []) as Hw.
  rewrite app_nil_r in Hw. split.
  - intros e He%list_elem_of_In. apply Hw in He as (p & Hp & Hne & Hmk & ->).
    simpl in *. now split_and!.
  - intros p Hp Hne.
    exists {| source := temp_dir ++ p; arcname := p; compress_type := ZIP_DEFLATED |}.
    split_and!; [|reflexivity|reflexivity].
    apply list_elem_of_In, Hw. exists p.
    split_and!; [exact Hp| |exact Hne|reflexivity].
    intros ->. inversion Hp.
Qed.

(** ** No file twice in the archive *)

Lemma distinct_names_children children :
  distinct_names (Directory children) ->
  NoDup children.*1 /\ Forall (fun c => distinct_names c.2) children.
Proof.
  cbn [distinct_names]. intros [Hnd Hall]. split; [exact Hnd|]. clear Hnd.
  induction children as [|c children IH]; [constructor|].
  destruct Hall as [Hc Hall]. constructor; [exact Hc|now apply IH].
Qed.

Lemma flat_map_flat_map {A B C} (f : B -> list C) (g : A -> list B) l :
  flat_map f (flat_map g l) = flat_map (fun x => flat_map f (g x)) l.
Proof.
  induction l as [|x l IH]; [reflexivity|]. cbn [flat_map].
  now rewrite flat_map_app, IH.
Qed.

Lemma file_names_NoDup children : NoDup children.*1 -> NoDup (file_names children).
Proof.
  unfold file_names. induction children as [|[name child] children IH]; [constructor|].
  cbn [fmap list_fmap List.filter fst snd]. intros [Hn Hnd]%NoDup_cons.
  destruct (negb (is_dir child)); [|now apply IH].
  cbn [fmap list_fmap fst]. apply NoDup_cons. split; [|now apply IH].
  intros Hin. apply Hn. apply list_elem_of_fmap in Hin as (c & -> & Hc).
  apply list_elem_of_fmap. exists c. split; [reflexivity|].
  apply list_elem_of_In in Hc. apply filter_In in Hc as [Hc _]. now apply list_elem_of_In.
Qed.

(** The names of the entries written for the files of one directory. *)
Lemma entries_of_item_arcnames temp_dir marker rel dirs files :
  NoDup files ->
  NoDup (arcname <$> entries_of_item temp_dir (temp_dir ++ marker)
                       (temp_dir ++ rel, dirs, files))
  /\ forall a,
       a ∈ arcname <$> entries_of_item temp_dir (temp_dir ++ marker)
                         (temp_dir ++ rel, dirs, files) ->
       exists f, f ∈ files /\ a = rel ++ [f].
Proof.
  unfold entries_of_item. cbn [fst snd].
  induction files as [|f files IH]; intros Hnd.
  - split; [constructor|]. intros a Ha. now apply elem_of_nil in Ha.
  - apply NoDup_cons in Hnd as [Hf Hnd]. destruct (IH Hnd) as [IH1 IH2].
    cbn [flat_map]. destruct (bool_decide _); cbn [app].
    + split; [exact IH1|]. intros a Ha. destruct (IH2 a Ha) as (g & Hg & ->).
      exists g. split; [now right|reflexivity].
    + cbn [fmap list_fmap arcname]. rewrite <- app_assoc, relpath_below. split.
      * apply NoDup_cons. split; [|exact IH1].
        intros Hin. destruct (IH2 _ Hin) as (g & Hg & E).
        apply app_inv_head in E. injection E as ->. contradiction.
      * intros a Ha. apply elem_of_cons in Ha as [->|Ha].
        -- exists f. split; [now left|reflexivity].
        -- destruct (IH2 a Ha) as (g & Hg & ->). exists g. split; [now right|reflexivity].
Qed.

Lemma walk_arcname temp_dir marker n rel a :
  a ∈ arcname <$> flat_map (entries_of_item temp_dir (temp_dir ++ marker))
                    (walk (temp_dir ++ rel) n) ->
  exists p, file_at n p /\ p ≠ [] /\ a = rel ++ p /\ a ≠ marker.
Proof.
  intros (e & -> & He)%list_elem_of_fmap. apply list_elem_of_In in He.
  apply walk_entries in He as (p & Hp & Hne & Hm & ->). exists p. now split_and!.
Qed.

(** The entries written for a tree have names of their own. *)
Lemma walk_arcnames_NoDup temp_dir marker n :
  distinct_names n ->
  forall rel,
    NoDup (arcname <$> flat_map (entries_of_item temp_dir (temp_dir ++ marker))
                         (walk (temp_dir ++ rel) n)).
Proof.
  induction n as [|children IH] using node_induction; intros Hd rel.
  - constructor.
  - apply distinct_names_children in Hd as [Hnd Hall].
    cbn [walk flat_map]. rewrite fmap_app. apply NoDup_app.
    destruct (entries_of_item_arcnames temp_dir marker rel (dir_names children)
                (file_names children) (file_names_NoDup children Hnd)) as [Hfiles Hshape].
    split_and!; [exact Hfiles| |].
    + intros a Ha Hin. destruct (Hshape a Ha) as (f & _ & ->).
      rewrite flat_map_flat_map in Hin.
      apply list_elem_of_fmap in Hin as (e & E & He). apply list_elem_of_In in He.
      apply in_flat_map in He as ([name child] & _ & He). cbn [fst snd] in He.
      rewrite <- app_assoc in He.
      apply walk_entries in He as (p & _ & Hne & _ & ->). cbn [arcname] in E.
      rewrite <- app_assoc in E. apply app_inv_head in E.
      destruct p; [congruence|]. cbn [app] in E. injection E as _ E.
      now destruct p.
    + rewrite flat_map_flat_map. clear Hfiles Hshape.
      induction children as [|[name child] children IHc]; [constructor|].
      apply Forall_cons in IH as [IHhead IH]. apply Forall_cons in Hall as [Hchild Hall].
      cbn [fmap list_fmap fst] in Hnd. apply NoDup_cons in Hnd as [Hname Hnd].
      cbn [flat_map fst snd]. rewrite fmap_app. apply NoDup_app. split_and!.
      * rewrite <- app_assoc. apply IHhead. exact Hchild.
      * intros a Ha Hin. rewrite <- app_assoc in Ha.
        apply walk_arcname in Ha as (p & _ & _ & -> & _).
        apply list_elem_of_fmap in Hin as (e & E & He). apply list_elem_of_In in He.
        apply in_flat_map in He as ([name' child'] & Hc & He). cbn [fst snd] in He.
        rewrite <- app_assoc in He.
        apply walk_entries in He as (q & _ & _ & _ & ->). cbn [arcname] in E.
        rewrite <- !app_assoc in E. apply app_inv_head in E. cbn [app] in E.
        injection E as -> _. apply Hname. apply list_elem_of_fmap.
        exists (name', child'). split; [reflexivity|now apply list_elem_of_In].
      * now apply IHc.
Qed.

(** X16: in the archive of a working tree, as a file system holds it, no
    name is written twice: with the entries that [create_epub_from_temp]
    writes for each file, every file of the tree is in the archive exactly
    once, and so is [mimetype]. *)
Theorem archive_names_are_distinct base_path children :
  distinct_names (Directory children) ->
  has_file children (py "mimetype") = true ->
  exists entries,
    create_epub_from_temp base_path (Some (Directory children)) = Some entries
    /\ NoDup (arcname <$> entries).
Proof.
  intros Hd Hm. unfold create_epub_from_temp. rewrite Hm. cbn [negb].
  eexists. split; [reflexivity|]. rewrite fold_add_files.
  cbn [app fmap list_fmap arcname]. apply NoDup_cons.
  pose proof (walk_arcnames_NoDup (base_path ++ [py "temp"]) [py "mimetype"]
                (Directory children) Hd []) as Hnd.
  rewrite app_nil_r in Hnd. split; [|exact Hnd].
  intros Hin. rewrite <- (app_nil_r (base_path ++ [py "temp"])) in Hin at 3.
  apply walk_arcname in Hin as (p & _ & _ & _ & Hne). now apply Hne.
Qed.


(** * The properties on sample inputs *)

(** The splitter on a double page [p2.jpg], read right to left. *)
Lemma split_two_halves_sample :
  exists st' img_a img_b,
    process_image ascii_only_isalnum ascii_only_lower no_faults 1046 1448
      default_double_page_ratio (py "rtl") (py "p2.jpg") (scenario_a white white)
    = Some st'
    /\ images_dir st' !! py "p2_a.jpg" = Some (File (Some img_a))
    /\ images_dir st' !! py "p2_b.jpg" = Some (File (Some img_b))
    /\ width img_a + width img_b = 2000
    /\ height img_a = 1500 /\ height img_b = 1500.
Proof.
  destruct (split_two_halves ascii_only_isalnum ascii_only_lower no_faults 1046 1448
              default_double_page_ratio (py "rtl") (py "p2.jpg") (landscape white)
              (scenario_a white white))
    as (st' & img_a & img_b & Hrun & Ha & Hb & _ & _ & _ & Hsum & Hha & Hhb);
    try (vm_compute; reflexivity).
  - compute_done.
  - exists st', img_a, img_b. repeat split; assumption.
Defined.

Lemma split_roles_sample :
  exists st',
    process_image ascii_only_isalnum ascii_only_lower no_faults 1046 1448
      default_double_page_ratio (py "rtl") (py "p2.jpg") (scenario_a white white)
    = Some st'
    /\ images_dir st' !! py "p2_a.jpg"
       = Some (File (Some (crop (landscape white) (1000, 0, 2000, 1500))))
    /\ images_dir st' !! py "p2_b.jpg"
       = Some (File (Some (crop (landscape white) (0, 0, 1000, 1500))))
    /\ images_dir st' !! py "p2.jpg" = None.
Proof.
  destruct (split_roles ascii_only_isalnum ascii_only_lower no_faults 1046 1448
              default_double_page_ratio (py "rtl") (py "p2.jpg") (landscape white)
              (scenario_a white white))
    as (st' & Hrun & _ & _ & Hrtl & Hrm & _);
    try (vm_compute; reflexivity).
  - compute_done.
  - exists st'. destruct (Hrtl ltac:(vm_compute; reflexivity)) as [Ha Hb].
    split_and!; [exact Hrun|exact Ha|exact Hb|apply Hrm; reflexivity].
Defined.



(** Scenario A as stated fails: the halves of [p2.jpg] sort before
    [s1.jpg], so the spine does not start with s1 and has no blank page. *)
Lemma scenario_a_as_stated_fails :
  spine_of (layout_run ascii_only_isalnum ascii_only_lower no_faults 1046 1448
              default_double_page_ratio false (py "rtl") 1072 1448
              (scenario_a white white))
  ≠ Some [ {| idref := py "page_Images_s1_F"; page_spread := Right |};
           {| idref := py "page_blank_1"; page_spread := Left |};
           {| idref := py "page_Images_p2_a_F"; page_spread := Right |};
           {| idref := py "page_Images_p2_b_F"; page_spread := Left |} ].
Proof. vm_compute. discriminate. Qed.

(** C1 as stated fails after a cover, read left to right: the double spread
    [p_a], [p_b] is not the first entry of the spine and the next side
    (right) is not the desired side (left), yet no blank page is inserted. *)
Lemma blank_rule_as_stated_fails :
  let files := list_image_files ascii_only_lower (images_dir cover_then_spread) in
  let st0 := initial_state (text_dir cover_then_spread) [] in
  (exists r,
     generate_content_opf ascii_only_isalnum ascii_only_lower true (py "ltr") 1072 1448
       cover_then_spread
     = Some r
     /\ spine_items (final r)
        = [ {| idref := py "page_Images_0_F"; page_spread := Center |};
            {| idref := py "page_Images_p_a_F"; page_spread := Right |};
            {| idref := py "page_Images_p_b_F"; page_spread := Left |} ]
     /\ blank_counter (final r) = 0)
  /\ ~ blank_inserted_iff ascii_only_isalnum ascii_only_lower true (py "ltr") 1072 1448
         files (side_mismatch_stated (py "ltr")) st0.
Proof.
  intros files st0. split.
  - eexists. split; [vm_compute; reflexivity|]. split; vm_compute; reflexivity.
  - intros H.
    pose proof (reachable_step ascii_only_isalnum ascii_only_lower true (py "ltr")
                  1072 1448 files st0
                  0%nat (py "0.jpg") st0 (reachable_start _ _ _ _ _ _ _ _)
                  ltac:(vm_compute; reflexivity)) as Hreach.
    specialize (H _ (py "p_a.jpg") _ Hreach
                  ltac:(vm_compute; reflexivity) ltac:(vm_compute; reflexivity)).
    vm_compute in H. destruct H as [_ H]. discriminate (H eq_refl).
Qed.

(** The rule of the code at a double spread that follows one single page,
    read right to left: a blank page is due. *)
Lemma blank_page_rule_sample :
  let fs := images_with_pages ["s1"; "s2_a"; "s2_b"]%string ["s1"; "s2_a"; "s2_b"]%string in
  let files := list_image_files ascii_only_lower (images_dir fs) in
  let st0 := initial_state (text_dir fs) [] in
  let st1 :=
    (step ascii_only_isalnum ascii_only_lower false (py "rtl") 1072 1448 files 0
       (py "s1.jpg") st0).2 in
  blank_counter
    (step ascii_only_isalnum ascii_only_lower false (py "rtl") 1072 1448 files 1
       (py "s2_a.jpg") st1).2
  = 1.
Proof.
  intros fs files st0 st1.
  destruct (blank_page_rule ascii_only_isalnum ascii_only_lower false (py "rtl") 1072 1448
              files (text_dir fs) [] 1%nat (py "s2_a.jpg") st1) as [H _].
  - exact (reachable_step ascii_only_isalnum ascii_only_lower false (py "rtl") 1072 1448
             files st0 0%nat (py "s1.jpg") st0 (reachable_start _ _ _ _ _ _ _ _)
             ltac:(vm_compute; reflexivity)).
  - vm_compute. reflexivity.
  - rewrite H. vm_compute. reflexivity.
Defined.

(** A double spread whose second half has no page document. *)
Lemma double_spread_without_half_b_sample :
  let fs := images_with_pages ["p_a"; "p_b"]%string ["p_a"]%string in
  let files := list_image_files ascii_only_lower (images_dir fs) in
  exists st',
    step ascii_only_isalnum ascii_only_lower false (py "rtl") 1072 1448 files 0 (py "p_a.jpg")
      (initial_state (text_dir fs) []) = (2%nat, st')
    /\ spine_items st' = [ {| idref := py "page_Images_p_a_F"; page_spread := Right |} ].
Proof.
  intros fs files.
  destruct (double_spread_without_half_b ascii_only_isalnum ascii_only_lower false (py "rtl") 1072 1448
              files 0%nat (py "p_a.jpg") (py "p_b.jpg") (initial_state (text_dir fs) []))
    as (st' & Hstep & Hspine & _); try (vm_compute; reflexivity).
  exists st'. split; [exact Hstep|]. rewrite Hspine. vm_compute. reflexivity.
Defined.

(** A cover is asked for, but the first image [0.jpg] has no page. *)
Lemma cover_bound_to_first_file_sample :
  let fs := images_with_pages ["0"; "p1"]%string ["p1"]%string in
  exists r,
    generate_content_opf ascii_only_isalnum ascii_only_lower true (py "rtl") 1072 1448 fs = Some r
    /\ generate_content_opf ascii_only_isalnum ascii_only_lower false (py "rtl") 1072 1448 fs = Some r
    /\ cover_meta r = None.
Proof.
  intros fs.
  destruct (cover_bound_to_first_file ascii_only_isalnum ascii_only_lower (py "rtl") 1072 1448 fs (py "0.jpg"))
    as (r & more & Ht & Hf & _ & _ & _ & Hm); try (vm_compute; reflexivity).
  exists r. now split_and!.
Defined.

(** The archive of a small working tree. *)
Lemma archive_layout_sample :
  exists rest,
    create_epub_from_temp [py "book"] (Some (Directory sample_tree))
    = Some ({| source := [py "book"; py "temp"; py "mimetype"];
               arcname := [py "mimetype"];
               compress_type := ZIP_STORED |} :: rest)
    /\ forall e, e ∈ rest -> compress_type e = ZIP_DEFLATED.
Proof.
  destruct (archive_layout [py "book"] sample_tree) as (rest & Hrun & Hrest & _).
  - vm_compute. reflexivity.
  - exists rest. split; [exact Hrun|]. intros e He. now apply Hrest.
Defined.

(** The string helpers on sample names. *)
Example sanitize_name_sample :
  sanitize_name ascii_only_isalnum (py "my page-1 (v2)") = py "my_page-1__v2_".
Proof. vm_compute. reflexivity. Qed.

Example splitext_sample :
  splitext (py "vol.1/p.2.JPG") = (py "vol.1/p.2", py ".JPG")
  /\ splitext (py ".hidden") = (py ".hidden", []).
Proof. split; vm_compute; reflexivity. Qed.

Example is_double_page_sample :
  is_double_page default_double_page_ratio 2000 1500 = true
  /\ is_double_page default_double_page_ratio 1300 1000 = true
  /\ is_double_page default_double_page_ratio 1299 1000 = false
  /\ is_double_page default_double_page_ratio 1000 0 = false.
Proof. repeat split; vm_compute; reflexivity. Qed.

(** The division of the ratio on integers of any size: the quotient is
    rounded once, and a quotient beyond the floats is an error. *)
Example int_true_divide_sample :
  int_true_divide (10 ^ 400) (10 ^ 399) = Some 10%float
  /\ int_true_divide (2 ^ 1024 - 2 ^ 970 - 1) 1 = Some 0x1.fffffffffffffp+1023%float
  /\ int_true_divide (2 ^ 1024 - 2 ^ 970) 1 = None
  /\ int_true_divide (10 ^ 400) 1 = None.
Proof. repeat split; vm_compute; reflexivity. Qed.

(** An image that cannot be decoded, with a fallback width beyond the
    floats: the division raises and the run stops. *)
Example ratio_overflow_sample :
  process_image ascii_only_isalnum ascii_only_lower no_faults (10 ^ 400) 1
    default_double_page_ratio (py "rtl") (py "p1.jpg") undecodable_image = None
  /\ generate_xhtml_pages ascii_only_isalnum ascii_only_lower no_faults (10 ^ 400) 1
       default_double_page_ratio (py "rtl") undecodable_image = None.
Proof. split; vm_compute; reflexivity. Qed.

(** ** Runs of the further properties *)

(** A cover and a double spread: the cover opens the spine. *)
Lemma cover_opens_the_spine_sample :
  exists r rest,
    generate_content_opf ascii_only_isalnum ascii_only_lower true (py "rtl") 1072 1448
      cover_then_spread = Some r
    /\ spine_items (final r)
       = {| idref := py "page_Images_0_F"; page_spread := Center |} :: rest
    /\ cover_image_id (final r) = Some (py "cover").
Proof.
  destruct (cover_opens_the_spine ascii_only_isalnum ascii_only_lower (py "rtl") 1072 1448
              cover_then_spread (py "0.jpg"))
    as (r & rest & Hr & Hs & _ & _ & Hc & _); try (vm_compute; reflexivity).
  exists r, rest. split_and!; [exact Hr|exact Hs|exact Hc].
Defined.

(** The resolution of the front end's default, written with either
    separator. *)
Lemma parse_resolution_round_trip_sample :
  parse_resolution ascii_only_lower ascii_only_isspace ascii_only_int default_max_str_digits
    (py "1072X1448") (0, 0) = (1072, 1448).
Proof.
  apply (parse_resolution_round_trip ascii_only_lower ascii_only_isspace ascii_only_int
           default_max_str_digits 1072 1448 88 (0, 0)).
  - now right.
  - right. vm_compute. lia.
  - right. vm_compute. lia.
Defined.

(** A resolution with two separators. *)
Lemma parse_resolution_default_sample :
  parse_resolution ascii_only_lower ascii_only_isspace ascii_only_int default_max_str_digits
    (py "1072x1448x2") default_resolution = default_resolution.
Proof.
  apply (parse_resolution_default ascii_only_lower ascii_only_isspace ascii_only_int
           default_max_str_digits (py "1072x1448x2") default_resolution).
  - reflexivity.
  - vm_compute. lia.
Defined.


(** The halves of [p2.jpg] in the list of files of the builder. *)
Lemma halves_form_a_double_spread_sample :
  double_spread_at ascii_only_isalnum ascii_only_lower false
    [py "p2_a.jpg"; py "p2_b.jpg"] 0 (py "p2_a.jpg")
    (initial_state (text_dir (images_with_pages ["p2_a"; "p2_b"]%string ["p2_a"; "p2_b"]%string)) [])
  = true.
Proof.
  apply (halves_form_a_double_spread ascii_only_isalnum ascii_only_lower false
           [py "p2_a.jpg"; py "p2_b.jpg"] 0 (py "p2") (py ".jpg")).
  - exists (py "jpg"). split_and!; [reflexivity|compute_done|compute_done].
  - reflexivity.
  - reflexivity.
  - reflexivity.
  - vm_compute. eauto.
Defined.

(** Scenario A without faults: every image of the end has its page. *)
Lemma every_image_gets_its_page_sample :
  exists st',
    generate_xhtml_pages ascii_only_isalnum ascii_only_lower no_faults 1072 1448
      default_double_page_ratio (py "rtl") (scenario_a white white) = Some st'
    /\ forall filename,
         isfile (images_dir st') filename = true ->
         lower ascii_only_lower (splitext filename).2 ∈ xhtml_image_extensions ->
         has_page ascii_only_isalnum (text_dir st') filename = true.
Proof.
  apply (every_image_gets_its_page ascii_only_isalnum ascii_only_lower no_faults 1072 1448
           default_double_page_ratio (py "rtl") (scenario_a white white)).
  - intros name. split_and!; reflexivity.
  - split; [unfold float_sized; lia|]. intros name img.
    unfold scenario_a, images_only. cbn [images_dir fmap list_fmap list_to_map foldr].
    rewrite !lookup_insert_Some, lookup_empty.
    intros [[_ [= <-]]|[_ [[_ [= <-]]|[_ [=]]]]]; unfold float_sized;
      cbn [width portrait landscape]; lia.
Defined.

(** Scenario A without faults, from the images to the spine. *)
Lemma every_image_reaches_the_spine_sample :
  exists st' r,
    generate_xhtml_pages ascii_only_isalnum ascii_only_lower no_faults 1072 1448
      default_double_page_ratio (py "rtl") (scenario_a white white) = Some st'
    /\ generate_content_opf ascii_only_isalnum ascii_only_lower false (py "rtl") 1072 1448 st'
       = Some r
    /\ forall filename,
         isfile (images_dir st') filename = true ->
         lower ascii_only_lower (splitext filename).2 ∈ xhtml_image_extensions ->
         page_id_of_image ascii_only_isalnum filename ∈ spine_pages (spine_items (final r)).
Proof.
  apply (every_image_reaches_the_spine ascii_only_isalnum ascii_only_lower no_faults 1072 1448
           default_double_page_ratio false (py "rtl") 1072 1448 (scenario_a white white)).
  - intros name. split_and!; reflexivity.
  - split; [unfold float_sized; lia|]. intros name img.
    unfold scenario_a, images_only. cbn [images_dir fmap list_fmap list_to_map foldr].
    rewrite !lookup_insert_Some, lookup_empty.
    intros [[_ [= <-]]|[_ [[_ [= <-]]|[_ [=]]]]]; unfold float_sized;
      cbn [width portrait landscape]; lia.
Defined.


(** A cover beside a page, copied into a folder [Images] that is empty. *)
Lemma covers_overwrite_nothing_sample :
  exists dest' name,
    copy_images_to_temp_images ascii_only_lower (fun _ => true)
      [py "Cover.JPG"; py "p1.jpg"] folder_with_cover ∅ = Some dest'
    /\ startswith name (py "0") = true
    /\ dest' !! name = folder_with_cover !! py "Cover.JPG"
    /\ dest' !! py "p1.jpg" = folder_with_cover !! py "p1.jpg".
Proof.
  destruct (covers_overwrite_nothing ascii_only_lower (fun _ => true)
              [py "Cover.JPG"; py "p1.jpg"] folder_with_cover (fun _ => eq_refl) ∅)
    as (dest' & Hrun & Hothers & _ & Hcovers & _).
  destruct (Hcovers (py "Cover.JPG")) as (name & _ & _ & Hs & Hc); [compute_done|].
  exists dest', name. split_and!; [exact Hrun|exact Hs|exact Hc|].
  apply Hothers; [compute_done|discriminate].
Defined.


(** The archive of the small working tree holds each file once. *)
Lemma archive_names_are_distinct_sample :
  exists entries,
    create_epub_from_temp [py "book"] (Some (Directory sample_tree)) = Some entries
    /\ NoDup (arcname <$> entries).
Proof.
  apply (archive_names_are_distinct [py "book"] sample_tree).
  - unfold sample_tree. cbn [distinct_names fmap list_fmap fst snd].
    repeat split; compute_done.
  - reflexivity.
Defined.
